(** * The bird-visit tracker: session engine, detection loop and analysis worker

    A shallow embedding of [backend/state_machine.py], of the tick body of
    [backend/bird_detector.py] and of [backend/species_analyzer.py], followed
    by the properties the specification states about them.

    Conventions of the embedding.
    - A [datetime] is the number of microseconds since the epoch, a [Z].
      [(a - b).total_seconds() >= n] for an integer setting [n] is the
      comparison [n * 1000000 <= a - b].  The code compares the float
      [total_seconds()] returns, [elapsed_as_computed]; the two
      comparisons agree for the settings in [exact_seconds]
      ([float_comparison_is_exact]), which the properties that give an
      exact bound on a time assume.
    - A detection confidence is a binary64 float, a [spec_float] of the
      Standard Library with its IEEE 754 operations at precision 53; the
      other floats that carry measured quantities ([time.time()], area
      ratios) are exact rationals, [Q].
    - A Python object that is shared and mutated (a [Visit]) lives in a heap,
      a list of objects addressed by position; variables hold references.
    - A Python exception is the outcome [Raise] carrying its message. *)

From Stdlib Require Import ZArith QArith Lia.
From Stdlib Require Import SpecFloat.
From stdpp Require Import base list strings.

Set Default Proof Using "Type".

(** ** Outcomes of fallible code *)

Inductive outcome (A : Type) : Type :=
| Return (a : A)
| Raise (e : string).
Arguments Return {A} a.
Arguments Raise {A} e.

Definition is_raise {A} (o : outcome A) : bool :=
  match o with Raise _ => true | Return _ => false end.

(** ** Python floats *)

Module Float.
(** A Python [float] is an IEEE 754 binary64 number. *)
Definition t : Type := spec_float.

Definition zero : t := S754_zero false.

(** [float(n)] for an int [n], rounded to the nearest float, ties to
    even.  Python raises [OverflowError] where this gives an infinity,
    from [2 ^ 1024 - 2 ^ 970] on. *)
Definition of_int (n : Z) : t := binary_normalize 53 1024 n 0 false.

(** [a * b], [a / b], [a < b] and [a <= b] on floats. *)
Definition mul (a b : t) : t := SFmul 53 1024 a b.
Definition div (a b : t) : t := SFdiv 53 1024 a b.
Definition ltb (a b : t) : bool := SFltb a b.
Definition leb (a b : t) : bool := SFleb a b.

(** The float a decimal literal with value [p / q] denotes. *)
Definition ratio (p q : Z) : t := div (of_int p) (of_int q).

(** An int as an operand of [/]: the number as it is, which is not
    rounded before the division. *)
Definition unrounded (n : Z) : t :=
  match n with
  | Z0 => S754_zero false
  | Zpos p => S754_finite false p 0
  | Zneg p => S754_finite true p 0
  end.

(** [a / b] for ints: the quotient, rounded once to the nearest float,
    ties to even.  Python raises [ZeroDivisionError] for [b = 0], and
    [OverflowError] where this gives an infinity. *)
Definition true_div (a b : Z) : t := SFdiv 53 1024 (unrounded a) (unrounded b).

(** [x >= n] for a float [x] and an int [n]: the two numbers are compared
    as they are, the int is not converted. *)
Definition ge_int (x : t) (n : Z) : bool :=
  match x with
  | S754_zero _ => (n <=? 0)%Z
  | S754_infinity s => negb s
  | S754_nan => false
  | S754_finite s m e =>
      let z := if s then Zneg m else Zpos m in
      match e with
      | Zneg k => (n * 2 ^ Zpos k <=? z)%Z
      | _ => (n <=? z * 2 ^ e)%Z
      end
  end.
End Float.

(** ** backend/config.py *)

Module Config.
(** The settings the modelled code reads.  [Config] has no attribute
    [OPENAI_RETRY_DELAY_SEC]: reading it raises [AttributeError], which is
    [None] here; a configuration object that supplies it has [Some]. *)
Record t := mk {
  DETECTION_INTERVAL_MS : Z;
  ABSENCE_GRACE_PERIOD_SEC : Z;
  VISIT_COOLDOWN_SEC : Z;
  MAX_CAPTURES_PER_VISIT : Z;
  CAPTURE_INTERVAL_SEC : Z;
  OPENAI_API_KEY : string;
  OPENAI_MAX_RETRIES : Z;
  OPENAI_RETRY_DELAY_SEC : option Z;
  SUPABASE_URL : string;
  STORAGE_BUCKET : string
}.

(** The class as it is written, with every environment variable unset
    except the two the start-up check insists on. *)
Definition defaults (url key : string) : t :=
  {| DETECTION_INTERVAL_MS := 500;
     ABSENCE_GRACE_PERIOD_SEC := 5;
     VISIT_COOLDOWN_SEC := 15;
     MAX_CAPTURES_PER_VISIT := 5;
     CAPTURE_INTERVAL_SEC := 3;
     OPENAI_API_KEY := key;
     OPENAI_MAX_RETRIES := 3;
     OPENAI_RETRY_DELAY_SEC := None;
     SUPABASE_URL := url;
     STORAGE_BUCKET := "bird-captures" |}.
End Config.

(** ** backend/logger.py *)

Module StructuredLogger.
Record entry := mk_entry {
  level : string;
  message : string;
  entry_correlation_id : option string
}.

(** The printed output, oldest line first.  The copy that [log] inserts
    into the [system_logs] table is best-effort (its exception is
    swallowed inside [log]) and is not modelled. *)
Record t := mk {
  component : string;
  correlation_id : option string;
  output : list entry
}.

Definition create (component : string) : t :=
  {| component := component; correlation_id := None; output := [] |}.

Definition set_correlation_id (self : t) (cid : string) : t :=
  {| component := component self; correlation_id := Some cid;
     output := output self |}.

Definition log (self : t) (lvl msg : string) : t :=
  {| component := component self; correlation_id := correlation_id self;
     output := output self ++ [mk_entry lvl msg (correlation_id self)] |}.

Definition debug (self : t) (msg : string) : t := log self "DEBUG" msg.
Definition info (self : t) (msg : string) : t := log self "INFO" msg.
Definition warning (self : t) (msg : string) : t := log self "WARNING" msg.
Definition error (self : t) (msg : string) : t := log self "ERROR" msg.
Definition critical (self : t) (msg : string) : t := log self "CRITICAL" msg.
End StructuredLogger.

(** ** Detections and captures (the dicts the pipeline passes around) *)

Module Detection.
(** The dict built in [_detect_birds].  Readers use [.get] with a default:
    a missing ['bbox'] reads as the empty list, a missing ['confidence']
    as [0]. *)
Record t := mk {
  bbox : list Z;
  confidence : option Float.t;
  class_id : Z;
  area_ratio : Q
}.
End Detection.

Module Capture.
(** [capture_data] of [_capture_and_store], also a row of table
    [captures]. *)
Record t := mk {
  id : string;
  visit_id : string;
  timestamp : Z;
  image_url : string;
  detections : list Detection.t;
  is_best_capture : bool
}.
End Capture.

(** ** backend/state_machine.py *)

Inductive VisitState : Type :=
| IDLE
| BIRD_PRESENT
| BIRD_ABSENT
| VISIT_COMPLETE.

#[global] Instance VisitState_eq_dec : EqDecision VisitState.
Proof. solve_decision. Defined.

Module Visit.
Record t := mk {
  id : string;
  session_id : string;
  start_time : Z;
  end_time : option Z;
  captures : list Capture.t;
  status : string;
  species : option string;
  species_confidence : option string;
  summary : option string;
  bird_count : Z
}.

(** [Visit.__init__]: the identifier comes from [uuid.uuid4()] and the
    start time from the constructor's own reading of the clock. *)
Definition init (session_id uuid : string) (clock : Z) : t :=
  {| id := uuid; session_id := session_id; start_time := clock;
     end_time := None; captures := []; status := "active";
     species := None; species_confidence := None; summary := None;
     bird_count := 1 |}.

(** [self.end_time = now; self.status = "analyzing"] *)
Definition close (now : Z) (v : t) : t :=
  {| id := id v; session_id := session_id v; start_time := start_time v;
     end_time := Some now; captures := captures v; status := "analyzing";
     species := species v; species_confidence := species_confidence v;
     summary := summary v; bird_count := bird_count v |}.

(** [self.captures.append(c)] *)
Definition append_capture (c : Capture.t) (v : t) : t :=
  {| id := id v; session_id := session_id v; start_time := start_time v;
     end_time := end_time v; captures := captures v ++ [c];
     status := status v;
     species := species v; species_confidence := species_confidence v;
     summary := summary v; bird_count := bird_count v |}.
End Visit.

(** A reference to a [Visit] object: its position in the heap. *)
Abbreviation ref := nat (only parsing).

Module Action.
Inductive t := start_visit | capture | complete_visit.
#[global] Instance eq_dec : EqDecision t.
Proof. solve_decision. Defined.
End Action.

Module Instruction.
(** The dict [process_detection] returns.  The dict of [_complete_visit]
    has no ['detections'] key. *)
Record t := mk {
  action : Action.t;
  visit : ref;
  capture : bool;
  detections : option (list Detection.t)
}.
End Instruction.

(** What one call of [process_detection] reads from outside: the clock on
    entry and, when it constructs a [Visit], a fresh uuid and the clock
    again. *)
Record Reading := mk_reading {
  now : Z;
  fresh_uuid : string;
  visit_clock : Z
}.

Module VisitStateMachine.
Record t := mk {
  session_id : string;
  state : VisitState;
  current_visit : option ref;
  absence_start_time : option Z;
  cooldown_start_time : option Z;
  last_capture_time : option Z
}.

(** The memory the detection thread works on: the state-machine object,
    the [Visit] objects created so far and the logger it shares with the
    detector. *)
Record memory := mk_memory {
  self : t;
  heap : list Visit.t;
  logger : StructuredLogger.t
}.

(** [__init__] *)
Definition init (session_id : string) : t :=
  {| session_id := session_id; state := IDLE; current_visit := None;
     absence_start_time := None; cooldown_start_time := None;
     last_capture_time := None |}.

Definition initial_memory (session_id : string) : memory :=
  {| self := init session_id; heap := [];
     logger := StructuredLogger.create "detector" |}.

(** [(now - since).total_seconds() >= sec] *)
Definition elapsed_at_least (now since sec : Z) : bool :=
  (sec * 1000000 <=? now - since)%Z.

(** The same test as the interpreter computes it: [total_seconds()]
    divides the microseconds of the difference by [10 ** 6], and the float
    is compared with the int setting. *)
Definition total_seconds (us : Z) : Float.t := Float.true_div us 1000000.

Definition elapsed_as_computed (now since sec : Z) : bool :=
  Float.ge_int (total_seconds (now - since)) sec.

Definition _should_capture (cfg : Config.t) (s : t) (now : Z) : bool :=
  match last_capture_time s with
  | None => true
  | Some since => elapsed_at_least now since (Config.CAPTURE_INTERVAL_SEC cfg)
  end.

Definition _absence_timeout_elapsed (cfg : Config.t) (s : t) (now : Z) : bool :=
  match absence_start_time s with
  | None => false
  | Some since =>
      elapsed_at_least now since (Config.ABSENCE_GRACE_PERIOD_SEC cfg)
  end.

Definition _cooldown_elapsed (cfg : Config.t) (s : t) (now : Z) : bool :=
  match cooldown_start_time s with
  | None => true
  | Some since => elapsed_at_least now since (Config.VISIT_COOLDOWN_SEC cfg)
  end.

Definition set_state (st : VisitState) (s : t) : t :=
  {| session_id := session_id s; state := st;
     current_visit := current_visit s;
     absence_start_time := absence_start_time s;
     cooldown_start_time := cooldown_start_time s;
     last_capture_time := last_capture_time s |}.

Definition set_last_capture_time (now : Z) (s : t) : t :=
  {| session_id := session_id s; state := state s;
     current_visit := current_visit s;
     absence_start_time := absence_start_time s;
     cooldown_start_time := cooldown_start_time s;
     last_capture_time := Some now |}.

Definition _start_visit (m : memory) (detections : list Detection.t)
    (rd : Reading) : outcome (option Instruction.t) * memory :=
  let s := self m in
  let v := Visit.init (session_id s) (fresh_uuid rd) (visit_clock rd) in
  let r := length (heap m) in
  let lg := StructuredLogger.set_correlation_id (logger m) (Visit.id v) in
  let lg := StructuredLogger.info lg ("Visit started: " +:+ Visit.id v) in
  (Return (Some {| Instruction.action := Action.start_visit;
                   Instruction.visit := r;
                   Instruction.capture := true;
                   Instruction.detections := Some detections |}),
   {| self := {| session_id := session_id s; state := BIRD_PRESENT;
                 current_visit := Some r;
                 absence_start_time := absence_start_time s;
                 cooldown_start_time := cooldown_start_time s;
                 last_capture_time := Some (now rd) |};
      heap := heap m ++ [v];
      logger := lg |}).

(** Reading an attribute of [self.current_visit].  [None] has no
    attributes; a reference always designates a live object, so the
    second failure is one of the model only. *)
Definition deref (m : memory) : outcome (ref * Visit.t) :=
  match current_visit (self m) with
  | None => Raise "AttributeError: 'NoneType' object has no attribute"
  | Some r =>
      match heap m !! r with
      | Some v => Return (r, v)
      | None => Raise "dangling reference"
      end
  end.

Definition _capture_photo (cfg : Config.t) (m : memory)
    (detections : list Detection.t) (rd : Reading)
    : outcome (option Instruction.t) * memory :=
  match deref m with
  | Raise e => (Raise e, m)
  | Return (r, v) =>
      if (Config.MAX_CAPTURES_PER_VISIT cfg
            <=? Z.of_nat (length (Visit.captures v)))%Z
      then (Return None, m)
      else
        (Return (Some {| Instruction.action := Action.capture;
                         Instruction.visit := r;
                         Instruction.capture := true;
                         Instruction.detections := Some detections |}),
         {| self := set_last_capture_time (now rd) (self m);
            heap := heap m; logger := logger m |})
  end.

Definition _enter_absence (m : memory) (rd : Reading) : memory :=
  let s := self m in
  {| self := {| session_id := session_id s; state := BIRD_ABSENT;
                current_visit := current_visit s;
                absence_start_time := Some (now rd);
                cooldown_start_time := cooldown_start_time s;
                last_capture_time := last_capture_time s |};
     heap := heap m;
     logger := StructuredLogger.debug (logger m)
                 "Bird absent, grace period started" |}.

Definition _resume_presence (m : memory) (rd : Reading) : memory :=
  let s := self m in
  {| self := {| session_id := session_id s; state := BIRD_PRESENT;
                current_visit := current_visit s;
                absence_start_time := None;
                cooldown_start_time := cooldown_start_time s;
                last_capture_time := last_capture_time s |};
     heap := heap m;
     logger := StructuredLogger.debug (logger m)
                 "Bird returned during grace period" |}.

(** The logged line also carries the visit's duration, formatted with one
    decimal; the model keeps the identifier only. *)
Definition _complete_visit (m : memory) (rd : Reading)
    : outcome (option Instruction.t) * memory :=
  match deref m with
  | Raise e => (Raise e, m)
  | Return (r, v) =>
      let s := self m in
      (Return (Some {| Instruction.action := Action.complete_visit;
                       Instruction.visit := r;
                       Instruction.capture := false;
                       Instruction.detections := None |}),
       {| self := {| session_id := session_id s; state := VISIT_COMPLETE;
                     current_visit := None;
                     absence_start_time := None;
                     cooldown_start_time := Some (now rd);
                     last_capture_time := last_capture_time s |};
          heap := <[r := Visit.close (now rd) v]> (heap m);
          logger := StructuredLogger.info (logger m)
                      ("Visit completed: " +:+ Visit.id v) |})
  end.

(** [self.state = VisitState.IDLE] *)
Definition become_idle (m : memory) : memory :=
  {| self := set_state IDLE (self m); heap := heap m; logger := logger m |}.

Definition process_detection (cfg : Config.t) (m : memory)
    (bird_detected : bool) (detections : list Detection.t) (rd : Reading)
    : outcome (option Instruction.t) * memory :=
  match state (self m) with
  | IDLE =>
      if bird_detected && _cooldown_elapsed cfg (self m) (now rd)
      then _start_visit m detections rd
      else (Return None, m)
  | BIRD_PRESENT =>
      if bird_detected
      then if _should_capture cfg (self m) (now rd)
           then _capture_photo cfg m detections rd
           else (Return None, m)
      else (Return None, _enter_absence m rd)
  | BIRD_ABSENT =>
      if bird_detected
      then (Return None, _resume_presence m rd)
      else if _absence_timeout_elapsed cfg (self m) (now rd)
           then _complete_visit m rd
           else (Return None, m)
  | VISIT_COMPLETE =>
      if _cooldown_elapsed cfg (self m) (now rd)
      then
        let m' := become_idle m in
        if bird_detected
        then _start_visit m' detections rd
        else (Return None, m')
      else (Return None, m)
  end.

(** [VisitState.value] *)
Definition state_value (st : VisitState) : string :=
  match st with
  | IDLE => "idle"
  | BIRD_PRESENT => "bird_present"
  | BIRD_ABSENT => "bird_absent"
  | VISIT_COMPLETE => "visit_complete"
  end.

(** [get_state_info]: the state's name, the open visit's identifier and
    its number of captures. *)
Definition get_state_info (m : memory) : string * option string * nat :=
  let open := match current_visit (self m) with
              | Some r => heap m !! r
              | None => None
              end in
  (state_value (state (self m)),
   option_map Visit.id open,
   match open with Some v => length (Visit.captures v) | None => 0%nat end).

(** One call of [process_detection] with what it is given and what it
    reads. *)
Record input := mk_input {
  bird_detected : bool;
  detections : list Detection.t;
  read : Reading
}.

(** The transition function applied to a sequence of inputs, one after the
    other, by a caller that does nothing with the instructions (and goes
    on after an exception, as the detection loop does). *)
Fixpoint feed (cfg : Config.t) (m : memory) (inputs : list input) : memory :=
  match inputs with
  | [] => m
  | i :: inputs =>
      feed cfg
        (snd (process_detection cfg m (bird_detected i) (detections i)
                (read i)))
        inputs
  end.
End VisitStateMachine.

(** ** The database behind the [supabase] client *)

Module VisitRow.
(** A row of table [visits]: the columns [Visit.to_dict] fills and the
    [updated_at] column the analyzer stamps. *)
Record t := mk {
  id : string;
  session_id : string;
  start_time : Z;
  end_time : option Z;
  duration_seconds : option Z;
  status : string;
  species : option string;
  species_confidence : option string;
  summary : option string;
  bird_count : Z;
  updated_at : option Z
}.
End VisitRow.

Module StatsRow.
Record t := mk {
  species : string;
  total_visits : Z;
  first_seen : option Z;
  last_seen : Z;
  updated_at : Z
}.
End StatsRow.

(** The requests the modelled code sends; any of them may raise. *)
Inductive request : Type :=
| InsertVisit
| UpdateVisit
| InsertCapture
| SelectCaptures
| UploadImage
| SelectStats
| UpdateStats
| InsertStats.

Module Supabase.
(** Tables are lists of rows in insertion order; a [select] returns the
    matching rows in that order. *)
Record t := mk {
  visits : list VisitRow.t;
  captures : list Capture.t;
  species_stats : list StatsRow.t
}.

Definition empty : t := {| visits := []; captures := []; species_stats := [] |}.

Definition with_visits (vs : list VisitRow.t) (db : t) : t :=
  {| visits := vs; captures := captures db; species_stats := species_stats db |}.
Definition with_captures (cs : list Capture.t) (db : t) : t :=
  {| visits := visits db; captures := cs; species_stats := species_stats db |}.
Definition with_species_stats (ss : list StatsRow.t) (db : t) : t :=
  {| visits := visits db; captures := captures db; species_stats := ss |}.

(** [table('visits').update(...).eq('id', vid)] *)
Definition update_visits (f : VisitRow.t -> VisitRow.t) (vid : string) (db : t) : t :=
  with_visits
    (map (fun row => if String.eqb (VisitRow.id row) vid then f row else row)
         (visits db)) db.

(** [table('captures').select('*').eq('visit_id', vid)] *)
Definition select_captures (vid : string) (db : t) : list Capture.t :=
  filter (fun c => Capture.visit_id c = vid) (captures db).

(** [table('visits').select(...).eq('id', vid)] *)
Definition select_visit (vid : string) (db : t) : list VisitRow.t :=
  filter (fun row => VisitRow.id row = vid) (visits db).
End Supabase.

(** ** backend/bird_detector.py: the detection loop *)

Module BirdDetector.
Import VisitStateMachine.

Record t := mk {
  session_id : string;
  supabase : Supabase.t;
  machine : memory;
  running : bool;
  consecutive_failures : Z;
  last_detection_time : Q
}.

(** The detector once [initialize] has succeeded and [run] has set
    [running]. *)
Definition started (session_id : string) : t :=
  {| session_id := session_id; supabase := Supabase.empty;
     machine := initial_memory session_id; running := true;
     consecutive_failures := 0; last_detection_time := 0 |}.

(** The same over a database that already holds rows, those of earlier
    sessions. *)
Definition started_over (session_id : string) (db : Supabase.t) : t :=
  {| session_id := session_id; supabase := db;
     machine := initial_memory session_id; running := true;
     consecutive_failures := 0; last_detection_time := 0 |}.

(** What one iteration of the loop of [run] reads from outside. *)
Record Tick := mk_tick {
  interrupt : bool;
    (** [KeyboardInterrupt] arrives as the iteration begins *)
  time_ms : Q;
    (** [time.time() * 1000] *)
  frame_read : bool;
    (** [ret] of [self.cap.read()] *)
  reconnect : bool;
    (** what [_connect_camera] returns if it is called *)
  adapter : outcome (list Detection.t);
    (** the bird boxes [_detect_birds] keeps from the model's answer on
        the frame (class and area-ratio filter applied), or the exception
        the model or the filter raises *)
  reading : Reading;
  capture_uuid : string;
  capture_clock : Z;
  encode_ok : bool;
    (** [cv2.imencode] returns *)
  fault : request -> bool
    (** the requests that raise during this iteration *)
}.

Definition with_machine (m : memory) (d : t) : t :=
  {| session_id := session_id d; supabase := supabase d; machine := m;
     running := running d; consecutive_failures := consecutive_failures d;
     last_detection_time := last_detection_time d |}.

Definition with_supabase (db : Supabase.t) (d : t) : t :=
  {| session_id := session_id d; supabase := db; machine := machine d;
     running := running d; consecutive_failures := consecutive_failures d;
     last_detection_time := last_detection_time d |}.

Definition with_logger (lg : StructuredLogger.t) (d : t) : t :=
  with_machine {| self := self (machine d); heap := heap (machine d);
                  logger := lg |} d.

Definition with_heap (h : list Visit.t) (d : t) : t :=
  with_machine {| self := self (machine d); heap := h;
                  logger := logger (machine d) |} d.

Definition logging (f : StructuredLogger.t -> string -> StructuredLogger.t)
    (msg : string) (d : t) : t :=
  with_logger (f (logger (machine d)) msg) d.

(** [_detect_birds].  The function crops the frame, calls the model and
    keeps the boxes of the bird class whose area ratio reaches the minimum;
    all of it is arithmetic on the model's floating-point tensors and is
    taken from the tick as [adapter].  What remains is that the function
    has no handler of its own, so an exception leaves it, and that it
    returns [len(detections) > 0] with the list. *)
Definition _detect_birds (tk : Tick) : outcome (bool * list Detection.t) :=
  match adapter tk with
  | Raise e => Raise e
  | Return ds => Return (negb (Nat.eqb (length ds) 0), ds)
  end.

(** [Visit.to_dict]; [int(...)] truncates towards zero. *)
Definition to_dict (v : Visit.t) : VisitRow.t :=
  {| VisitRow.id := Visit.id v;
     VisitRow.session_id := Visit.session_id v;
     VisitRow.start_time := Visit.start_time v;
     VisitRow.end_time := Visit.end_time v;
     VisitRow.duration_seconds :=
       match Visit.end_time v with
       | Some e => Some (Z.quot (e - Visit.start_time v) 1000000)
       | None => None
       end;
     VisitRow.status := Visit.status v;
     VisitRow.species := Visit.species v;
     VisitRow.species_confidence := Visit.species_confidence v;
     VisitRow.summary := Visit.summary v;
     VisitRow.bird_count := Visit.bird_count v;
     VisitRow.updated_at := None |}.

(** The columns of [visit_data] written over an existing row. *)
Definition overwrite (data row : VisitRow.t) : VisitRow.t :=
  {| VisitRow.id := VisitRow.id data;
     VisitRow.session_id := VisitRow.session_id data;
     VisitRow.start_time := VisitRow.start_time data;
     VisitRow.end_time := VisitRow.end_time data;
     VisitRow.duration_seconds := VisitRow.duration_seconds data;
     VisitRow.status := VisitRow.status data;
     VisitRow.species := VisitRow.species data;
     VisitRow.species_confidence := VisitRow.species_confidence data;
     VisitRow.summary := VisitRow.summary data;
     VisitRow.bird_count := VisitRow.bird_count data;
     VisitRow.updated_at := VisitRow.updated_at row |}.

Definition _create_visit_in_db (d : t) (tk : Tick) (r : ref) : t :=
  match heap (machine d) !! r with
  | None => logging StructuredLogger.error
              "Failed to create visit in database: dangling reference" d
  | Some v =>
      if fault tk InsertVisit
      then logging StructuredLogger.error
             "Failed to create visit in database: request failed" d
      else
        let db := supabase d in
        logging StructuredLogger.info
          ("Created visit in database: " +:+ Visit.id v)
          (with_supabase
             (Supabase.with_visits (Supabase.visits db ++ [to_dict v]) db) d)
  end.

(** The logged progress line carries the two counts; the model keeps the
    identifier. *)
Definition _capture_and_store (cfg : Config.t) (d : t) (tk : Tick) (r : ref)
    (detections : list Detection.t) : t :=
  match heap (machine d) !! r with
  | None => logging StructuredLogger.error
              "Failed to capture and store image: dangling reference" d
  | Some v =>
      if negb (encode_ok tk)
      then logging StructuredLogger.error
             "Failed to capture and store image: encoding failed" d
      else
        let filename := Visit.id v +:+ "/" +:+ capture_uuid tk +:+ ".jpg" in
        let '(image_url, d) :=
          if fault tk UploadImage
          then ("local://" +:+ filename,
                logging StructuredLogger.warning
                  "Storage upload failed, using local fallback" d)
          else (Config.SUPABASE_URL cfg +:+ "/storage/v1/object/public/"
                  +:+ Config.STORAGE_BUCKET cfg +:+ "/" +:+ filename, d) in
        let capture_data :=
          {| Capture.id := capture_uuid tk;
             Capture.visit_id := Visit.id v;
             Capture.timestamp := capture_clock tk;
             Capture.image_url := image_url;
             Capture.detections := detections;
             Capture.is_best_capture :=
               Nat.eqb (length (Visit.captures v)) 0 |} in
        if fault tk InsertCapture
        then logging StructuredLogger.error
               "Failed to capture and store image: request failed" d
        else
          let db := supabase d in
          let d := with_supabase
                     (Supabase.with_captures
                        (Supabase.captures db ++ [capture_data]) db) d in
          let d := with_heap
                     (<[r := Visit.append_capture capture_data v]>
                        (heap (machine d))) d in
          logging StructuredLogger.info
            ("Captured photo for visit " +:+ Visit.id v) d
  end.

Definition _finalize_visit (d : t) (tk : Tick) (r : ref) : t :=
  match heap (machine d) !! r with
  | None => logging StructuredLogger.error
              "Failed to finalize visit: dangling reference" d
  | Some v =>
      if fault tk UpdateVisit
      then logging StructuredLogger.error
             "Failed to finalize visit: request failed" d
      else
        logging StructuredLogger.info ("Finalized visit: " +:+ Visit.id v)
          (with_supabase
             (Supabase.update_visits (overwrite (to_dict v)) (Visit.id v)
                (supabase d)) d)
  end.

(** [result['detections']] raises [KeyError] on a dict without the key;
    it is only read when [result.get('capture')] is true. *)
Definition _handle_state_action (cfg : Config.t) (d : t) (tk : Tick)
    (result : Instruction.t) : outcome unit * t :=
  let action := Instruction.action result in
  let visit := Instruction.visit result in
  let d := if decide (action = Action.start_visit)
           then _create_visit_in_db d tk visit else d in
  let step :=
    if Instruction.capture result
    then match Instruction.detections result with
         | Some ds => (Return tt, _capture_and_store cfg d tk visit ds)
         | None => (Raise "KeyError: 'detections'", d)
         end
    else (Return tt, d) in
  match step with
  | (Raise e, d) => (Raise e, d)
  | (Return _, d) =>
      (Return tt,
       if decide (action = Action.complete_visit)
       then _finalize_visit d tk visit else d)
  end.

(** How an iteration of [while self.running] ends. *)
Inductive flow : Type :=
| Continue (d : t)
| Break (d : t).

Definition after (fl : flow) : t :=
  match fl with Continue d | Break d => d end.

(** [except Exception as e] of [run]: log and sleep one second. *)
Definition on_exception (e : string) (d : t) : flow :=
  Continue (logging StructuredLogger.error
              ("Error in detection loop: " +:+ e) d).

(** A failed frame read.  [_connect_camera] is summarised by its result;
    on success it resets the failure counter. *)
Definition on_read_failure (d : t) (tk : Tick) : flow :=
  let d := {| session_id := session_id d; supabase := supabase d;
              machine := machine d; running := running d;
              consecutive_failures := consecutive_failures d + 1;
              last_detection_time := last_detection_time d |} in
  let d := logging StructuredLogger.warning "Frame read failed" d in
  if (10 <=? consecutive_failures d)%Z
  then
    let d := logging StructuredLogger.error
               "Too many consecutive failures, reconnecting..." d in
    if reconnect tk
    then Continue
           (logging StructuredLogger.info "Camera connected successfully"
              {| session_id := session_id d; supabase := supabase d;
                 machine := machine d; running := running d;
                 consecutive_failures := 0;
                 last_detection_time := last_detection_time d |})
    else Continue (logging StructuredLogger.critical
                     "Failed to reconnect to camera" d)
  else Continue d.

(** One iteration of the loop of [run], paired with what
    [process_detection] returned in it ([None] also when the call was not
    reached); the pairing is the model's, for stating what the engine
    emitted on a tick. *)
Definition observe (cfg : Config.t) (d : t) (tk : Tick)
    : option Instruction.t * flow :=
  if interrupt tk
  then (None, Break (logging StructuredLogger.info "Shutting down..." d))
  else if Qle_bool (inject_Z (Config.DETECTION_INTERVAL_MS cfg))
                   (time_ms tk - last_detection_time d)
  then
    if negb (frame_read tk) then (None, on_read_failure d tk)
    else
      let d := {| session_id := session_id d; supabase := supabase d;
                  machine := machine d; running := running d;
                  consecutive_failures := 0;
                  last_detection_time := time_ms tk |} in
      match _detect_birds tk with
      | Raise e => (None, on_exception e d)
      | Return (bird_detected, detections) =>
          match process_detection cfg (machine d) bird_detected detections
                  (reading tk) with
          | (Raise e, m) => (None, on_exception e (with_machine m d))
          | (Return None, m) => (None, Continue (with_machine m d))
          | (Return (Some result), m) =>
              (Some result,
               match _handle_state_action cfg (with_machine m d) tk result with
               | (Raise e, d) => on_exception e d
               | (Return _, d) => Continue d
               end)
          end
      end
  else (None, Continue d).

Definition iteration (cfg : Config.t) (d : t) (tk : Tick) : flow :=
  snd (observe cfg d tk).

(** [cleanup], reached when the loop is left.  The rows [update_health]
    writes to table [system_health], here and on a reconnection, are not
    modelled. *)
Definition cleanup (d : t) : t :=
  logging StructuredLogger.info "Detector cleaned up"
    {| session_id := session_id d; supabase := supabase d;
       machine := machine d; running := false;
       consecutive_failures := consecutive_failures d;
       last_detection_time := last_detection_time d |}.

(** [run] over the iterations the given readings allow: the loop goes on
    while [self.running] and stops at a [break]. *)
Fixpoint run (cfg : Config.t) (d : t) (ticks : list Tick) : t :=
  match ticks with
  | [] => d
  | tk :: ticks =>
      if running d
      then match iteration cfg d tk with
           | Continue d => run cfg d ticks
           | Break d => cleanup d
           end
      else d
  end.

(** The instructions the engine emitted along [run], each with the time
    its tick read from the clock. *)
Fixpoint trace (cfg : Config.t) (d : t) (ticks : list Tick)
    : list (Z * option Instruction.t) :=
  match ticks with
  | [] => []
  | tk :: ticks =>
      if running d
      then (now (reading tk), fst (observe cfg d tk))
             :: match iteration cfg d tk with
                | Continue d => trace cfg d ticks
                | Break _ => []
                end
      else []
  end.

(** The times at which an instruction satisfying [p] was emitted. *)
Definition times (p : Instruction.t -> bool)
    (tr : list (Z * option Instruction.t)) : list Z :=
  omap (fun '(t, o) => match o with
                       | Some ins => if p ins then Some t else None
                       | None => None
                       end) tr.
End BirdDetector.

(** ** backend/species_analyzer.py: the analysis worker *)

Module Answer.
(** What [_identify_species] returns. *)
Record t := mk {
  species : string;
  confidence : option string;
  summary : string;
  bird_count : Z
}.
End Answer.

Module SpeciesAnalyzer.

Record t := mk {
  supabase : Supabase.t;
  logger : StructuredLogger.t;
  openai_client : option string;
    (** the client, holding its API key, or [None] *)
  requests_sent : nat;
    (** calls of [chat.completions.create] made so far *)
  slept : list Z
    (** the arguments of [time.sleep], oldest first *)
}.

(** What the analysis of one visit reads from outside. *)
Record Task := mk_task {
  clock : Z;
  fault : request -> bool;
    (** the requests to the database that raise during the task *)
  classifier : Z -> outcome Answer.t
    (** for each value of [attempt], what the request to the model and the
        reading of its reply (the rest of the [try] body of
        [_identify_species]) come to: the four values read from the
        parsed reply, or the exception raised on the way *)
}.

Definition with_supabase (db : Supabase.t) (a : t) : t :=
  {| supabase := db; logger := logger a; openai_client := openai_client a;
     requests_sent := requests_sent a; slept := slept a |}.

Definition logging (f : StructuredLogger.t -> string -> StructuredLogger.t)
    (msg : string) (a : t) : t :=
  {| supabase := supabase a; logger := f (logger a) msg;
     openai_client := openai_client a;
     requests_sent := requests_sent a; slept := slept a |}.

Definition set_correlation_id (cid : string) (a : t) : t :=
  {| supabase := supabase a;
     logger := StructuredLogger.set_correlation_id (logger a) cid;
     openai_client := openai_client a;
     requests_sent := requests_sent a; slept := slept a |}.

Definition sending (a : t) : t :=
  {| supabase := supabase a; logger := logger a;
     openai_client := openai_client a;
     requests_sent := S (requests_sent a); slept := slept a |}.

Definition sleeping (delay : Z) (a : t) : t :=
  {| supabase := supabase a; logger := logger a;
     openai_client := openai_client a;
     requests_sent := requests_sent a; slept := slept a ++ [delay] |}.

(** [__init__]: a client only for a non-empty key. *)
Definition init (cfg : Config.t) (db : Supabase.t) : t :=
  let client := if String.eqb (Config.OPENAI_API_KEY cfg) ""%string
                then None else Some (Config.OPENAI_API_KEY cfg) in
  let a := {| supabase := db; logger := StructuredLogger.create "analyzer";
              openai_client := client; requests_sent := 0; slept := [] |} in
  match client with
  | None => logging StructuredLogger.warning
              "OpenAI API key not configured, species identification disabled" a
  | Some _ => a
  end.

(** *** [_select_best_capture] *)

(** [max(a, b)] of Python: [a] unless [b > a]. *)
Definition py_max (a b : Float.t) : Float.t := if Float.ltb a b then b else a.

(** One turn of the inner loop, on the pair [(total_area, max_confidence)].
    The area is an int.  The [0] that [max_confidence] starts from and the
    [0] a missing confidence reads as are ints too; they compare with a
    float as [0.0] does. *)
Definition measure_step (acc : Z * Float.t) (d : Detection.t) : Z * Float.t :=
  match Detection.bbox d with
  | [x1; y1; x2; y2] =>
      ((fst acc + (x2 - x1) * (y2 - y1))%Z,
       py_max (snd acc) (default Float.zero (Detection.confidence d)))
  | _ => acc
  end.

Definition measure (c : Capture.t) : Z * Float.t :=
  fold_left measure_step (Capture.detections c) (0%Z, Float.zero).

(** [score = total_area * max_confidence]: the int is converted to a float
    and the product is rounded.  (While [max_confidence] is still the int
    [0] the product is the int [0], which compares as the float product
    does.) *)
Definition score (c : Capture.t) : Float.t :=
  Float.mul (Float.of_int (fst (measure c))) (snd (measure c)).

(** One turn of the outer loop, on the pair [(best_capture, best_score)]. *)
Definition select_step (acc : option Capture.t * Float.t) (c : Capture.t)
    : option Capture.t * Float.t :=
  if Float.ltb (snd acc) (score c) then (Some c, score c) else acc.

(** [best_capture or captures[0]]; a capture dict is never empty, so it is
    falsy only when it is [None]. *)
Definition _select_best_capture (captures : list Capture.t)
    : outcome Capture.t :=
  match fst (fold_left select_step captures (None, Float.zero)) with
  | Some best => Return best
  | None =>
      match captures with
      | first :: _ => Return first
      | [] => Raise "IndexError: list index out of range"
      end
  end.

(** *** Writing the result back *)

Definition completed_row (clock : Z) (ans : Answer.t) (row : VisitRow.t)
    : VisitRow.t :=
  {| VisitRow.id := VisitRow.id row;
     VisitRow.session_id := VisitRow.session_id row;
     VisitRow.start_time := VisitRow.start_time row;
     VisitRow.end_time := VisitRow.end_time row;
     VisitRow.duration_seconds := VisitRow.duration_seconds row;
     VisitRow.status := "completed";
     VisitRow.species := Some (Answer.species ans);
     VisitRow.species_confidence := Answer.confidence ans;
     VisitRow.summary := Some (Answer.summary ans);
     VisitRow.bird_count := Answer.bird_count ans;
     VisitRow.updated_at := Some clock |}.

Definition failed_row (clock : Z) (error_message : string) (row : VisitRow.t)
    : VisitRow.t :=
  {| VisitRow.id := VisitRow.id row;
     VisitRow.session_id := VisitRow.session_id row;
     VisitRow.start_time := VisitRow.start_time row;
     VisitRow.end_time := VisitRow.end_time row;
     VisitRow.duration_seconds := VisitRow.duration_seconds row;
     VisitRow.status := "failed";
     VisitRow.species := Some "unknown"%string;
     VisitRow.species_confidence := VisitRow.species_confidence row;
     VisitRow.summary := Some ("Analysis failed: " +:+ error_message);
     VisitRow.bird_count := VisitRow.bird_count row;
     VisitRow.updated_at := Some clock |}.

Definition seen_again (clock total : Z) (row : StatsRow.t) : StatsRow.t :=
  {| StatsRow.species := StatsRow.species row;
     StatsRow.total_visits := total;
     StatsRow.first_seen := StatsRow.first_seen row;
     StatsRow.last_seen := clock;
     StatsRow.updated_at := clock |}.

Definition _update_species_stats (tk : Task) (species : string) (a : t) : t :=
  if String.eqb species ""%string || String.eqb species "unknown"%string
  then a
  else if fault tk SelectStats
  then logging StructuredLogger.error
         "Failed to update species stats: request failed" a
  else
    let db := supabase a in
    let stats := Supabase.species_stats db in
    match filter (fun row => StatsRow.species row = species) stats with
    | current :: _ =>
        if fault tk UpdateStats
        then logging StructuredLogger.error
               "Failed to update species stats: request failed" a
        else with_supabase
               (Supabase.with_species_stats
                  (map (fun row =>
                          if String.eqb (StatsRow.species row) species
                          then seen_again (clock tk)
                                 (StatsRow.total_visits current + 1) row
                          else row) stats) db) a
    | [] =>
        if fault tk InsertStats
        then logging StructuredLogger.error
               "Failed to update species stats: request failed" a
        else with_supabase
               (Supabase.with_species_stats
                  (stats ++ [ {| StatsRow.species := species;
                                 StatsRow.total_visits := 1;
                                 StatsRow.first_seen := Some (clock tk);
                                 StatsRow.last_seen := clock tk;
                                 StatsRow.updated_at := clock tk |} ]) db) a
    end.

Definition _mark_visit_completed (tk : Task) (visit_id : string)
    (ans : Answer.t) (a : t) : t :=
  if fault tk UpdateVisit
  then logging StructuredLogger.error
         "Failed to update visit status: request failed" a
  else
    _update_species_stats tk (Answer.species ans)
      (with_supabase
         (Supabase.update_visits (completed_row (clock tk) ans) visit_id
            (supabase a)) a).

Definition _mark_visit_failed (tk : Task) (visit_id error_message : string)
    (a : t) : t :=
  if fault tk UpdateVisit
  then logging StructuredLogger.error
         "Failed to mark visit as failed: request failed" a
  else with_supabase
         (Supabase.update_visits (failed_row (clock tk) error_message)
            visit_id (supabase a)) a.

(** *** [_identify_species] *)

Definition placeholder : Answer.t :=
  {| Answer.species := "unknown"; Answer.confidence := Some "low"%string;
     Answer.summary := "Image not accessible for analysis";
     Answer.bird_count := 1 |}.

Definition gave_up (e : string) : Answer.t :=
  {| Answer.species := "unknown"; Answer.confidence := Some "low"%string;
     Answer.summary := "Analysis failed: " +:+ e;
     Answer.bird_count := 1 |}.

Definition out_of_loop : Answer.t :=
  {| Answer.species := "unknown"; Answer.confidence := Some "low"%string;
     Answer.summary := "Analysis failed after all retries";
     Answer.bird_count := 1 |}.

Definition no_retry_delay : string :=
  "type object 'Config' has no attribute 'OPENAI_RETRY_DELAY_SEC'".

(** The [for attempt in range(OPENAI_MAX_RETRIES)] loop from [attempt] on,
    with [remaining] turns left.  The numbers the log lines interpolate
    are left out of the messages. *)
Fixpoint attempts (cfg : Config.t) (tk : Task) (image_url : string)
    (remaining : nat) (attempt : Z) (a : t) : outcome Answer.t * t :=
  match remaining with
  | O => (Return out_of_loop, a)
  | S remaining =>
      let a := logging StructuredLogger.debug "Calling OpenAI API" a in
      if String.prefix "http" image_url
      then
        let a := sending a in
        match classifier tk attempt with
        | Return ans => (Return ans, a)
        | Raise e =>
            let a := logging StructuredLogger.warning
                       ("OpenAI API attempt failed: " +:+ e) a in
            if (attempt <? Config.OPENAI_MAX_RETRIES cfg - 1)%Z
            then
              match Config.OPENAI_RETRY_DELAY_SEC cfg with
              | None => (Raise no_retry_delay, a)
              | Some base =>
                  let delay := (base * 2 ^ attempt)%Z in
                  let a := logging StructuredLogger.info "Retrying..." a in
                  if (delay <? 0)%Z
                  then (Raise "sleep length must be non-negative", a)
                  else attempts cfg tk image_url remaining (attempt + 1)%Z
                         (sleeping delay a)
              end
            else
              (Return (gave_up e),
               logging StructuredLogger.error "All OpenAI API attempts failed" a)
        end
      else
        (Return placeholder,
         logging StructuredLogger.warning
           "Local image URLs not yet supported, using placeholder" a)
  end.

Definition _identify_species (cfg : Config.t) (tk : Task)
    (capture : Capture.t) (a : t) : outcome Answer.t * t :=
  attempts cfg tk (Capture.image_url capture)
    (Z.to_nat (Config.OPENAI_MAX_RETRIES cfg)) 0%Z a.

(** *** [analyze_visit] *)

Definition not_configured : Answer.t :=
  {| Answer.species := "unknown"; Answer.confidence := None;
     Answer.summary := "OpenAI API not configured";
     Answer.bird_count := 1 |}.

Definition no_captures : Answer.t :=
  {| Answer.species := "unknown"; Answer.confidence := None;
     Answer.summary := "No captures available";
     Answer.bird_count := 1 |}.

(** [except Exception as e] of [analyze_visit] *)
Definition on_exception (tk : Task) (visit_id e : string) (a : t) : t :=
  _mark_visit_failed tk visit_id e
    (logging StructuredLogger.error
       ("Failed to analyze visit " +:+ visit_id +:+ ": " +:+ e) a).

Definition analyze_visit (cfg : Config.t) (tk : Task) (visit_id : string)
    (a : t) : t :=
  match openai_client a with
  | None =>
      _mark_visit_completed tk visit_id not_configured
        (logging StructuredLogger.info
           ("Skipping analysis for visit " +:+ visit_id
              +:+ " (OpenAI not configured)") a)
  | Some _ =>
      let a := logging StructuredLogger.info
                 ("Starting analysis for visit " +:+ visit_id) a in
      let a := set_correlation_id visit_id a in
      if fault tk SelectCaptures
      then on_exception tk visit_id "request failed" a
      else
        match Supabase.select_captures visit_id (supabase a) with
        | [] =>
            _mark_visit_completed tk visit_id no_captures
              (logging StructuredLogger.warning
                 ("No captures found for visit " +:+ visit_id) a)
        | data =>
            match _select_best_capture data with
            | Raise e => on_exception tk visit_id e a
            | Return best_capture =>
                match _identify_species cfg tk best_capture a with
                | (Raise e, a) => on_exception tk visit_id e a
                | (Return ans, a) =>
                    logging StructuredLogger.info
                      ("Analysis complete for visit " +:+ visit_id)
                      (_mark_visit_completed tk visit_id ans a)
                end
            end
        end
  end.
End SpeciesAnalyzer.

(** ** Concrete runs used by the scenarios of the specification *)

Module Scenario.
Import BirdDetector.

Definition sec (t : Z) : Z := (t * 1000000)%Z.

(** A bird filling a 200 by 100 box, seen with confidence 0.9. *)
Definition bird : Detection.t :=
  {| Detection.bbox := [480; 400; 680; 500]%Z;
     Detection.confidence := Some (Float.ratio 9 10);
     Detection.class_id := 14; Detection.area_ratio := (1 # 20)%Q |}.

(** The tick of second [t]: the frame is read, the adapter answers, every
    request succeeds; [detected] says whether the adapter saw the bird.
    The loop's own clock is taken one second ahead so that the first tick
    is past the detection interval. *)
Definition tick (detected : bool) (t : Z) : Tick :=
  {| interrupt := false;
     time_ms := inject_Z (1000 * (t + 1));
     frame_read := true;
     reconnect := true;
     adapter := Return (if detected then [bird] else []);
     reading := {| now := sec t; fresh_uuid := "visit"; visit_clock := sec t |};
     capture_uuid := "capture";
     capture_clock := sec t;
     encode_ok := true;
     fault := fun _ => false |}.

(** The same second with an adapter that raises. *)
Definition broken_tick (t : Z) : Tick :=
  {| interrupt := false;
     time_ms := inject_Z (1000 * (t + 1));
     frame_read := true;
     reconnect := true;
     adapter := Raise "inference failed";
     reading := {| now := sec t; fresh_uuid := "visit"; visit_clock := sec t |};
     capture_uuid := "capture";
     capture_clock := sec t;
     encode_ok := true;
     fault := fun _ => false |}.

Definition cfg : Config.t := Config.defaults "https://db.example" "".

(** The same settings with [MAX_CAPTURES_PER_VISIT=0] in the environment. *)
Definition cfg_no_captures : Config.t :=
  {| Config.DETECTION_INTERVAL_MS := 500;
     Config.ABSENCE_GRACE_PERIOD_SEC := 5;
     Config.VISIT_COOLDOWN_SEC := 15;
     Config.MAX_CAPTURES_PER_VISIT := 0;
     Config.CAPTURE_INTERVAL_SEC := 3;
     Config.OPENAI_API_KEY := "";
     Config.OPENAI_MAX_RETRIES := 3;
     Config.OPENAI_RETRY_DELAY_SEC := None;
     Config.SUPABASE_URL := "https://db.example";
     Config.STORAGE_BUCKET := "bird-captures" |}.

Definition feeder : BirdDetector.t := started "feeder".

(** Scenario A over its first [n] seconds: the bird is seen at
    [t = 0 .. 10] and not from [t = 11] on. *)
Definition scenario_A (n : nat) : list Tick :=
  map (fun t => tick (t <=? 10)%Z t) (seqZ 0 (Z.of_nat n)).

(** The bird stays: it is seen at every second [t = 0 .. n - 1]. *)
Definition long_stay (n : nat) : list Tick :=
  map (tick true) (seqZ 0 (Z.of_nat n)).

(** Scenario B: seen at [t = 0], not at [t = 1, 2, 3], seen again at
    [t = 4]. *)
Definition scenario_B : list Tick :=
  [tick true 0; tick false 1; tick false 2; tick false 3; tick true 4]%Z.

Definition is_action (a : Action.t) (ins : Instruction.t) : bool :=
  bool_decide (Instruction.action ins = a).

(** The engine's memory after the first four ticks of scenario B (the
    bird has been away for three seconds) and after the first seventeen
    of scenario A (the visit has just been completed), evaluated. *)
Definition absent_memory : VisitStateMachine.memory :=
  Eval vm_compute in machine (run cfg feeder (take 4 scenario_B)).

Definition complete_memory : VisitStateMachine.memory :=
  Eval vm_compute in machine (run cfg feeder (scenario_A 17)).

(** The database scenario A leaves behind: one visit, ["analyzing"], and
    its four captures. *)
Definition database_A : Supabase.t :=
  Eval vm_compute in supabase (run cfg feeder (scenario_A 17)).

(** Settings with an API key; [retries] is [OPENAI_MAX_RETRIES] and
    [delay] what reading [OPENAI_RETRY_DELAY_SEC] yields. *)
Definition cfg_keyed (retries : Z) (delay : option Z) : Config.t :=
  {| Config.DETECTION_INTERVAL_MS := 500;
     Config.ABSENCE_GRACE_PERIOD_SEC := 5;
     Config.VISIT_COOLDOWN_SEC := 15;
     Config.MAX_CAPTURES_PER_VISIT := 5;
     Config.CAPTURE_INTERVAL_SEC := 3;
     Config.OPENAI_API_KEY := "sk-test";
     Config.OPENAI_MAX_RETRIES := retries;
     Config.OPENAI_RETRY_DELAY_SEC := delay;
     Config.SUPABASE_URL := "https://db.example";
     Config.STORAGE_BUCKET := "bird-captures" |}.

(** A task during which every request to the database succeeds and every
    call of the classifier raises. *)
Definition failing_task : SpeciesAnalyzer.Task :=
  {| SpeciesAnalyzer.clock := sec 60;
     SpeciesAnalyzer.fault := fun _ => false;
     SpeciesAnalyzer.classifier := fun _ => Raise "timed out" |}.

(** Captures scoring 0, 18000, 18000 and 4500. *)
Definition box (x1 y1 x2 y2 : Z) (conf : Float.t) : Detection.t :=
  {| Detection.bbox := [x1; y1; x2; y2]; Detection.confidence := Some conf;
     Detection.class_id := 14; Detection.area_ratio := (1 # 20)%Q |}.

Definition shot (name : string) (ds : list Detection.t) : Capture.t :=
  {| Capture.id := name; Capture.visit_id := "visit"; Capture.timestamp := 0;
     Capture.image_url := "https://db.example/" +:+ name;
     Capture.detections := ds; Capture.is_best_capture := false |}.

Definition four_shots : list Capture.t :=
  [shot "empty" [];
   shot "large" [box 0 0 200 100 (Float.ratio 9 10)];
   shot "twin" [box 0 0 100 100 (Float.ratio 9 10);
                box 300 0 400 100 (Float.ratio 1 2)];
   shot "small" [box 0 0 100 50 (Float.ratio 9 10)]]%Z.

(** Two captures whose boxes have their corners the wrong way round:
    areas -100 and -1, scores -90 and -0.9. *)
Definition reversed_shots : list Capture.t :=
  [shot "wide" [box 10 0 0 10 (Float.ratio 9 10)];
   shot "narrow" [box 1 0 0 1 (Float.ratio 9 10)]]%Z.
End Scenario.


(** ** Predicates the properties are stated with *)

Module Invariant.
Import VisitStateMachine.

(** What a well-formed engine memory looks like.  The bound on captures
    is [max 1 MAX_CAPTURES_PER_VISIT]: the capture that comes with
    start-visit is not gated by the setting. *)
Record wf (cfg : Config.t) (m : memory) : Prop := mk_wf {
  wf_closed :
    state (self m) = IDLE \/ state (self m) = VISIT_COMPLETE ->
    current_visit (self m) = None;
  wf_open :
    state (self m) = BIRD_PRESENT \/ state (self m) = BIRD_ABSENT ->
    exists r v, current_visit (self m) = Some r /\ heap m !! r = Some v
                /\ Visit.status v = "active"%string;
  wf_unique :
    forall r v, heap m !! r = Some v -> Visit.status v = "active"%string ->
                current_visit (self m) = Some r;
  wf_status :
    forall r v, heap m !! r = Some v ->
                Visit.status v = "active"%string
                \/ Visit.status v = "analyzing"%string;
  wf_bound :
    forall r v, heap m !! r = Some v ->
      (Z.of_nat (length (Visit.captures v))
         <= Z.max 1 (Config.MAX_CAPTURES_PER_VISIT cfg))%Z
}.

(** What the engine guarantees about an instruction it has just
    returned, from memory [m] to memory [m']. *)
Definition issued (cfg : Config.t) (m m' : memory) (ins : Instruction.t)
    : Prop :=
  match Instruction.action ins with
  | Action.start_visit =>
      current_visit (self m) = None
      /\ Instruction.capture ins = true
      /\ is_Some (Instruction.detections ins)
      /\ exists v, heap m' !! Instruction.visit ins = Some v
                   /\ Visit.captures v = []
  | Action.capture =>
      Instruction.capture ins = true
      /\ is_Some (Instruction.detections ins)
      /\ exists v, heap m' !! Instruction.visit ins = Some v
           /\ (Z.of_nat (length (Visit.captures v))
                 < Config.MAX_CAPTURES_PER_VISIT cfg)%Z
  | Action.complete_visit => Instruction.capture ins = false
  end.

(** The number of [Visit] objects whose status is [st]. *)
Definition count_status (st : string) (h : list Visit.t) : nat :=
  length (filter (fun v => Visit.status v = st) h).

(** The engine holds at most one open visit: at most one [Visit] object is
    ["active"]; the current-visit slot, when it is not empty, refers to an
    active visit; every visit the slot does not refer to has been closed
    and handed over; and whatever the next input is, start-visit is only
    returned when the slot is empty. *)
Definition one_open_visit (cfg : Config.t) (m : memory) : Prop :=
  (count_status "active" (heap m) <= 1)%nat
  /\ (forall r, current_visit (self m) = Some r ->
        exists v, heap m !! r = Some v /\ Visit.status v = "active"%string)
  /\ (forall r v, heap m !! r = Some v ->
        if decide (current_visit (self m) = Some r)
        then Visit.status v = "active"%string
        else Visit.status v = "analyzing"%string)
  /\ (forall b ds rd ins m',
        process_detection cfg m b ds rd = (Return (Some ins), m') ->
        Instruction.action ins = Action.start_visit ->
        current_visit (self m) = None).

(** A state with a visit under way has the visit: in [BIRD_PRESENT] and
    [BIRD_ABSENT] the slot refers to a [Visit] object, so the two functions
    that read the slot's visit unguarded do not raise; and the transition
    function raises on no input. *)
Definition visit_at_hand (cfg : Config.t) (m : memory) : Prop :=
  (state (self m) = BIRD_PRESENT \/ state (self m) = BIRD_ABSENT ->
     exists r v, current_visit (self m) = Some r /\ heap m !! r = Some v
       /\ (forall ds rd, is_raise (fst (_capture_photo cfg m ds rd)) = false)
       /\ (forall rd, is_raise (fst (_complete_visit m rd)) = false))
  /\ (forall b ds rd, is_raise (fst (process_detection cfg m b ds rd)) = false).

(** A setting in seconds for which [total_seconds() >= setting], a
    comparison with a float, is the comparison of the microseconds: up to
    [2 ^ 33] seconds the floats are less than a microsecond apart
    ([float_comparison_is_exact] below). *)
Definition exact_seconds (setting : Z) : Prop :=
  (0 <= setting <= 2 ^ 33)%Z.

(** The parts of the detector a helper may touch without touching the
    engine's objects. *)
Definition same_objects (d d' : BirdDetector.t) : Prop :=
  self (BirdDetector.machine d') = self (BirdDetector.machine d)
  /\ heap (BirdDetector.machine d') = heap (BirdDetector.machine d).

(** No visit is open. *)
Definition at_rest (d : BirdDetector.t) : Prop :=
  state (self (BirdDetector.machine d)) = IDLE
  \/ state (self (BirdDetector.machine d)) = VISIT_COMPLETE.

(** A bounding box [x1, y1, x2, y2] has its corners in order, as the
    boxes [_detect_birds] builds from the model's [xyxy] have. *)
Definition box_ordered (d : Detection.t) : Prop :=
  match Detection.bbox d with
  | [x1; y1; x2; y2] => (x1 <= x2)%Z /\ (y1 <= y2)%Z
  | _ => True
  end.

Definition boxes_ordered (c : Capture.t) : Prop :=
  Forall box_ordered (Capture.detections c).

(** The score in the words of the specification: the total bounding-box
    area of the capture's detections, and a greatest detection confidence.
    Only a detection whose box has four coordinates counts, for both; a
    missing confidence reads as [0], and the greatest confidence is at
    least [0]. *)
Definition box_area (d : Detection.t) : Z :=
  match Detection.bbox d with
  | [x1; y1; x2; y2] => (x2 - x1) * (y2 - y1)
  | _ => 0
  end.

Definition total_area (c : Capture.t) : Z :=
  foldr Z.add 0%Z (map box_area (Capture.detections c)).

Definition boxed (c : Capture.t) : list Detection.t :=
  filter (fun d => length (Detection.bbox d) = 4%nat) (Capture.detections c).

Definition confidence_of (d : Detection.t) : Float.t :=
  default Float.zero (Detection.confidence d).

Definition greatest_confidence (c : Capture.t) (m : Float.t) : Prop :=
  (m = Float.zero \/ exists d, d ∈ boxed c /\ confidence_of d = m)
  /\ Float.ltb m Float.zero = false
  /\ forall d, d ∈ boxed c -> Float.ltb m (confidence_of d) = false.

(** The total area can be converted to a float: it is below the ints for
    which [float(n)] raises [OverflowError]. *)
Definition area_in_range (c : Capture.t) : Prop :=
  (total_area c < 2 ^ 1023)%Z.

(** A row of table [visits] as the analyzer leaves it on success. *)
Definition completed_as (ans : Answer.t) (row : VisitRow.t) : Prop :=
  VisitRow.status row = "completed"%string
  /\ VisitRow.species row = Some (Answer.species ans)
  /\ VisitRow.species_confidence row = Answer.confidence ans
  /\ VisitRow.summary row = Some (Answer.summary ans).


(** The delays slept after failed attempts [attempt .. attempt + n - 1],
    each followed by another attempt: the base delay doubled at each
    attempt. *)
Definition backoff (cfg : Config.t) (attempt : Z) (n : nat) : list Z :=
  match Config.OPENAI_RETRY_DELAY_SEC cfg with
  | Some base => map (fun k => base * 2 ^ k)%Z (seqZ attempt (Z.of_nat n))
  | None => []
  end.

(** Reading [OPENAI_RETRY_DELAY_SEC] succeeds whenever the retry loop
    gets to it, and the delay it yields can be slept. *)
Definition retry_delay_usable (cfg : Config.t) : Prop :=
  Config.OPENAI_MAX_RETRIES cfg = 1%Z
  \/ exists base, Config.OPENAI_RETRY_DELAY_SEC cfg = Some base /\ (0 <= base)%Z.
End Invariant.

(** ** [BirdDetector._connect_camera] *)

Module Camera.
Import BirdDetector.

(** What one attempt to open the stream comes to: the capture is opened and
    a first frame is read; it is not opened, or the first read fails; or
    [cv2] raises. *)
Inductive attempt : Type :=
| Streaming
| Closed
| Crashed (e : string).

(** What a call returns, the arguments of its [time.sleep] calls, oldest
    first, and the detector afterwards. *)
Record connection := mk_connection {
  connected : bool;
  waited : list Z;
  detector : BirdDetector.t
}.

Definition with_failures (n : Z) (d : BirdDetector.t) : BirdDetector.t :=
  {| session_id := session_id d; supabase := supabase d; machine := machine d;
     running := running d; consecutive_failures := n;
     last_detection_time := last_detection_time d |}.

(** The [while attempts < 10] loop with [remaining] turns left; [camera]
    tells what the attempt numbered [attempts] comes to.  The numbers the
    log lines interpolate are left out of the messages, and the rows
    [update_health] writes are not modelled. *)
Fixpoint connecting (camera : Z -> attempt) (remaining : nat)
    (attempts backoff_seconds : Z) (waited : list Z) (d : BirdDetector.t)
    : connection :=
  match remaining with
  | O => {| connected := false; waited := waited; detector := d |}
  | S remaining =>
      let d := logging StructuredLogger.info "Connecting to camera..." d in
      match camera attempts with
      | Streaming =>
          {| connected := true; waited := waited;
             detector :=
               with_failures 0
                 (logging StructuredLogger.info
                    "Camera connected successfully" d) |}
      | Closed =>
          connecting camera remaining (attempts + 1)
            (Z.min (backoff_seconds * 2) 60) (waited ++ [backoff_seconds])
            (logging StructuredLogger.warning
               "Camera connection failed, retrying" d)
      | Crashed e =>
          connecting camera remaining (attempts + 1)
            (Z.min (backoff_seconds * 2) 60) (waited ++ [backoff_seconds])
            (logging StructuredLogger.error
               ("Camera connection error: " +:+ e) d)
      end
  end.

Definition _connect_camera (camera : Z -> attempt) (d : BirdDetector.t)
    : connection :=
  connecting camera 10 0 2 [] d.

(** The delays of [n] failed attempts in a row, the first of which waits
    [backoff_seconds]; those of all ten attempts of a call. *)
Fixpoint delays (n : nat) (backoff_seconds : Z) : list Z :=
  match n with
  | O => []
  | S n => backoff_seconds :: delays n (Z.min (backoff_seconds * 2) 60)
  end.

Definition schedule : list Z := [2; 4; 8; 16; 32; 60; 60; 60; 60; 60]%Z.

Definition streams (a : attempt) : bool :=
  match a with Streaming => true | _ => false end.
End Camera.

(** ** main.py: the worker loop *)

Module Main.
Import SpeciesAnalyzer.

(** What one turn of the loop of [run_analyzer_worker] reads from outside:
    whether the query for the visits to analyse raises, and what the
    analysis of the visit at each position of its answer reads. *)
Record Turn := mk_turn {
  query_fails : bool;
  task : nat -> Task
}.

(** The analyzer, the logger of [main.py] and the arguments of the
    [time.sleep] calls of the loop, oldest first. *)
Record t := mk {
  analyzer : SpeciesAnalyzer.t;
  api_logger : StructuredLogger.t;
  rested : list Z
}.

(** [table('visits').select('id').eq('status', 'analyzing').limit(10)]:
    the first ten such rows, in table order. *)
Definition analyzing (db : Supabase.t) : list string :=
  take 10 (map VisitRow.id
             (filter (fun row => VisitRow.status row = "analyzing"%string)
                     (Supabase.visits db))).

(** [for visit in visits.data: analyzer.analyze_visit(visit['id'])], from
    position [n] of the answer on. *)
Fixpoint analyze_each (cfg : Config.t) (task : nat -> Task) (n : nat)
    (ids : list string) (a : SpeciesAnalyzer.t) : SpeciesAnalyzer.t :=
  match ids with
  | [] => a
  | visit_id :: ids =>
      analyze_each cfg task (S n) ids (analyze_visit cfg (task n) visit_id a)
  end.

(** One turn of [while True]. *)
Definition turn (cfg : Config.t) (w : t) (tn : Turn) : t :=
  if query_fails tn
  then {| analyzer := analyzer w;
          api_logger := StructuredLogger.error (api_logger w)
                          "Analyzer worker error: request failed";
          rested := rested w ++ [10%Z] |}
  else {| analyzer := analyze_each cfg (task tn) 0
                        (analyzing (supabase (analyzer w))) (analyzer w);
          api_logger := api_logger w;
          rested := rested w ++ [5%Z] |}.

Definition turns (cfg : Config.t) (w : t) (tns : list Turn) : t :=
  fold_left (turn cfg) tns w.
End Main.

(** ** Further predicates *)

Module Further.
Import VisitStateMachine.

(** Since when the bird has gone unseen: the clock reading of the first of
    the inputs without a detection that end the sequence, if it ends with
    any. *)
Definition unseen_step (since : option Z) (i : input) : option Z :=
  if bird_detected i then None
  else match since with
       | None => Some (now (read i))
       | Some s => Some s
       end.

Definition unseen_since (inputs : list input) : option Z :=
  fold_left unseen_step inputs None.

(** A [Visit] object later in its life: same identity and start, captures
    only added, and nothing changed once it is ["analyzing"]. *)
Definition grown (v v' : Visit.t) : Prop :=
  Visit.id v' = Visit.id v
  /\ Visit.session_id v' = Visit.session_id v
  /\ Visit.start_time v' = Visit.start_time v
  /\ Visit.captures v `prefix_of` Visit.captures v'
  /\ (Visit.status v = "analyzing"%string -> v' = v).

Definition heap_grown (h h' : list Visit.t) : Prop :=
  forall r v, h !! r = Some v -> exists v', h' !! r = Some v' /\ grown v v'.

(** The captures of a visit carry its identifier, and the first of them,
    and only the first, is flagged as the best one. *)
Definition captures_labelled (v : Visit.t) : Prop :=
  forall i c, Visit.captures v !! i = Some c ->
    Capture.visit_id c = Visit.id v
    /\ Capture.is_best_capture c = Nat.eqb i 0.


(** No [KeyboardInterrupt] arrives during the ticks. *)
Definition uninterrupted (ticks : list BirdDetector.Tick) : Prop :=
  Forall (fun tk => BirdDetector.interrupt tk = false) ticks.

(** The identifiers of the visits, in the order of their creation. *)
Definition ids (h : list Visit.t) : list string := map Visit.id h.

(** A row the analyzer is done with. *)
Definition settled (row : VisitRow.t) : Prop :=
  VisitRow.status row = "completed"%string
  \/ VisitRow.status row = "failed"%string.

(** A row of table [visits] as the analyzer leaves it on failure. *)
Definition failed_with (e : string) (row : VisitRow.t) : Prop :=
  VisitRow.status row = "failed"%string
  /\ VisitRow.species row = Some "unknown"%string
  /\ VisitRow.summary row = Some ("Analysis failed: " +:+ e).

(** Whether what [process_detection] gave back is a complete-visit
    instruction, and whether it carries the capture flag. *)
Definition returned (o : outcome (option Instruction.t))
    : option Instruction.t :=
  match o with Return x => x | Raise _ => None end.

Definition completes (o : option Instruction.t) : bool :=
  match o with
  | Some ins => Scenario.is_action Action.complete_visit ins
  | None => false
  end.

Definition photographs (o : option Instruction.t) : bool :=
  match o with
  | Some ins => Instruction.capture ins
  | None => false
  end.

(** Two detectors with the same engine, the same [Visit] objects, the same
    database and the same correlation identifier in the logger; they may
    differ in the lines logged and in the counters of the loop. *)
Definition same_view (d d' : BirdDetector.t) : Prop :=
  self (BirdDetector.machine d') = self (BirdDetector.machine d)
  /\ heap (BirdDetector.machine d') = heap (BirdDetector.machine d)
  /\ BirdDetector.supabase d' = BirdDetector.supabase d
  /\ StructuredLogger.correlation_id (logger (BirdDetector.machine d'))
     = StructuredLogger.correlation_id (logger (BirdDetector.machine d)).

(** A species the statistics count. *)
Definition counted (species : string) : Prop :=
  species <> ""%string /\ species <> "unknown"%string.

(** The number of visits table [species_stats] holds for a species: that
    of the first row of the species, the one the code reads, or none. *)
Definition seen (species : string) (db : Supabase.t) : Z :=
  match filter (fun row => StatsRow.species row = species)
               (Supabase.species_stats db) with
  | row :: _ => StatsRow.total_visits row
  | [] => 0
  end.

(** Table [species_stats] has one row for a species at most, and none for
    a species that is not counted. *)
Definition one_row_per_species (db : Supabase.t) : Prop :=
  NoDup (map StatsRow.species (Supabase.species_stats db))
  /\ Forall counted (map StatsRow.species (Supabase.species_stats db)).

(** The classifier raises on each of the attempts [0 .. n - 1]. *)
Definition fails_before (tk : SpeciesAnalyzer.Task) (n : Z) : Prop :=
  forall k, (0 <= k < n)%Z ->
            is_raise (SpeciesAnalyzer.classifier tk k) = true.

(** What a turn of the worker makes of a row of table [visits], given the
    identifiers the turn picked. *)
Definition turned (picked : list string) (row row' : VisitRow.t) : Prop :=
  VisitRow.id row' = VisitRow.id row
  /\ (VisitRow.id row ∈ picked -> settled row')
  /\ (VisitRow.id row ∉ picked -> row' = row).

(** A row of table [visits] that awaits its analysis; the positions of
    the first [n] such rows of a table; and the identifiers a query for
    at most ten of them returns. *)
Definition awaiting (row : VisitRow.t) : Prop :=
  VisitRow.status row = "analyzing"%string.

Definition among_the_first (n : nat) (rows : list VisitRow.t) (i : nat)
    : Prop :=
  exists row, rows !! i = Some row
              /\ awaiting row
              /\ (length (filter awaiting (take i rows)) < n)%nat.

Definition queried (rows : list VisitRow.t) (visit_id : string) : Prop :=
  exists i row, among_the_first 10 rows i
                /\ rows !! i = Some row
                /\ VisitRow.id row = visit_id.

(** What a turn of the worker makes of a row, given the table the turn
    began with. *)
Definition worked (rows : list VisitRow.t) (row row' : VisitRow.t) : Prop :=
  VisitRow.id row' = VisitRow.id row
  /\ (queried rows (VisitRow.id row) -> settled row')
  /\ (~ queried rows (VisitRow.id row) -> row' = row).

(** An answer of the classifier, and a task in which every request to the
    database succeeds and the classifier raises twice before it gives that
    answer. *)
Definition robin : Answer.t :=
  {| Answer.species := "European Robin";
     Answer.confidence := Some "high"%string;
     Answer.summary := "A robin on the feeder";
     Answer.bird_count := 1 |}.

Definition flaky_task : SpeciesAnalyzer.Task :=
  {| SpeciesAnalyzer.clock := Scenario.sec 60;
     SpeciesAnalyzer.fault := fun _ => false;
     SpeciesAnalyzer.classifier :=
       fun attempt => if (attempt <? 2)%Z then Raise "timed out"
                      else Return robin |}.

(** A worker over the database scenario A leaves behind, with a key and a
    retry delay of two seconds, and a turn of its loop in which the query
    answers and every visit is analysed under [flaky_task]. *)
Definition keyed : Config.t := Scenario.cfg_keyed 3 (Some 2%Z).

Definition worker : Main.t :=
  {| Main.analyzer := SpeciesAnalyzer.init keyed Scenario.database_A;
     Main.api_logger := StructuredLogger.create "api";
     Main.rested := [] |}.

Definition flaky_turn : Main.Turn :=
  {| Main.query_fails := false; Main.task := fun _ => flaky_task |}.

(** The bird is seen at [t = 0] and again at [t = 30], and at no second
    in between. *)
Definition second_visit : list BirdDetector.Tick :=
  map (fun t => Scenario.tick ((t =? 0) || (t =? 30))%Z t) (seqZ 0 31).

(** What the transition function is given in the second [t] of a
    scenario, and the inputs of a bird seen at [t = 0] and not in the five
    seconds after. *)
Definition watch (detected : bool) (t : Z) : input :=
  {| bird_detected := detected;
     detections := if detected then [Scenario.bird] else [];
     read := BirdDetector.reading (Scenario.tick detected t) |}.

Definition short_absence : list input :=
  watch true 0 :: map (watch false) (seqZ 1 5).
End Further.

(** ** main.py: the two threads over one store *)

Module Program.
Import VisitStateMachine Further.

(** What happens next in the program: the detection thread goes through
    an iteration of its loop, or the worker thread analyses a visit.  An
    iteration writes to table [visits] at most once (the insert of
    [_create_visit_in_db] or the update of [_finalize_visit]) and so does
    an analysis (the update of [_mark_visit_completed] or of
    [_mark_visit_failed]); for this table an interleaving of the requests
    of the two threads is therefore an ordering of these events. *)
Inductive event : Type :=
| Detection (tk : BirdDetector.Tick)
| Analysis (task : SpeciesAnalyzer.Task) (visit_id : string).

(** [detector] and [analyzer] of [main.py].  They are built over the same
    client; the store is the one the detector holds, and an analysis works
    on it and hands it back. *)
Record t := mk {
  detector : BirdDetector.t;
  analyzer : SpeciesAnalyzer.t
}.

Definition store (p : t) : Supabase.t := BirdDetector.supabase (detector p).

(** The program over a database that holds the rows of earlier sessions,
    once the detector is initialized. *)
Definition started (cfg : Config.t) (session_id : string) (db : Supabase.t)
    : t :=
  {| detector := BirdDetector.started_over session_id db;
     analyzer := SpeciesAnalyzer.init cfg db |}.

(** The worker analyses the visits its query returned, rows that are
    ["analyzing"]; such a row still is when its analysis begins, since
    only the worker ends that status. *)
Definition step (cfg : Config.t) (p : t) (ev : event) : t :=
  match ev with
  | Detection tk =>
      {| detector := BirdDetector.run cfg (detector p) [tk];
         analyzer := analyzer p |}
  | Analysis task visit_id =>
      if bool_decide
           (visit_id ∈ map VisitRow.id
                         (filter awaiting (Supabase.visits (store p))))
      then
        let a := SpeciesAnalyzer.analyze_visit cfg task visit_id
                   (SpeciesAnalyzer.with_supabase (store p) (analyzer p)) in
        {| detector := BirdDetector.with_supabase (SpeciesAnalyzer.supabase a)
                         (detector p);
           analyzer := a |}
      else p
  end.

Definition run (cfg : Config.t) (p : t) (events : list event) : t :=
  fold_left (step cfg) events p.


(** A row that has kept what the detector wrote of the visit's identity
    and times. *)
Definition kept (row row' : VisitRow.t) : Prop :=
  VisitRow.id row' = VisitRow.id row
  /\ VisitRow.session_id row' = VisitRow.session_id row
  /\ VisitRow.start_time row' = VisitRow.start_time row
  /\ VisitRow.end_time row' = VisitRow.end_time row
  /\ VisitRow.duration_seconds row' = VisitRow.duration_seconds row.


(** A later session over the database scenario A left behind: the same
    seventeen seconds, the visit now drawing the identifier ["next"];
    then the worker analyses both visits. *)
Definition renamed (uuid : string) (tk : BirdDetector.Tick)
    : BirdDetector.Tick :=
  {| BirdDetector.interrupt := BirdDetector.interrupt tk;
     BirdDetector.time_ms := BirdDetector.time_ms tk;
     BirdDetector.frame_read := BirdDetector.frame_read tk;
     BirdDetector.reconnect := BirdDetector.reconnect tk;
     BirdDetector.adapter := BirdDetector.adapter tk;
     BirdDetector.reading :=
       {| now := now (BirdDetector.reading tk); fresh_uuid := uuid;
          visit_clock := visit_clock (BirdDetector.reading tk) |};
     BirdDetector.capture_uuid := BirdDetector.capture_uuid tk;
     BirdDetector.capture_clock := BirdDetector.capture_clock tk;
     BirdDetector.encode_ok := BirdDetector.encode_ok tk;
     BirdDetector.fault := BirdDetector.fault tk |}.

Definition next_session : list event :=
  map (fun tk => Detection (renamed "next" tk)) (Scenario.scenario_A 17)
    ++ [Analysis flaky_task "next"; Analysis flaky_task "visit"].
End Program.

(** * Properties *)

(** ** The session engine, one tick at a time *)

Section EngineStep.
Import VisitStateMachine Invariant.
Variable cfg : Config.t.

Lemma wf_initial sid : wf cfg (initial_memory sid).
Proof.
  split; simpl; try discriminate.
  - reflexivity.
  - intros [H | H]; discriminate.
Qed.

Lemma deref_wf m :
  wf cfg m ->
  state (self m) = BIRD_PRESENT \/ state (self m) = BIRD_ABSENT ->
  exists r v, deref m = Return (r, v) /\ current_visit (self m) = Some r
              /\ heap m !! r = Some v /\ Visit.status v = "active"%string.
Proof.
  intros Hwf Hst. destruct (wf_open cfg m Hwf Hst) as (r & v & Hc & Hh & Hs).
  exists r, v. unfold deref. rewrite Hc, Hh. auto.
Qed.

Lemma wf_start m ds rd :
  wf cfg m -> current_visit (self m) = None ->
  wf cfg (snd (_start_visit m ds rd)).
Proof.
  intros Hwf Hnone.
  assert (Hno : forall r v, heap m !! r = Some v ->
                            Visit.status v = "analyzing"%string).
  { intros r v Hr. destruct (wf_status cfg m Hwf r v Hr) as [Ha | Ha]; [|done].
    pose proof (wf_unique cfg m Hwf r v Hr Ha). congruence. }
  split; simpl.
  - intros [H | H]; discriminate.
  - intros _. eexists _, _. split; [reflexivity|].
    split; [apply list_lookup_middle; reflexivity | reflexivity].
  - intros r v Hr Ha. apply lookup_app_Some in Hr as [Hr | [Hlen Hr]].
    + apply Hno in Hr. rewrite Hr in Ha. discriminate.
    + f_equal. destruct (r - length (heap m))%nat eqn:E; simpl in Hr.
      * lia.
      * rewrite lookup_nil in Hr. discriminate.
  - intros r v Hr. apply lookup_app_Some in Hr as [Hr | [Hlen Hr]].
    + eauto using wf_status.
    + apply list_elem_of_lookup_2, list_elem_of_singleton in Hr. subst v. auto.
  - intros r v Hr. apply lookup_app_Some in Hr as [Hr | [Hlen Hr]].
    + eauto using wf_bound.
    + apply list_elem_of_lookup_2, list_elem_of_singleton in Hr. subst v.
      simpl. lia.
Qed.

Lemma issued_start m ds rd ins :
  current_visit (self m) = None ->
  fst (_start_visit m ds rd) = Return (Some ins) ->
  issued cfg m (snd (_start_visit m ds rd)) ins.
Proof.
  intros Hnone [= <-]. unfold issued. simpl.
  split; [done|]. split; [done|]. split; [eauto|].
  eexists. split; [apply list_lookup_middle; reflexivity | reflexivity].
Qed.

(** Reading position [r'] of a heap updated at position [r]: the same
    position, or another one. *)
Ltac updated_at r r' H :=
  destruct (decide (r = r')) as [<- | ?];
  [ rewrite list_lookup_insert_eq in H by eauto using lookup_lt_Some;
    injection H as <-
  | rewrite list_lookup_insert_ne in H by done ].

Lemma wf_complete m rd r v :
  wf cfg m -> current_visit (self m) = Some r -> heap m !! r = Some v ->
  wf cfg
    {| self := {| session_id := session_id (self m); state := VISIT_COMPLETE;
                  current_visit := None; absence_start_time := None;
                  cooldown_start_time := Some (now rd);
                  last_capture_time := last_capture_time (self m) |};
       heap := <[r := Visit.close (now rd) v]> (heap m);
       logger := StructuredLogger.info (logger m)
                   ("Visit completed: " +:+ Visit.id v) |}.
Proof.
  intros Hwf Hc Hr. split; simpl.
  - done.
  - intros [H | H]; discriminate.
  - intros r' v' Hr' Ha. exfalso. updated_at r r' Hr'.
    + discriminate.
    + pose proof (wf_unique cfg m Hwf r' v' Hr' Ha). congruence.
  - intros r' v' Hr'. updated_at r r' Hr'.
    + auto.
    + eauto using wf_status.
  - intros r' v' Hr'. updated_at r r' Hr'.
    + simpl. eauto using wf_bound.
    + eauto using wf_bound.
Qed.

(** Changing the timers, the state among the two open ones, or the log
    keeps a memory well formed. *)
Lemma wf_retime m s' lg :
  wf cfg m ->
  current_visit s' = current_visit (self m) ->
  (state s' = BIRD_PRESENT \/ state s' = BIRD_ABSENT ->
   state (self m) = BIRD_PRESENT \/ state (self m) = BIRD_ABSENT) ->
  (state s' = IDLE \/ state s' = VISIT_COMPLETE ->
   state (self m) = IDLE \/ state (self m) = VISIT_COMPLETE) ->
  wf cfg {| self := s'; heap := heap m; logger := lg |}.
Proof.
  intros Hwf Hc Hopen Hclosed. split; simpl.
  - intros H. rewrite Hc. apply (wf_closed cfg m Hwf); auto.
  - intros H. rewrite Hc. apply (wf_open cfg m Hwf); auto.
  - intros r v Hr Ha. rewrite Hc. eauto using wf_unique.
  - eauto using wf_status.
  - eauto using wf_bound.
Qed.

(** The transition function keeps the memory well formed, never raises
    from a well-formed memory, and vouches for what it returns. *)
Lemma process_detection_wf m b ds rd :
  wf cfg m ->
  let res := process_detection cfg m b ds rd in
  wf cfg (snd res)
  /\ (exists o, fst res = Return o)
  /\ (forall ins, fst res = Return (Some ins) -> issued cfg m (snd res) ins).
Proof.
  intros Hwf. unfold process_detection.
  destruct (state (self m)) eqn:Hst.
  - (* IDLE *)
    assert (Hnone : current_visit (self m) = None)
      by (apply (wf_closed cfg m Hwf); auto).
    destruct (b && _cooldown_elapsed cfg (self m) (now rd)).
    + split; [by apply wf_start|]. split; [simpl; eauto|].
      intros ins. by apply issued_start.
    + simpl. split; [done|]. split; [eauto|]. intros ins [=].
  - (* BIRD_PRESENT *)
    destruct b.
    + destruct (_should_capture cfg (self m) (now rd)).
      * unfold _capture_photo.
        destruct (deref_wf m Hwf) as (r & v & -> & Hc & Hr & Ha); [auto|].
        destruct (Z.leb_spec (Config.MAX_CAPTURES_PER_VISIT cfg)
                    (Z.of_nat (length (Visit.captures v)))).
        -- simpl. split; [done|]. split; [eauto|]. intros ins [=].
        -- simpl. split.
           { apply wf_retime; simpl; auto. }
           split; [eauto|]. intros ins [= <-]. unfold issued. simpl.
           split; [done|]. split; [eauto|]. eauto.
      * simpl. split; [done|]. split; [eauto|]. intros ins [=].
    + simpl. split.
      { apply wf_retime; simpl; auto. intros [H|H]; discriminate. }
      split; [eauto|]. intros ins [=].
  - (* BIRD_ABSENT *)
    destruct b.
    + simpl. split.
      { apply wf_retime; simpl; auto. intros [H|H]; discriminate. }
      split; [eauto|]. intros ins [=].
    + destruct (_absence_timeout_elapsed cfg (self m) (now rd)).
      * unfold _complete_visit.
        destruct (deref_wf m Hwf) as (r & v & -> & Hc & Hr & Ha); [auto|].
        simpl. split; [by apply wf_complete|]. split; [eauto|].
        intros ins [= <-]. reflexivity.
      * simpl. split; [done|]. split; [eauto|]. intros ins [=].
  - (* VISIT_COMPLETE *)
    assert (Hnone : current_visit (self m) = None)
      by (apply (wf_closed cfg m Hwf); auto).
    destruct (_cooldown_elapsed cfg (self m) (now rd)).
    + set (m' := become_idle m).
      assert (Hwf' : wf cfg m').
      { apply wf_retime; simpl; auto. intros [H|H]; discriminate. }
      destruct b.
      * split; [by apply wf_start|]. split; [simpl; eauto|].
        intros ins Hins. pose proof (issued_start m' ds rd ins Hnone Hins) as Hi.
        unfold issued in *. destruct (Instruction.action ins); auto.
      * simpl. split; [done|]. split; [eauto|]. intros ins [=].
    + simpl. split; [done|]. split; [eauto|]. intros ins [=].
Qed.

Lemma wf_feed sid inputs : wf cfg (feed cfg (initial_memory sid) inputs).
Proof.
  assert (H : forall m, wf cfg m -> wf cfg (feed cfg m inputs)).
  { induction inputs as [|i inputs IH]; intros m Hwf; simpl; [done|].
    apply IH.
    by destruct (process_detection_wf m (bird_detected i) (detections i)
                   (read i) Hwf) as [Hwf' _]. }
  apply H, wf_initial.
Qed.
End EngineStep.

(** ** The detection loop *)

Section DetectionLoop.
Import VisitStateMachine Invariant BirdDetector.
Variable cfg : Config.t.

Lemma same_objects_refl d : same_objects d d.
Proof. by split. Qed.

Lemma same_objects_logging f msg d : same_objects d (logging f msg d).
Proof. by split. Qed.

Lemma create_visit_same d tk r : same_objects d (_create_visit_in_db d tk r).
Proof.
  unfold _create_visit_in_db.
  destruct (heap (machine d) !! r); [|by split].
  destruct (fault tk InsertVisit); by split.
Qed.

Lemma finalize_visit_same d tk r : same_objects d (_finalize_visit d tk r).
Proof.
  unfold _finalize_visit.
  destruct (heap (machine d) !! r); [|by split].
  destruct (fault tk UpdateVisit); by split.
Qed.

(** [_capture_and_store] appends one capture to the visit it is given, or
    nothing. *)
Lemma capture_and_store_heap d tk r ds :
  let d' := _capture_and_store cfg d tk r ds in
  self (machine d') = self (machine d)
  /\ (heap (machine d') = heap (machine d)
      \/ exists v c, heap (machine d) !! r = Some v
           /\ heap (machine d')
              = <[r := Visit.append_capture c v]> (heap (machine d))).
Proof.
  unfold _capture_and_store.
  destruct (heap (machine d) !! r) as [v|] eqn:Hr; [|by split; [|left]].
  destruct (encode_ok tk); simpl; [|by split; [|left]].
  destruct (fault tk UploadImage); simpl;
    (destruct (fault tk InsertCapture); simpl; [by split; [|left]|]);
    (split; [done|]; right; eauto).
Qed.

Lemma handle_state_action_heap d tk ins :
  let res := _handle_state_action cfg d tk ins in
  self (machine (snd res)) = self (machine d)
  /\ (heap (machine (snd res)) = heap (machine d)
      \/ Instruction.capture ins = true
         /\ exists v c, heap (machine d) !! Instruction.visit ins = Some v
              /\ heap (machine (snd res))
                 = <[Instruction.visit ins := Visit.append_capture c v]>
                     (heap (machine d))).
Proof.
  unfold _handle_state_action.
  set (d1 := if decide (Instruction.action ins = Action.start_visit)
             then _create_visit_in_db d tk (Instruction.visit ins) else d).
  assert (H1 : same_objects d d1).
  { subst d1. case_decide; [apply create_visit_same | apply same_objects_refl]. }
  destruct H1 as [Hs1 Hh1].
  destruct (Instruction.capture ins) eqn:Hcap.
  - destruct (Instruction.detections ins) as [ds|]; simpl.
    + destruct (capture_and_store_heap d1 tk (Instruction.visit ins) ds)
        as [Hs2 Hh2].
      set (d2 := _capture_and_store cfg d1 tk (Instruction.visit ins) ds) in *.
      assert (H3 : same_objects d2
                     (if decide (Instruction.action ins = Action.complete_visit)
                      then _finalize_visit d2 tk (Instruction.visit ins)
                      else d2)).
      { case_decide; [apply finalize_visit_same | apply same_objects_refl]. }
      destruct H3 as [Hs3 Hh3]. rewrite Hs3, Hh3, Hs2, Hs1.
      split; [done|]. rewrite Hh1 in Hh2. destruct Hh2 as [-> | Hh2]; auto.
    + auto.
  - simpl.
    assert (H3 : same_objects d1
                   (if decide (Instruction.action ins = Action.complete_visit)
                    then _finalize_visit d1 tk (Instruction.visit ins)
                    else d1)).
    { case_decide; [apply finalize_visit_same | apply same_objects_refl]. }
    destruct H3 as [Hs3 Hh3]. rewrite Hs3, Hh3. auto.
Qed.

(** Only an instruction that asks for a capture without carrying
    detections makes the handler raise; the engine issues none. *)
Lemma handle_state_action_returns d tk ins :
  (Instruction.capture ins = true -> is_Some (Instruction.detections ins)) ->
  fst (_handle_state_action cfg d tk ins) = Return tt.
Proof.
  intros Hds. unfold _handle_state_action.
  destruct (Instruction.capture ins); [|done].
  destruct (Hds eq_refl) as [ds ->]. done.
Qed.

Lemma wf_same m m' :
  wf cfg m -> self m' = self m -> heap m' = heap m -> wf cfg m'.
Proof.
  intros Hwf Hs Hh. destruct m' as [s' h' lg']. simpl in *. subst.
  apply wf_retime; auto.
Qed.

Lemma wf_append m r v c :
  wf cfg m -> heap m !! r = Some v ->
  (Z.of_nat (length (Visit.captures v)) + 1
     <= Z.max 1 (Config.MAX_CAPTURES_PER_VISIT cfg))%Z ->
  forall m', self m' = self m ->
             heap m' = <[r := Visit.append_capture c v]> (heap m) ->
             wf cfg m'.
Proof.
  intros Hwf Hr Hlen m' Hs Hh.
  assert (Hlook : forall r' v', heap m' !! r' = Some v' ->
            exists v0, heap m !! r' = Some v0
                       /\ Visit.status v' = Visit.status v0
                       /\ (Z.of_nat (length (Visit.captures v'))
                            <= Z.max 1 (Config.MAX_CAPTURES_PER_VISIT cfg))%Z).
  { intros r' v'. rewrite Hh. destruct (decide (r = r')) as [<- | Hne].
    - rewrite list_lookup_insert_eq by eauto using lookup_lt_Some.
      intros [= <-]. exists v. split; [done|]. split; [done|].
      simpl. rewrite length_app. simpl. lia.
    - rewrite list_lookup_insert_ne by done. intros Hr'. exists v'.
      eauto using wf_bound. }
  split; rewrite ?Hs.
  - apply (wf_closed cfg m Hwf).
  - intros Hst. destruct (wf_open cfg m Hwf Hst) as (r' & v' & Hc & Hr' & Ha).
    destruct (decide (r = r')) as [<- | Hne].
    + exists r, (Visit.append_capture c v). split; [done|].
      rewrite Hh, list_lookup_insert_eq by eauto using lookup_lt_Some.
      split; [done|]. simpl. congruence.
    + exists r', v'. rewrite Hh, list_lookup_insert_ne by done. auto.
  - intros r' v' Hr' Ha. destruct (Hlook r' v' Hr') as (v0 & H0 & Hst & _).
    rewrite Hst in Ha. eauto using wf_unique.
  - intros r' v' Hr'. destruct (Hlook r' v' Hr') as (v0 & H0 & Hst & _).
    rewrite Hst. eauto using wf_status.
  - intros r' v' Hr'. by destruct (Hlook r' v' Hr') as (v0 & _ & _ & Hb).
Qed.

Lemma wf_handle d tk m0 ins :
  wf cfg (machine d) -> issued cfg m0 (machine d) ins ->
  wf cfg (machine (snd (_handle_state_action cfg d tk ins))).
Proof.
  intros Hwf Hi.
  destruct (handle_state_action_heap d tk ins) as [Hs [Hh | (Hcap & v & c & Hr & Hh)]].
  - eapply wf_same; eauto.
  - eapply wf_append; eauto.
    unfold issued in Hi. destruct (Instruction.action ins).
    + destruct Hi as (_ & _ & _ & v' & Hv' & Hnil).
      rewrite Hr in Hv'. injection Hv' as <-. rewrite Hnil. simpl. lia.
    + destruct Hi as (_ & _ & v' & Hv' & Hlt).
      rewrite Hr in Hv'. injection Hv' as <-. lia.
    + congruence.
Qed.

Lemma wf_flow_read_failure d tk :
  wf cfg (machine d) -> wf cfg (machine (after (on_read_failure d tk))).
Proof.
  intros Hwf. unfold on_read_failure. simpl.
  destruct (10 <=? consecutive_failures d + 1)%Z; simpl;
    [destruct (reconnect tk); simpl|]; eapply wf_same; eauto.
Qed.

Lemma wf_iteration d tk :
  wf cfg (machine d) -> wf cfg (machine (after (iteration cfg d tk))).
Proof.
  intros Hwf. unfold iteration, observe.
  destruct (interrupt tk); simpl; [eapply wf_same; eauto|].
  destruct (Qle_bool _ _); simpl; [|done].
  destruct (frame_read tk); simpl; [|by apply wf_flow_read_failure].
  destruct (_detect_birds tk) as [[b ds]|e]; simpl;
    [|eapply wf_same; eauto].
  destruct (process_detection_wf cfg (machine d) b ds (reading tk) Hwf)
    as (Hwf' & [o Ho] & Hi).
  destruct (process_detection cfg (machine d) b ds (reading tk)) as [o' m'].
  simpl in *. subst o'. destruct o as [ins|]; simpl; [|done].
  specialize (Hi ins eq_refl).
  match goal with
  | |- context [_handle_state_action cfg ?x tk ins] =>
      pose proof (wf_handle x tk (machine d) ins Hwf' Hi) as Hw;
      destruct (_handle_state_action cfg x tk ins) as [[u|e] d']
  end; simpl in *; [done|]. eapply wf_same; eauto.
Qed.

Lemma wf_run sid ticks : wf cfg (machine (run cfg (started sid) ticks)).
Proof.
  assert (H : forall d, wf cfg (machine d) -> wf cfg (machine (run cfg d ticks))).
  { induction ticks as [|tk ticks IH]; intros d Hwf; simpl; [done|].
    destruct (running d); [|done].
    pose proof (wf_iteration d tk Hwf) as Hit.
    destruct (iteration cfg d tk) as [d'|d']; simpl in Hit.
    - by apply IH.
    - eapply wf_same; eauto. }
  apply H, wf_initial.
Qed.
End DetectionLoop.

(** ** What the specification says about the engine *)

Section EngineClaims.
Import VisitStateMachine Invariant BirdDetector.

Lemma absent_memory_reached :
  machine (run Scenario.cfg Scenario.feeder (take 4 Scenario.scenario_B))
  = Scenario.absent_memory.
Proof. vm_compute. reflexivity. Qed.

Lemma complete_memory_reached :
  machine (run Scenario.cfg Scenario.feeder (Scenario.scenario_A 17))
  = Scenario.complete_memory.
Proof. vm_compute. reflexivity. Qed.

(** C5.  In [BIRD_ABSENT], a tick on which the bird is detected (before
    the grace period has run out or after) brings the engine back to
    [BIRD_PRESENT] with the same visit in the slot: the absence timer is
    cleared, no [Visit] object is created or changed, no instruction is
    returned (so neither complete-visit nor start-visit), and whatever
    the next detected tick emits is a capture for that same visit. *)
Theorem resume_keeps_the_visit cfg m ds rd :
  state (self m) = BIRD_ABSENT ->
  let res := process_detection cfg m true ds rd in
  fst res = Return None
  /\ state (self (snd res)) = BIRD_PRESENT
  /\ current_visit (self (snd res)) = current_visit (self m)
  /\ absence_start_time (self (snd res)) = None
  /\ heap (snd res) = heap m
  /\ forall ds' rd' ins m'',
       process_detection cfg (snd res) true ds' rd' = (Return (Some ins), m'') ->
       Instruction.action ins = Action.capture
       /\ current_visit (self m) = Some (Instruction.visit ins)
       /\ current_visit (self m'') = Some (Instruction.visit ins)
       /\ heap m'' = heap m.
Proof.
  intros Hst. unfold process_detection at 1. rewrite Hst. simpl.
  repeat (split; [reflexivity|]).
  intros ds' rd' ins m''. unfold process_detection. simpl.
  destruct (_should_capture _ _ _); [|discriminate].
  unfold _capture_photo, deref. simpl.
  destruct (current_visit (self m)) as [r|]; [|discriminate].
  destruct (heap m !! r) as [v|]; [|discriminate].
  destruct (_ <=? _)%Z; [discriminate|].
  intros [= <- <-]. simpl. auto.
Qed.

Lemma resume_keeps_the_visit_witness :
  let m := Scenario.absent_memory in
  let res := process_detection Scenario.cfg m true [Scenario.bird]
               (reading (Scenario.tick true 4)) in
  state (self m) = BIRD_ABSENT
  /\ fst res = Return None
  /\ state (self (snd res)) = BIRD_PRESENT
  /\ current_visit (self (snd res)) = Some 0%nat
  /\ absence_start_time (self (snd res)) = None.
Proof.
  intros m res.
  assert (Hst : state (self m) = BIRD_ABSENT) by reflexivity.
  destruct (resume_keeps_the_visit Scenario.cfg m [Scenario.bird]
              (reading (Scenario.tick true 4)) Hst)
    as (H1 & H2 & H3 & H4 & _).
  split; [exact Hst|]. split; [exact H1|]. split; [exact H2|].
  split; [exact (eq_trans H3 eq_refl) | exact H4].
Defined.

(** C6.  In [VISIT_COMPLETE], a tick at which the cooldown has elapsed
    moves the engine to [IDLE] and is handled as the same tick by an
    engine that is in [IDLE] and otherwise alike: with the bird detected
    it returns start-visit with the capture flag and opens a new [Visit]
    on that very tick, ending in [BIRD_PRESENT]; without it the engine
    ends in [IDLE], with nothing else changed and nothing returned.  A
    tick at which the cooldown has not elapsed changes nothing and
    returns nothing, so the engine stays in [VISIT_COMPLETE]. *)
Theorem complete_then_idle_in_one_tick cfg m b ds rd :
  state (self m) = VISIT_COMPLETE ->
  if _cooldown_elapsed cfg (self m) (now rd)
  then (forall idle,
          state (self idle) = IDLE ->
          VisitStateMachine.session_id (self idle)
          = VisitStateMachine.session_id (self m) ->
          current_visit (self idle) = current_visit (self m) ->
          absence_start_time (self idle) = absence_start_time (self m) ->
          cooldown_start_time (self idle) = cooldown_start_time (self m) ->
          last_capture_time (self idle) = last_capture_time (self m) ->
          heap idle = heap m ->
          logger idle = logger m ->
          process_detection cfg m b ds rd
          = process_detection cfg idle b ds rd)
       /\ (b = true ->
           exists ins m',
             process_detection cfg m b ds rd = (Return (Some ins), m')
             /\ Instruction.action ins = Action.start_visit
             /\ Instruction.capture ins = true
             /\ state (self m') = BIRD_PRESENT
             /\ current_visit (self m') = Some (Instruction.visit ins)
             /\ heap m' = heap m ++ [Visit.init (VisitStateMachine.session_id (self m))
                                       (fresh_uuid rd) (visit_clock rd)]
             /\ heap m' !! Instruction.visit ins
                = Some (Visit.init (VisitStateMachine.session_id (self m))
                          (fresh_uuid rd) (visit_clock rd)))
       /\ (b = false ->
           exists m',
             process_detection cfg m b ds rd = (Return None, m')
             /\ state (self m') = IDLE
             /\ VisitStateMachine.session_id (self m')
                = VisitStateMachine.session_id (self m)
             /\ current_visit (self m') = current_visit (self m)
             /\ absence_start_time (self m') = absence_start_time (self m)
             /\ cooldown_start_time (self m') = cooldown_start_time (self m)
             /\ last_capture_time (self m') = last_capture_time (self m)
             /\ heap m' = heap m
             /\ logger m' = logger m)
  else process_detection cfg m b ds rd = (Return None, m)
       /\ state (self m) = VISIT_COMPLETE.
Proof.
  intros Hst. unfold process_detection. rewrite Hst. simpl.
  change (_cooldown_elapsed cfg (set_state IDLE (self m)) (now rd))
    with (_cooldown_elapsed cfg (self m) (now rd)).
  destruct (_cooldown_elapsed cfg (self m) (now rd)) eqn:Hcool; [|done].
  split; [|split].
  - intros [[sid st cv ab co lc] h lg] Hidle Hsid Hcv Hab Hco Hlc Hh Hlg.
    simpl in *. subst. unfold _cooldown_elapsed in *. simpl in *.
    rewrite Hcool, andb_true_r. destruct m as [[? ? ? ? ? ?] ? ?]. reflexivity.
  - intros ->. eexists _, _. split; [reflexivity|]. simpl.
    repeat (split; [reflexivity|]).
    apply list_lookup_middle. reflexivity.
  - intros ->. eexists. split; [reflexivity|]. by repeat split.
Qed.

Lemma complete_then_idle_in_one_tick_witness :
  let m := Scenario.complete_memory in
  state (self m) = VISIT_COMPLETE
  /\ process_detection Scenario.cfg m true [Scenario.bird]
       (reading (Scenario.tick true 20))
     = (Return None, m)
  /\ (exists ins m',
        process_detection Scenario.cfg m true [Scenario.bird]
          (reading (Scenario.tick true 31))
        = (Return (Some ins), m')
        /\ Instruction.action ins = Action.start_visit
        /\ state (self m') = BIRD_PRESENT)
  /\ (exists m',
        process_detection Scenario.cfg m false []
          (reading (Scenario.tick false 31))
        = (Return None, m')
        /\ state (self m') = IDLE).
Proof.
  intros m.
  assert (Hst : state (self m) = VISIT_COMPLETE) by reflexivity.
  split; [exact Hst|]. split; [|split].
  - exact (proj1 (complete_then_idle_in_one_tick Scenario.cfg m true
                    [Scenario.bird] (reading (Scenario.tick true 20)) Hst)).
  - destruct (complete_then_idle_in_one_tick Scenario.cfg m true [Scenario.bird]
                (reading (Scenario.tick true 31)) Hst)
      as (_ & Hstart & _).
    destruct (Hstart eq_refl) as (ins & m' & Hp & Ha & _ & Hs & _).
    exists ins, m'. auto.
  - destruct (complete_then_idle_in_one_tick Scenario.cfg m false []
                (reading (Scenario.tick false 31)) Hst)
      as (_ & _ & Hrest).
    destruct (Hrest eq_refl) as (m' & Hp & Hs & _).
    exists m'. auto.
Defined.
End EngineClaims.

(** ** What the specification says about whole runs *)

Section RunClaims.
Import VisitStateMachine Invariant BirdDetector.

Lemma filter_at_most_one {A} (P : A -> Prop) `{!forall x, Decision (P x)}
    (l : list A) :
  (forall i j x y, l !! i = Some x -> l !! j = Some y -> P x -> P y -> i = j) ->
  (length (filter P l) <= 1)%nat.
Proof.
  induction l as [|a l IH]; intros Huniq; [simpl; lia|].
  destruct (decide (P a)) as [Ha | Ha].
  - rewrite filter_cons_True by done. simpl.
    destruct (filter P l) as [|y rest] eqn:E; [simpl; lia|]. exfalso.
    assert (Hy : y ∈ filter P l) by (rewrite E; left).
    apply list_elem_of_filter in Hy as [Py Hy].
    apply list_elem_of_lookup in Hy as [j Hj].
    discriminate (Huniq 0%nat (S j) a y eq_refl Hj Ha Py).
  - rewrite filter_cons_False by done. apply IH.
    intros i j x y Hi Hj Px Py.
    pose proof (Huniq (S i) (S j) x y Hi Hj Px Py). lia.
Qed.

Lemma slot_is_open cfg m r :
  wf cfg m -> current_visit (self m) = Some r ->
  exists v, heap m !! r = Some v /\ Visit.status v = "active"%string.
Proof.
  intros Hwf Hc.
  destruct (state (self m)) eqn:Hst.
  - rewrite (wf_closed cfg m Hwf) in Hc by auto. discriminate.
  - destruct (wf_open cfg m Hwf) as (r' & v & Hc' & Hr & Ha); [auto|].
    exists v. split; congruence.
  - destruct (wf_open cfg m Hwf) as (r' & v & Hc' & Hr & Ha); [auto|].
    exists v. split; congruence.
  - rewrite (wf_closed cfg m Hwf) in Hc by auto. discriminate.
Qed.

Lemma wf_one_open_visit cfg m : wf cfg m -> one_open_visit cfg m.
Proof.
  intros Hwf. split; [|split; [|split]].
  - apply filter_at_most_one. intros i j x y Hi Hj Hx Hy.
    pose proof (wf_unique cfg m Hwf i x Hi Hx).
    pose proof (wf_unique cfg m Hwf j y Hj Hy). congruence.
  - intros r. exact (slot_is_open cfg m r Hwf).
  - intros r v Hr. case_decide as Hc.
    + destruct (slot_is_open cfg m r Hwf Hc) as (v' & Hr' & Ha). congruence.
    + destruct (wf_status cfg m Hwf r v Hr) as [Ha | Ha]; [|done].
      destruct Hc. exact (wf_unique cfg m Hwf r v Hr Ha).
  - intros b ds rd ins m' Hp Hact.
    destruct (process_detection_wf cfg m b ds rd Hwf) as (_ & _ & Hi).
    rewrite Hp in Hi. specialize (Hi ins eq_refl).
    unfold issued in Hi. rewrite Hact in Hi. tauto.
Qed.

Lemma wf_visit_at_hand cfg m : wf cfg m -> visit_at_hand cfg m.
Proof.
  intros Hwf. split.
  - intros Hst.
    destruct (deref_wf cfg m Hwf Hst) as (r & v & Hd & Hc & Hr & _).
    exists r, v. split; [done|]. split; [done|]. split.
    + intros ds rd. unfold _capture_photo. rewrite Hd.
      by destruct (_ <=? _)%Z.
    + intros rd. unfold _complete_visit. by rewrite Hd.
  - intros b ds rd.
    destruct (process_detection_wf cfg m b ds rd Hwf) as (_ & [o Ho] & _).
    by rewrite Ho.
Qed.

(** C2.  Starting from [IDLE], after any sequence of inputs fed to the
    transition function, and likewise after any sequence of iterations of
    the detection loop (which feeds it and stores the captures it asks
    for), the engine holds at most one open visit: at most one [Visit] is
    ["active"], the current-visit slot refers to it or is empty, every
    other visit has been closed and handed over, and a start-visit
    instruction is only ever returned when the slot is empty. *)
Theorem at_most_one_open_visit cfg sid :
  (forall inputs, one_open_visit cfg (feed cfg (initial_memory sid) inputs))
  /\ (forall ticks, one_open_visit cfg (machine (run cfg (started sid) ticks))).
Proof.
  split.
  - intros inputs. apply wf_one_open_visit, wf_feed.
  - intros ticks. apply wf_one_open_visit, wf_run.
Qed.

(** C10.  In every state reached from [IDLE], by inputs fed to the
    transition function or by iterations of the detection loop, a state of
    [BIRD_PRESENT] or [BIRD_ABSENT] comes with a visit in the slot;
    consequently [_capture_photo] and [_complete_visit], which read the
    slot's visit without a check, do not raise there, and the transition
    function raises on no input at all. *)
Theorem open_states_hold_a_visit cfg sid :
  (forall inputs, visit_at_hand cfg (feed cfg (initial_memory sid) inputs))
  /\ (forall ticks, visit_at_hand cfg (machine (run cfg (started sid) ticks))).
Proof.
  split.
  - intros inputs. apply wf_visit_at_hand, wf_feed.
  - intros ticks. apply wf_visit_at_hand, wf_run.
Qed.

(** C4 as stated fails when the setting is [0]: the capture that comes
    with start-visit is taken whatever the maximum. *)
Lemma first_capture_ignores_the_maximum :
  exists v,
    heap (machine (run Scenario.cfg_no_captures Scenario.feeder
                     [Scenario.tick true 0])) !! 0%nat = Some v
    /\ (Config.MAX_CAPTURES_PER_VISIT Scenario.cfg_no_captures
          < Z.of_nat (length (Visit.captures v)))%Z.
Proof. eexists. split; [vm_compute; reflexivity | vm_compute; reflexivity]. Qed.

(** C4, amended.  After any sequence of ticks every visit has at most
    [max 1 MAX_CAPTURES_PER_VISIT] captures, hence at most
    [MAX_CAPTURES_PER_VISIT] when that setting is at least [1]; and in
    [BIRD_PRESENT], when the open visit already has that many captures, a
    detected tick returns no instruction and leaves the engine as it
    was. *)
Theorem capture_count_is_bounded cfg sid ticks :
  let m := machine (run cfg (started sid) ticks) in
  Forall (fun v => (Z.of_nat (length (Visit.captures v))
                      <= Z.max 1 (Config.MAX_CAPTURES_PER_VISIT cfg))%Z)
         (heap m)
  /\ ((1 <= Config.MAX_CAPTURES_PER_VISIT cfg)%Z ->
      Forall (fun v => (Z.of_nat (length (Visit.captures v))
                          <= Config.MAX_CAPTURES_PER_VISIT cfg)%Z)
             (heap m))
  /\ (forall r v ds rd,
        state (self m) = BIRD_PRESENT ->
        current_visit (self m) = Some r -> heap m !! r = Some v ->
        (Config.MAX_CAPTURES_PER_VISIT cfg
           <= Z.of_nat (length (Visit.captures v)))%Z ->
        process_detection cfg m true ds rd = (Return None, m)).
Proof.
  intros m. pose proof (wf_run cfg sid ticks) as Hwf. fold m in Hwf.
  assert (Hall : Forall (fun v => (Z.of_nat (length (Visit.captures v))
                      <= Z.max 1 (Config.MAX_CAPTURES_PER_VISIT cfg))%Z)
                   (heap m)).
  { apply Forall_lookup. intros r v Hr. exact (wf_bound cfg m Hwf r v Hr). }
  split; [done|]. split.
  - intros Hmax. eapply Forall_impl; [exact Hall|]. simpl. intros v Hv. lia.
  - intros r v ds rd Hst Hc Hr Hfull. unfold process_detection. rewrite Hst.
    destruct (_should_capture cfg (self m) (now rd)); [|done].
    unfold _capture_photo, deref. rewrite Hc, Hr.
    destruct (Z.leb_spec (Config.MAX_CAPTURES_PER_VISIT cfg)
                (Z.of_nat (length (Visit.captures v)))); [done|lia].
Qed.

Lemma capture_count_is_bounded_witness :
  let m := machine (run Scenario.cfg (started "feeder") (Scenario.long_stay 14)) in
  Forall (fun v => (Z.of_nat (length (Visit.captures v)) <= 5)%Z) (heap m)
  /\ _should_capture Scenario.cfg (self m) (Scenario.sec 15) = true
  /\ process_detection Scenario.cfg m true [Scenario.bird]
       (reading (Scenario.tick true 15))
     = (Return None, m).
Proof.
  intros m.
  destruct (capture_count_is_bounded Scenario.cfg "feeder" (Scenario.long_stay 14))
    as (_ & Hmax & Hfull).
  split; [apply Hmax; vm_compute; discriminate|].
  split; [vm_compute; reflexivity|].
  eapply (Hfull 0%nat).
  - vm_compute. reflexivity.
  - vm_compute. reflexivity.
  - vm_compute. reflexivity.
  - vm_compute. discriminate.
Defined.

(** A bird that stays for twenty seconds is photographed five times, at
    [t = 0, 3, 6, 9, 12], and not again. *)
Lemma capture_stops_at_the_maximum :
  times Instruction.capture
    (trace Scenario.cfg Scenario.feeder (Scenario.long_stay 20))
  = [Scenario.sec 0; Scenario.sec 3; Scenario.sec 6; Scenario.sec 9;
     Scenario.sec 12].
Proof. vm_compute. reflexivity. Qed.
End RunClaims.

(** ** Scenarios *)

Section ScenarioClaims.
Import VisitStateMachine Invariant BirdDetector.

Lemma run_stopped cfg d ticks : running d = false -> run cfg d ticks = d.
Proof. intros H. destruct ticks; simpl; [done|]. by rewrite H. Qed.

Lemma trace_stopped cfg d ticks : running d = false -> trace cfg d ticks = [].
Proof. intros H. destruct ticks; simpl; [done|]. by rewrite H. Qed.

Lemma run_app cfg d l1 l2 :
  run cfg d (l1 ++ l2) = run cfg (run cfg d l1) l2.
Proof.
  revert d. induction l1 as [|tk l1 IH]; intros d; simpl; [done|].
  destruct (running d) eqn:Hrun.
  - destruct (iteration cfg d tk); [apply IH|].
    by rewrite run_stopped.
  - by rewrite run_stopped.
Qed.

Lemma trace_app cfg d l1 l2 :
  trace cfg d (l1 ++ l2) = trace cfg d l1 ++ trace cfg (run cfg d l1) l2.
Proof.
  revert d. induction l1 as [|tk l1 IH]; intros d; simpl; [done|].
  destruct (running d) eqn:Hrun.
  - destruct (iteration cfg d tk); simpl; [by rewrite IH|].
    by rewrite trace_stopped.
  - by rewrite trace_stopped.
Qed.

Lemma times_app p tr1 tr2 : times p (tr1 ++ tr2) = times p tr1 ++ times p tr2.
Proof. apply omap_app. Qed.

Lemma times_silent p tr : Forall (fun x => snd x = None) tr -> times p tr = [].
Proof.
  induction 1 as [|[t o] tr Ho _ IH]; [done|].
  simpl in Ho. subst o. exact IH.
Qed.

(** With no visit open, a tick without a bird emits nothing, creates
    nothing and leaves no visit open. *)
Lemma at_rest_tick cfg d tk :
  at_rest d -> adapter tk = Return [] ->
  fst (observe cfg d tk) = None
  /\ at_rest (after (iteration cfg d tk))
  /\ heap (machine (after (iteration cfg d tk))) = heap (machine d).
Proof.
  intros Hrest Had. unfold iteration, observe, at_rest in *.
  destruct (interrupt tk); simpl; [done|].
  destruct (Qle_bool _ _); simpl; [|done].
  destruct (frame_read tk); simpl.
  - unfold _detect_birds. rewrite Had. simpl. unfold process_detection.
    destruct Hrest as [Hs | Hs]; rewrite Hs; simpl; [auto|].
    destruct (_cooldown_elapsed _ _ _); simpl; auto.
  - unfold on_read_failure. simpl.
    destruct (10 <=? _)%Z; simpl; [destruct (reconnect tk)|]; simpl; done.
Qed.

Lemma at_rest_run cfg d ticks :
  at_rest d -> Forall (fun tk => adapter tk = Return []) ticks ->
  Forall (fun x => snd x = None) (trace cfg d ticks)
  /\ heap (machine (run cfg d ticks)) = heap (machine d).
Proof.
  intros Hrest Hticks. revert d Hrest.
  induction Hticks as [|tk ticks Htk _ IH]; intros d Hrest; simpl; [done|].
  destruct (running d); [|done].
  destruct (at_rest_tick cfg d tk Hrest Htk) as (Hobs & Hrest' & Hheap).
  destruct (iteration cfg d tk) as [d'|d']; simpl in *.
  - destruct (IH d' Hrest') as [Htr Hh]. split; [|congruence].
    constructor; [exact Hobs | exact Htr].
  - split; [|done]. constructor; [exact Hobs | constructor].
Qed.

Lemma scenario_A_split n :
  Scenario.scenario_A (17 + n)
  = Scenario.scenario_A 17
      ++ map (fun t => Scenario.tick (t <=? 10)%Z t) (seqZ 17 (Z.of_nat n)).
Proof.
  unfold Scenario.scenario_A.
  replace (Z.of_nat (17 + n)) with (17 + Z.of_nat n)%Z by lia.
  rewrite seqZ_app by lia. by rewrite map_app.
Qed.

Lemma scenario_A_tail_absent n :
  Forall (fun tk => adapter tk = Return [])
    (map (fun t => Scenario.tick (t <=? 10)%Z t) (seqZ 17 (Z.of_nat n))).
Proof.
  apply Forall_map, Forall_forall. intros t Ht.
  apply elem_of_seqZ in Ht. simpl.
  destruct (Z.leb_spec t 10); [lia | reflexivity].
Qed.

(** C3.  Scenario A (grace period 5 s, cooldown 15 s, capture interval
    3 s, at most 5 captures; one tick per second, the bird detected at
    [t = 0 .. 10] and not from [t = 11] on), followed for any number of
    seconds past [t = 16]: start-visit is emitted at [t = 0] only, an
    instruction with the capture flag at [t = 0, 3, 6, 9] only,
    complete-visit at [t = 16] only, and the run creates exactly one
    [Visit], started at [t = 0], with 4 captures. *)
Theorem scenario_A_one_visit (n : nat) :
  let ticks := Scenario.scenario_A (17 + n) in
  let tr := trace Scenario.cfg Scenario.feeder ticks in
  times (Scenario.is_action Action.start_visit) tr = [Scenario.sec 0]
  /\ times Instruction.capture tr
     = [Scenario.sec 0; Scenario.sec 3; Scenario.sec 6; Scenario.sec 9]
  /\ times (Scenario.is_action Action.complete_visit) tr = [Scenario.sec 16]
  /\ exists v,
       heap (machine (run Scenario.cfg Scenario.feeder ticks)) = [v]
       /\ Visit.start_time v = Scenario.sec 0
       /\ Visit.end_time v = Some (Scenario.sec 16)
       /\ length (Visit.captures v) = 4%nat.
Proof.
  intros ticks tr. subst tr ticks. rewrite scenario_A_split.
  rewrite trace_app, run_app.
  set (d := run Scenario.cfg Scenario.feeder (Scenario.scenario_A 17)).
  assert (Hrest : at_rest d) by (right; vm_compute; reflexivity).
  destruct (at_rest_run Scenario.cfg d _ Hrest (scenario_A_tail_absent n))
    as [Hsilent Hheap].
  rewrite !times_app, !(times_silent _ _ Hsilent), !app_nil_r, Hheap.
  split; [vm_compute; reflexivity|].
  split; [vm_compute; reflexivity|].
  split; [vm_compute; reflexivity|].
  eexists. split; [vm_compute; reflexivity|].
  split; [vm_compute; reflexivity|].
  split; vm_compute; reflexivity.
Qed.

(** Scenario B, evaluated: one start-visit at [t = 0], nothing else, and
    the engine back in [BIRD_PRESENT] on visit [0] with the absence timer
    cleared. *)
Lemma scenario_B_same_visit :
  map (fun x => (fst x, option_map Instruction.action (snd x)))
      (trace Scenario.cfg Scenario.feeder Scenario.scenario_B)
  = [(Scenario.sec 0, Some Action.start_visit); (Scenario.sec 1, None);
     (Scenario.sec 2, None); (Scenario.sec 3, None); (Scenario.sec 4, None)]
  /\ self (machine (run Scenario.cfg Scenario.feeder Scenario.scenario_B))
     = {| VisitStateMachine.session_id := "feeder"; state := BIRD_PRESENT;
          current_visit := Some 0%nat; absence_start_time := None;
          cooldown_start_time := None;
          last_capture_time := Some (Scenario.sec 0) |}.
Proof. split; vm_compute; reflexivity. Qed.
End ScenarioClaims.

(** ** Errors of the detector adapter *)

Section AdapterErrors.
Import VisitStateMachine Invariant BirdDetector.

(** C9 as stated fails: with a visit open, a tick on which the adapter
    raises leaves the engine in [BIRD_PRESENT], while a tick on which the
    bird is not detected moves it to [BIRD_ABSENT]. *)
Lemma adapter_error_is_not_a_miss :
  let d := run Scenario.cfg Scenario.feeder [Scenario.tick true 0] in
  state (self (machine (after (iteration Scenario.cfg d
                                 (Scenario.broken_tick 1)))))
    = BIRD_PRESENT
  /\ state (self (machine (after (iteration Scenario.cfg d
                                    (Scenario.tick false 1)))))
     = BIRD_ABSENT
  /\ self (machine (after (iteration Scenario.cfg d (Scenario.broken_tick 1))))
     <> self (machine (after (iteration Scenario.cfg d (Scenario.tick false 1)))).
Proof.
  split; [vm_compute; reflexivity|]. split; [vm_compute; reflexivity|].
  vm_compute. discriminate.
Qed.

(** C9, amended.  On a tick that reaches detection and on which the
    adapter raises, the error is logged and the tick is skipped: the
    transition function is not called, so the engine (state, slot, timers)
    and its visits are as before the tick, nothing is written to the
    database, and the loop goes on to the next iteration. *)
Theorem adapter_error_skips_the_tick cfg d tk e :
  interrupt tk = false ->
  Qle_bool (inject_Z (Config.DETECTION_INTERVAL_MS cfg))
           (time_ms tk - last_detection_time d) = true ->
  frame_read tk = true ->
  adapter tk = Raise e ->
  exists d',
    iteration cfg d tk = Continue d'
    /\ self (machine d') = self (machine d)
    /\ heap (machine d') = heap (machine d)
    /\ supabase d' = supabase d
    /\ running d' = running d
    /\ StructuredLogger.output (logger (machine d'))
       = StructuredLogger.output (logger (machine d))
           ++ [StructuredLogger.mk_entry "ERROR"
                 ("Error in detection loop: " +:+ e)
                 (StructuredLogger.correlation_id (logger (machine d)))]
    /\ forall ticks, running d = true ->
                     run cfg d (tk :: ticks) = run cfg d' ticks.
Proof.
  intros Hint Hdue Hread Had.
  unfold iteration, observe, _detect_birds.
  rewrite Hint, Hdue, Hread, Had. simpl.
  eexists. split; [reflexivity|]. simpl.
  repeat (split; [reflexivity|]).
  intros ticks Hrun. rewrite Hrun.
  unfold iteration, observe, _detect_birds.
  rewrite Hint, Hdue, Hread, Had. simpl. by rewrite Hrun.
Qed.

Lemma adapter_error_skips_the_tick_witness :
  exists d',
    iteration Scenario.cfg Scenario.feeder (Scenario.broken_tick 0) = Continue d'
    /\ self (machine d') = self (machine Scenario.feeder)
    /\ heap (machine d') = heap (machine Scenario.feeder).
Proof.
  destruct (adapter_error_skips_the_tick Scenario.cfg Scenario.feeder
              (Scenario.broken_tick 0) "inference failed"
              eq_refl eq_refl eq_refl eq_refl)
    as (d' & Hit & Hs & Hh & _).
  exists d'. split; [exact Hit|]. split; [exact Hs | exact Hh].
Defined.
End AdapterErrors.

(** ** Order and sign of floats *)

Section FloatOrder.

(** Every case of a comparison of two floats. *)
Ltac sf_compare :=
  repeat match goal with
         | H : context [Z.compare ?a ?b] |- _ =>
             destruct (Z.compare_spec a b); simpl in H; try discriminate H
         | |- context [Z.compare ?a ?b] =>
             destruct (Z.compare_spec a b); simpl
         | H : context [Pos.compare_cont Eq ?a ?b] |- _ =>
             change (Pos.compare_cont Eq a b) with (Pos.compare a b) in H;
             destruct (Pos.compare_spec a b); simpl in H; try discriminate H
         | |- context [Pos.compare_cont Eq ?a ?b] =>
             change (Pos.compare_cont Eq a b) with (Pos.compare a b);
             destruct (Pos.compare_spec a b); simpl
         end; subst; try done; try lia.

Ltac sf_cases a b c :=
  unfold Float.ltb, Float.leb, SFltb, SFleb;
  destruct a as [[]|[]| |[] ? ?], b as [[]|[]| |[] ? ?],
           c as [[]|[]| |[] ? ?]; simpl; try done; intros; sf_compare.

Lemma float_ltb_irrefl a : Float.ltb a a = false.
Proof.
  unfold Float.ltb, SFltb. destruct a as [[]|[]| |[] m e]; simpl; try done;
    by rewrite Z.compare_refl, Pos.compare_cont_refl.
Qed.

Lemma float_ltb_trans a b c :
  Float.ltb a b = true -> Float.ltb b c = true -> Float.ltb a c = true.
Proof. sf_cases a b c. Qed.

Lemma float_ltb_leb_trans a b c :
  Float.ltb a b = true -> Float.leb b c = true -> Float.ltb a c = true.
Proof. sf_cases a b c. Qed.

Lemma float_ltb_asym a b : Float.ltb a b = true -> Float.ltb b a = false.
Proof.
  intros H. destruct (Float.ltb b a) eqn:E; [|done].
  by rewrite <- (float_ltb_irrefl a), (float_ltb_trans a b a).
Qed.

Lemma float_ltb_not_leb a b : Float.ltb a b = true -> Float.leb b a = false.
Proof.
  intros H. destruct (Float.leb b a) eqn:E; [|done].
  by rewrite <- (float_ltb_irrefl a), (float_ltb_leb_trans a b a).
Qed.

(** Below a number that [c] does not exceed. *)
Lemma float_ltb_below a z c :
  z <> S754_nan ->
  Float.ltb a c = true -> Float.ltb z c = false -> Float.ltb a z = true.
Proof. revert a z c. intros a z c. sf_cases a z c. Qed.

(** Rounding keeps the sign, and so does a product. *)
Lemma binary_round_aux_sign sx mx ex lx :
  Float.ltb (binary_round_aux 53 1024 sx mx ex lx) Float.zero = sx
  \/ Float.ltb (binary_round_aux 53 1024 sx mx ex lx) Float.zero = false.
Proof.
  unfold binary_round_aux.
  destruct (shr_fexp 53 1024 mx ex lx) as [mrs' e'].
  destruct (shr_fexp 53 1024 _ e' loc_Exact) as [mrs'' e''].
  destruct (shr_m mrs''); [by right| |by right].
  destruct (Z.leb _ _); destruct sx; auto.
Qed.

Lemma float_of_int_nonneg n :
  (0 <= n)%Z -> Float.ltb (Float.of_int n) Float.zero = false.
Proof.
  intros Hn. unfold Float.of_int, binary_normalize.
  destruct n as [|p|p]; [done| |lia].
  unfold binary_round. destruct (shl_align _ _ _) as [mz ez].
  by destruct (binary_round_aux_sign false (Zpos mz) ez loc_Exact).
Qed.

Lemma float_mul_nonneg a b :
  Float.ltb a Float.zero = false -> Float.ltb b Float.zero = false ->
  Float.ltb (Float.mul a b) Float.zero = false.
Proof.
  unfold Float.mul, SFmul.
  destruct a as [[]|[]| |[] ma ea], b as [[]|[]| |[] mb eb];
    simpl; try done; intros _ _.
  by destruct (binary_round_aux_sign false (Zpos (ma * mb)) (ea + eb) loc_Exact).
Qed.
End FloatOrder.

(** ** The float [total_seconds()] returns *)

Section TotalSeconds.
Import VisitStateMachine Invariant.
Local Open Scope Z_scope.

Lemma digits2_pos_bounds p :
  2 ^ (Zpos (digits2_pos p) - 1) <= Zpos p < 2 ^ Zpos (digits2_pos p).
Proof.
  induction p as [p IH|p IH|]; simpl digits2_pos.
  - rewrite Pos2Z.inj_succ.
    replace (Z.succ (Zpos (digits2_pos p)) - 1)
      with (Z.succ (Zpos (digits2_pos p) - 1)) by lia.
    rewrite !Z.pow_succ_r by lia. lia.
  - rewrite Pos2Z.inj_succ.
    replace (Z.succ (Zpos (digits2_pos p)) - 1)
      with (Z.succ (Zpos (digits2_pos p) - 1)) by lia.
    rewrite !Z.pow_succ_r by lia. lia.
  - simpl. lia.
Qed.

Lemma shr_1_m mrs : 0 <= shr_m mrs -> shr_m (shr_1 mrs) = shr_m mrs / 2.
Proof.
  destruct mrs as [[|[p|p|]|p] r s]; simpl; intros H; try lia;
    rewrite <- Z.div2_div; reflexivity.
Qed.

Lemma iter_shr_1_m n mrs :
  0 <= shr_m mrs -> shr_m (SpecFloat.iter_pos shr_1 n mrs) = shr_m mrs / 2 ^ Zpos n.
Proof.
  revert mrs. induction n as [n IH|n IH|]; intros mrs Hm; simpl SpecFloat.iter_pos.
  - assert (H1 : 0 <= shr_m (shr_1 mrs)).
    { rewrite shr_1_m by done. apply Z.div_pos; lia. }
    assert (H2 : 0 <= shr_m (SpecFloat.iter_pos shr_1 n (shr_1 mrs))).
    { rewrite IH by done. apply Z.div_pos; [done|]. apply Z.pow_pos_nonneg; lia. }
    rewrite IH, IH, shr_1_m by done.
    rewrite !Z.div_div by (try apply Z.pow_pos_nonneg; lia).
    f_equal. rewrite (Pos2Z.inj_xI n).
    replace (2 * Zpos n + 1) with (1 + Zpos n + Zpos n) by lia.
    rewrite (Z.pow_add_r 2 (1 + Zpos n) (Zpos n)) by lia.
    rewrite (Z.pow_add_r 2 1 (Zpos n)) by lia. lia.
  - assert (H2 : 0 <= shr_m (SpecFloat.iter_pos shr_1 n mrs)).
    { rewrite IH by done. apply Z.div_pos; [done|]. apply Z.pow_pos_nonneg; lia. }
    rewrite IH, IH by done.
    rewrite !Z.div_div by (try apply Z.pow_pos_nonneg; lia).
    f_equal. rewrite (Pos2Z.inj_xO n).
    replace (2 * Zpos n) with (Zpos n + Zpos n) by lia.
    rewrite (Z.pow_add_r 2 (Zpos n) (Zpos n)) by lia. lia.
  - rewrite shr_1_m by done. reflexivity.
Qed.


Lemma shr_record_of_loc_m m l : shr_m (shr_record_of_loc m l) = m.
Proof. by destruct l as [|[]]. Qed.

Lemma round_nearest_even_bounds m l :
  m <= round_nearest_even m l <= m + 1.
Proof. destruct l as [|[]]; simpl; try destruct (Z.even m); lia. Qed.

Lemma Zdigits2_bounds q :
  0 < q -> 2 ^ (Zdigits2 q - 1) <= q < 2 ^ Zdigits2 q.
Proof. destruct q; try lia. intros _. apply digits2_pos_bounds. Qed.

Lemma Zdigits2_at_least q a :
  0 <= a -> 2 ^ a <= q -> a < Zdigits2 q.
Proof.
  intros Ha Hq.
  assert (0 < 2 ^ a) by (apply Z.pow_pos_nonneg; lia).
  destruct (Zdigits2_bounds q) as [_ Hlt]; [lia|].
  destruct (Z.lt_ge_cases a (Zdigits2 q)) as [|Hle]; [done|].
  pose proof (Z.pow_le_mono_r 2 _ _ ltac:(lia) Hle). lia.
Qed.

Lemma Zdigits2_at_most q a :
  0 < q -> 0 <= a -> q < 2 ^ a -> Zdigits2 q <= a.
Proof.
  intros Hq Ha Hlt.
  destruct (Zdigits2_bounds q) as [Hge _]; [lia|].
  destruct (Z.le_gt_cases (Zdigits2 q) a) as [|Hgt]; [done|].
  pose proof (Z.pow_le_mono_r 2 a (Zdigits2 q - 1) ltac:(lia) ltac:(lia)). lia.
Qed.

(** The shift that brings a mantissa of 53 bits or more to 53 bits. *)
Lemma shr_fexp_m q e l n :
  2 ^ 52 <= q -> -1021 <= e -> n = Zdigits2 q - 53 ->
  exists mrs,
    shr_fexp 53 1024 q e l = (mrs, e + n)
    /\ 0 <= n
    /\ shr_m mrs = q / 2 ^ n
    /\ 2 ^ 52 <= q / 2 ^ n < 2 ^ 53
    /\ (n = 0 -> mrs = shr_record_of_loc q l)
    /\ (n = 1 -> mrs = shr_1 (shr_record_of_loc q l)).
Proof.
  intros Hq He Hn.
  pose proof (Zdigits2_at_least q 52 ltac:(lia) Hq) as Hd.
  assert (H52 : 0 < 2 ^ 52) by (apply Z.pow_pos_nonneg; lia).
  destruct (Zdigits2_bounds q) as [Hlo Hhi]; [lia|].
  assert (Hpow : 0 < 2 ^ n) by (apply Z.pow_pos_nonneg; lia).
  assert (Hbounds : 2 ^ 52 <= q / 2 ^ n < 2 ^ 53).
  { split.
    - apply Z.div_le_lower_bound; [done|].
      rewrite <- Z.pow_add_r by lia.
      by replace (n + 52) with (Zdigits2 q - 1) by lia.
    - apply Z.div_lt_upper_bound; [done|].
      rewrite <- Z.pow_add_r by lia.
      by replace (n + 53) with (Zdigits2 q) by lia. }
  unfold shr_fexp, fexp, emin.
  rewrite Z.max_l by lia.
  replace (Zdigits2 q + e - 53 - e) with n by lia.
  unfold shr. destruct n as [|pn|pn] eqn:En; [| |lia].
  - exists (shr_record_of_loc q l). rewrite Z.add_0_r.
    repeat split; try done; try lia.
    rewrite shr_record_of_loc_m. by rewrite Z.div_1_r.
  - exists (SpecFloat.iter_pos shr_1 pn (shr_record_of_loc q l)).
    repeat split; try done; try lia.
    + rewrite iter_shr_1_m; rewrite shr_record_of_loc_m; [done|lia].
    + intros [= ->]. reflexivity.
Qed.

Lemma round_after_shr_1 q l :
  0 < q ->
  round_nearest_even (shr_m (shr_1 (shr_record_of_loc q l)))
    (loc_of_shr_record (shr_1 (shr_record_of_loc q l)))
  <= q / 2 + q mod 2.
Proof.
  intros Hq.
  pose proof (Z.div_mod q 2 ltac:(lia)) as Hdiv.
  pose proof (Z.mod_pos_bound q 2 ltac:(lia)) as Hmod.
  revert Hdiv Hmod. generalize (q / 2) (q mod 2). intros a b Hdiv Hmod.
  destruct q as [|[p|p|]|p]; try lia.
  - rewrite (Pos2Z.inj_xI p) in Hdiv.
    destruct l as [|[]]; simpl;
      try match goal with |- context [if ?c then _ else _] => destruct c end;
      lia.
  - rewrite (Pos2Z.inj_xO p) in Hdiv.
    destruct l as [|[]]; simpl;
      try match goal with |- context [if ?c then _ else _] => destruct c end;
      lia.
  - destruct l as [|[]]; simpl; lia.
Qed.

(** What rounding to nearest makes of a mantissa of 53 bits or more. *)
Lemma binary_round_aux_shape s q e l :
  2 ^ 52 <= q -> -1021 <= e ->
  exists n n2 m1 m,
    n = Zdigits2 q - 53 /\ 0 <= n /\ 0 <= n2 <= 1
    /\ 2 ^ 52 <= q / 2 ^ n <= m1
    /\ m1 <= q / 2 ^ n + 1
    /\ (n = 1 -> m1 <= q / 2 + q mod 2)
    /\ Zpos m * 2 ^ n2 = m1
    /\ binary_round_aux 53 1024 s q e l
       = if e + n + n2 <=? 971
         then S754_finite s m (e + n + n2) else S754_infinity s.
Proof.
  intros Hq He.
  assert (H52 : 2 ^ 52 = 4503599627370496) by reflexivity.
  assert (H53 : 2 ^ 53 = 9007199254740992) by reflexivity.
  destruct (shr_fexp_m q e l (Zdigits2 q - 53) Hq He eq_refl)
    as (mrs & Hshr & Hn & Hm & Hb & Hn0 & Hn1).
  set (n := Zdigits2 q - 53) in *.
  set (m1 := round_nearest_even (shr_m mrs) (loc_of_shr_record mrs)).
  pose proof (round_nearest_even_bounds (shr_m mrs) (loc_of_shr_record mrs))
    as Hr. fold m1 in Hr. rewrite Hm in Hr.
  assert (Hm1 : 2 ^ 52 <= m1) by lia.
  pose proof (Zdigits2_at_most m1 54 ltac:(lia) ltac:(lia)) as Hd1.
  assert (H54 : 2 ^ 54 = 18014398509481984) by reflexivity.
  specialize (Hd1 ltac:(lia)).
  destruct (shr_fexp_m m1 (e + n) loc_Exact (Zdigits2 m1 - 53) Hm1
              ltac:(lia) eq_refl)
    as (mrs2 & Hshr2 & Hn2 & Hm2 & Hb2 & Hn20 & Hn21).
  set (n2 := Zdigits2 m1 - 53) in *.
  destruct (shr_m mrs2) as [|m|m] eqn:Hmrs2; [lia| |lia].
  exists n, n2, m1, m. repeat split; try lia.
  - intros Hone. subst m1. rewrite (Hn1 Hone). apply round_after_shr_1. lia.
  - destruct (Z.eq_dec n2 0) as [Hz|Hz].
    + rewrite Hz, Z.div_1_r in Hm2. rewrite Hz. simpl. lia.
    + assert (Hn2' : n2 = 1) by lia. rewrite Hn2' in *.
      pose proof (Zdigits2_bounds m1 ltac:(lia)) as [Hlo _].
      replace (Zdigits2 m1 - 1) with 53 in Hlo by lia.
      assert (m1 = 2 ^ 53) as Heq by lia.
      rewrite Heq in Hm2. change (2 ^ 53 / 2 ^ 1) with (2 ^ 52) in Hm2.
      rewrite Heq. change (2 ^ 1) with 2. lia.
  - unfold binary_round_aux. rewrite Hshr. fold m1. rewrite Hshr2, Hmrs2.
    reflexivity.
Qed.


Lemma ge_int_finite m e S a :
  0 <= a -> 0 <= e + a ->
  Float.ge_int (S754_finite false m e) S = (S * 2 ^ a <=? Zpos m * 2 ^ (e + a)).
Proof.
  intros Ha Hea. apply eq_iff_eq_true. unfold Float.ge_int.
  assert (Hpa : 0 < 2 ^ a) by (apply Z.pow_pos_nonneg; lia).
  assert (Hpb : 0 < 2 ^ (e + a)) by (apply Z.pow_pos_nonneg; lia).
  destruct e as [|pe|pe]; rewrite !Z.leb_le.
  - rewrite Z.add_0_l. change (2 ^ 0) with 1. rewrite Z.mul_1_r.
    apply Z.mul_le_mono_pos_r. done.
  - rewrite (Z.pow_add_r 2 (Zpos pe) a) by lia.
    rewrite Z.mul_assoc. apply Z.mul_le_mono_pos_r. done.
  - replace a with (Zpos pe + (Zneg pe + a)) at 1 by lia.
    rewrite (Z.pow_add_r 2 (Zpos pe) (Zneg pe + a)) by lia.
    rewrite Z.mul_assoc. apply Z.mul_le_mono_pos_r. done.
Qed.

Lemma ge_int_negative m e S :
  0 <= S ->
  Float.ge_int (if e <=? 971 then S754_finite true m e else S754_infinity true) S
  = false.
Proof.
  intros HS. destruct (e <=? 971); [|reflexivity]. unfold Float.ge_int.
  destruct e as [|pe|pe]; apply Z.leb_gt.
  - lia.
  - pose proof (Z.pow_pos_nonneg 2 (Zpos pe) ltac:(lia) ltac:(lia)). nia.
  - pose proof (Z.pow_pos_nonneg 2 (Zpos pe) ltac:(lia) ltac:(lia)). nia.
Qed.

(** The division of [p] microseconds by [10 ** 6], before rounding: a
    quotient of 53 or 54 bits at least, and the binary exponent it is
    scaled by. *)
Lemma SFdiv_core_micro p :
  exists k q l,
    k = Z.max (73 - Zpos (digits2_pos p)) 0
    /\ SFdiv_core_binary 53 1024 (Zpos p) 0 1000000 0 = (q, - k, l)
    /\ q * 1000000 <= Zpos p * 2 ^ k < (q + 1) * 1000000
    /\ 2 ^ 72 <= Zpos p * 2 ^ k
    /\ (Zpos (digits2_pos p) <= 73 -> Zpos p * 2 ^ k < 2 ^ 73).
Proof.
  set (d := Zpos (digits2_pos p)).
  set (k := Z.max (73 - d) 0).
  pose proof (digits2_pos_bounds p) as [Hlo Hhi]. fold d in Hlo, Hhi.
  assert (Hk : 0 < 2 ^ k) by (apply Z.pow_pos_nonneg; lia).
  unfold SFdiv_core_binary.
  change (Zdigits2 (Zpos p)) with d. change (Zdigits2 1000000) with 20.
  unfold fexp, emin.
  replace (Z.min (Z.max (d + 0 - (20 + 0) - 53) (3 - 1024 - 53)) (0 - 0))
    with (- k) by lia.
  replace (0 - 0 - - k) with k by lia.
  assert (Hm' : match k with
                | Zpos _ => Z.shiftl (Zpos p) k
                | Z0 => Zpos p
                | Zneg _ => 0
                end = Zpos p * 2 ^ k).
  { destruct k as [|pk|pk] eqn:Ek; [simpl; lia| |lia].
    apply Z.shiftl_mul_pow2. lia. }
  rewrite Hm'.
  pose proof (Z_div_mod (Zpos p * 2 ^ k) 1000000 ltac:(lia)) as Hdm.
  destruct (Z.div_eucl (Zpos p * 2 ^ k) 1000000) as [q r].
  exists k, q, (new_location 1000000 r).
  split; [done|]. split; [done|]. split; [lia|].
  split.
  - destruct (Z.le_gt_cases d 73) as [Hd|Hd].
    + replace 72 with ((d - 1) + k) by lia.
      rewrite Z.pow_add_r by lia. apply Z.mul_le_mono_nonneg_r; lia.
    + replace k with 0 by lia. change (2 ^ 0) with 1. rewrite Z.mul_1_r.
      pose proof (Z.pow_le_mono_r 2 72 (d - 1) ltac:(lia) ltac:(lia)). lia.
  - intros Hd. replace 73 with (d + k) by lia.
    rewrite Z.pow_add_r by lia. apply Z.mul_lt_mono_pos_r; lia.
Qed.

(** The float [us / 10 ** 6] compares with an int [sec] of at most
    [2 ^ 33] as the microseconds compare with [sec * 10 ** 6]. *)
Lemma total_seconds_ge us sec :
  exact_seconds sec ->
  Float.ge_int (total_seconds us) sec = (sec * 1000000 <=? us).
Proof.
  intros [Hsec0 Hsec]. change (2 ^ 33) with 8589934592 in Hsec.
  unfold total_seconds, Float.true_div.
  destruct us as [|p|p].
  - change (Float.ge_int _ sec) with (sec <=? 0).
    apply eq_iff_eq_true. rewrite !Z.leb_le. lia.
  - simpl Float.unrounded. unfold SFdiv.
    destruct (SFdiv_core_micro p) as (k & q & l & Hk & -> & Hq & Hlo & Hhi).
    assert (H52 : 2 ^ 52 = 4503599627370496) by reflexivity.
    assert (H72 : 2 ^ 72 = 4722366482869645213696) by reflexivity.
    assert (H73 : 2 ^ 73 = 9444732965739290427392) by reflexivity.
    assert (H54 : 2 ^ 54 = 18014398509481984) by reflexivity.
    assert (H53 : 2 ^ 53 = 9007199254740992) by reflexivity.
    assert (H20 : 2 ^ 20 = 1048576) by reflexivity.
    assert (HK : 0 < 2 ^ k) by (apply Z.pow_pos_nonneg; lia).
    destruct (binary_round_aux_shape (xorb false false) q (- k) l)
      as (n & n2 & m1 & m & Hn & Hn0 & Hn2 & Hm1 & Hm1' & Hone & Hm & ->);
      [lia | lia |].
    assert (HN : 0 < 2 ^ n) by (apply Z.pow_pos_nonneg; lia).
    simpl xorb.
    destruct (Z.leb_spec (sec * 1000000) (Zpos p)) as [Hge | Hlt].
    + (* enough time has passed: the float is not below [sec] *)
      assert (Hgoal : sec * 2 ^ k <= m1 * 2 ^ n).
      { assert (Hsq : sec * 2 ^ k <= q) by nia.
        destruct (Z.le_gt_cases n k) as [Hnk | Hnk].
        - assert (Hsplit : 2 ^ k = 2 ^ (k - n) * 2 ^ n).
          { rewrite <- Z.pow_add_r by lia. f_equal. lia. }
          rewrite Hsplit, Z.mul_assoc.
          apply Z.mul_le_mono_nonneg_r; [lia|].
          transitivity (q / 2 ^ n); [|lia].
          apply Z.div_le_lower_bound; [done|]. 
          rewrite Hsplit, Z.mul_assoc in Hsq. lia.
        - pose proof (Z.pow_le_mono_r 2 k n ltac:(lia) ltac:(lia)).
          nia. }
      destruct (- k + n + n2 <=? 971); [|reflexivity].
      rewrite (ge_int_finite m _ sec k) by lia.
      apply Z.leb_le.
      replace (- k + n + n2 + k) with (n2 + n) by lia.
      rewrite Z.pow_add_r, Z.mul_assoc, Hm by lia. done.
    + (* not enough: the float stays below [sec] *)
      pose proof (digits2_pos_bounds p) as [Hdlo _].
      assert (Hd : Zpos (digits2_pos p) <= 53).
      { apply (Zdigits2_at_most (Zpos p) 53); lia. }
      assert (Hk20 : 20 <= k) by lia.
      pose proof (Z.pow_le_mono_r 2 20 k ltac:(lia) Hk20) as HK20.
      specialize (Hhi ltac:(lia)).
      assert (Hq54 : q < 2 ^ 54) by lia.
      pose proof (Zdigits2_at_most q 54 ltac:(lia) ltac:(lia) Hq54) as Hdq.
      assert (Hbound : m1 * 2 ^ n <= q + 1).
      { destruct (Z.eq_dec n 0) as [Hz | Hz].
        - rewrite Hz in *. change (2 ^ 0) with 1 in *.
          rewrite Z.div_1_r in Hm1'. lia.
        - assert (Hn1 : n = 1) by lia. specialize (Hone Hn1).
          rewrite Hn1. change (2 ^ 1) with 2.
          pose proof (Z.div_mod q 2 ltac:(lia)).
          pose proof (Z.mod_pos_bound q 2 ltac:(lia)). lia. }
      assert (Hq2 : q + 1 < sec * 2 ^ k) by nia.
      replace (- k + n + n2 <=? 971) with true by (symmetry; apply Z.leb_le; lia).
      rewrite (ge_int_finite m _ sec k) by lia.
      apply Z.leb_gt.
      replace (- k + n + n2 + k) with (n2 + n) by lia.
      rewrite Z.pow_add_r, Z.mul_assoc, Hm by lia. lia.
  - simpl Float.unrounded. unfold SFdiv.
    destruct (SFdiv_core_micro p) as (k & q & l & Hk & -> & Hq & Hlo & Hhi).
    assert (H52 : 2 ^ 52 = 4503599627370496) by reflexivity.
    assert (H72 : 2 ^ 72 = 4722366482869645213696) by reflexivity.
    destruct (binary_round_aux_shape (xorb true false) q (- k) l)
      as (n & n2 & m1 & m & Hn & Hn0 & Hn2 & Hm1 & Hm1' & Hone & Hm & ->);
      [lia | lia |].
    simpl xorb. rewrite ge_int_negative by done.
    symmetry. apply Z.leb_gt. lia.
Qed.

(** The comparison of the model is the comparison the interpreter makes,
    for a setting of at most [2 ^ 33] seconds and whatever the two
    instants. *)
Lemma float_comparison_is_exact now since sec :
  exact_seconds sec ->
  elapsed_as_computed now since sec = elapsed_at_least now since sec.
Proof. intros Hsec. apply total_seconds_ge. exact Hsec. Qed.


(** X22.  For settings of at most [2 ^ 33] seconds, the three timers of
    the engine are the tests the interpreter makes:
    [(now - since).total_seconds() >= setting], where [total_seconds()] is
    the float nearest to the microseconds divided by [10 ** 6], holds
    exactly when at least [setting] seconds, to the microsecond, lie
    between the two instants. *)
Theorem timers_are_as_computed cfg s now :
  exact_seconds (Config.CAPTURE_INTERVAL_SEC cfg) ->
  exact_seconds (Config.ABSENCE_GRACE_PERIOD_SEC cfg) ->
  exact_seconds (Config.VISIT_COOLDOWN_SEC cfg) ->
  _should_capture cfg s now
  = match last_capture_time s with
    | None => true
    | Some since =>
        elapsed_as_computed now since (Config.CAPTURE_INTERVAL_SEC cfg)
    end
  /\ _absence_timeout_elapsed cfg s now
     = match absence_start_time s with
       | None => false
       | Some since =>
           elapsed_as_computed now since (Config.ABSENCE_GRACE_PERIOD_SEC cfg)
       end
  /\ _cooldown_elapsed cfg s now
     = match cooldown_start_time s with
       | None => true
       | Some since =>
           elapsed_as_computed now since (Config.VISIT_COOLDOWN_SEC cfg)
       end.
Proof.
  intros Hcap Habs Hcool.
  unfold _should_capture, _absence_timeout_elapsed, _cooldown_elapsed.
  repeat split.
  - destruct (last_capture_time s); [|done].
    symmetry. by apply float_comparison_is_exact.
  - destruct (absence_start_time s); [|done].
    symmetry. by apply float_comparison_is_exact.
  - destruct (cooldown_start_time s); [|done].
    symmetry. by apply float_comparison_is_exact.
Qed.

Lemma timers_are_as_computed_witness :
  _should_capture Scenario.cfg (self Scenario.complete_memory) (Scenario.sec 31)
  = match last_capture_time (self Scenario.complete_memory) with
    | None => true
    | Some since =>
        elapsed_as_computed (Scenario.sec 31) since
          (Config.CAPTURE_INTERVAL_SEC Scenario.cfg)
    end
  /\ _absence_timeout_elapsed Scenario.cfg (self Scenario.complete_memory)
       (Scenario.sec 31)
     = match absence_start_time (self Scenario.complete_memory) with
       | None => false
       | Some since =>
           elapsed_as_computed (Scenario.sec 31) since
             (Config.ABSENCE_GRACE_PERIOD_SEC Scenario.cfg)
       end
  /\ _cooldown_elapsed Scenario.cfg (self Scenario.complete_memory)
       (Scenario.sec 31)
     = match cooldown_start_time (self Scenario.complete_memory) with
       | None => true
       | Some since =>
           elapsed_as_computed (Scenario.sec 31) since
             (Config.VISIT_COOLDOWN_SEC Scenario.cfg)
       end.
Proof.
  apply (timers_are_as_computed Scenario.cfg (self Scenario.complete_memory)
           (Scenario.sec 31));
    split; vm_compute; discriminate.
Defined.

(** The cooldown that scenario A starts at [t = 16] has elapsed, as the
    interpreter computes it, at [t = 31] and not a microsecond before. *)
Lemma cooldown_of_scenario_A_as_computed :
  elapsed_as_computed (Scenario.sec 31) (Scenario.sec 16) 15 = true
  /\ elapsed_as_computed (Scenario.sec 31 - 1) (Scenario.sec 16) 15 = false.
Proof. split; vm_compute; reflexivity. Qed.

(** Beyond the bound the two part: one microsecond short of
    [2 * 10 ** 10] seconds, the float [total_seconds()] returns is
    [2e10]. *)
Lemma float_comparison_beyond_the_bound :
  elapsed_as_computed (20000000000 * 1000000 - 1) 0 20000000000 = true
  /\ elapsed_at_least (20000000000 * 1000000 - 1) 0 20000000000 = false.
Proof. split; vm_compute; reflexivity. Qed.
End TotalSeconds.

(** ** The analysis worker: choosing the capture *)

Section BestCapture.
Import SpeciesAnalyzer Invariant.

Lemma py_max_nonneg a b :
  Float.ltb a Float.zero = false -> Float.ltb (py_max a b) Float.zero = false.
Proof.
  intros Ha. unfold py_max. destruct (Float.ltb a b) eqn:E; [|done].
  destruct (Float.ltb b Float.zero) eqn:Hb; [|done].
  by rewrite (float_ltb_trans a b Float.zero) in Ha.
Qed.

(** The inner loop from any pair: the area grows by the areas of the
    boxes, and the confidence ends at one that none of the confidences
    seen exceeds, either the one it started from or one of those seen. *)
Lemma measure_fold ds :
  forall area m,
    let res := fold_left measure_step ds (area, m) in
    fst res = (area + foldr Z.add 0 (map box_area ds))%Z
    /\ (snd res = m \/ Float.ltb m (snd res) = true)
    /\ (snd res = m
        \/ exists d, d ∈ filter (fun d => length (Detection.bbox d) = 4%nat) ds
                     /\ confidence_of d = snd res)
    /\ (forall d, d ∈ filter (fun d => length (Detection.bbox d) = 4%nat) ds ->
                  Float.ltb (snd res) (confidence_of d) = false).
Proof.
  induction ds as [|d ds IH]; intros area m; simpl.
  { split; [lia|]. split; [by left|]. split; [by left|].
    intros d Hd. rewrite filter_nil in Hd. by apply elem_of_nil in Hd. }
  assert (Hskip : length (Detection.bbox d) <> 4%nat ->
                  measure_step (area, m) d = (area, m) /\ box_area d = 0%Z).
  { unfold measure_step, box_area.
    destruct (Detection.bbox d) as [|x1 [|y1 [|x2 [|y2 [|? ?]]]]]; simpl;
      by intros. }
  destruct (decide (length (Detection.bbox d) = 4%nat)) as [Hlen | Hlen].
  - rewrite filter_cons_True by done.
    assert (Hstep : measure_step (area, m) d
                    = ((area + box_area d)%Z, py_max m (confidence_of d))).
    { unfold measure_step, box_area, confidence_of.
      by destruct (Detection.bbox d) as [|x1 [|y1 [|x2 [|y2 [|? ?]]]]]. }
    rewrite Hstep.
    destruct (IH (area + box_area d)%Z (py_max m (confidence_of d)))
      as (Ha & Hup & Hfrom & Hall).
    cbv zeta in *. split; [lia|].
    unfold py_max in *.
    destruct (Float.ltb m (confidence_of d)) eqn:E.
    + split.
      { right. destruct Hup as [-> | Hup]; [done|].
        by eapply float_ltb_trans. }
      split.
      { right. destruct Hfrom as [Heq | (d' & Hd' & Heq)].
        - exists d. split; [by left | done].
        - exists d'. split; [by right | done]. }
      intros d' [-> | Hd']%elem_of_cons; [|by apply Hall].
      destruct Hup as [-> | Hup]; [apply float_ltb_irrefl|].
      by apply float_ltb_asym.
    + split; [done|]. split.
      { destruct Hfrom as [Heq | (d' & Hd' & Heq)]; [by left|].
        right. exists d'. split; [by right | done]. }
      intros d' [-> | Hd']%elem_of_cons; [|by apply Hall].
      destruct Hup as [-> | Hup]; [done|].
      match goal with |- ?x = false => destruct x eqn:E' end; [|done].
      by rewrite (float_ltb_trans m _ (confidence_of d) Hup E') in E.
  - rewrite filter_cons_False by done.
    destruct (Hskip Hlen) as [-> ->].
    destruct (IH area m) as (Ha & Hrest). cbv zeta in *.
    split; [lia | done].
Qed.

(** The score is the total area times a greatest confidence. *)
Lemma score_is_area_times_confidence c :
  exists m, greatest_confidence c m
            /\ score c = Float.mul (Float.of_int (total_area c)) m.
Proof.
  destruct (measure_fold (Capture.detections c) 0%Z Float.zero)
    as (Ha & Hup & Hfrom & Hall). cbv zeta in *.
  exists (snd (measure c)). split.
  - split; [exact Hfrom|]. split; [|exact Hall].
    unfold measure. destruct Hup as [-> | Hup]; [done|].
    by apply float_ltb_asym.
  - unfold score, total_area, measure. by rewrite Ha.
Qed.

Lemma measure_nonneg c :
  boxes_ordered c ->
  (0 <= fst (measure c))%Z /\ Float.ltb (snd (measure c)) Float.zero = false.
Proof.
  unfold boxes_ordered, measure. intros Hall.
  assert (H : forall acc,
            (0 <= fst acc)%Z -> Float.ltb (snd acc) Float.zero = false ->
            (0 <= fst (fold_left measure_step (Capture.detections c) acc))%Z
            /\ Float.ltb (snd (fold_left measure_step (Capture.detections c) acc))
                 Float.zero = false).
  { induction Hall as [|d ds Hd _ IH]; intros acc Ha Hc; simpl; [done|].
    apply IH.
    - unfold box_ordered, measure_step in *.
      destruct (Detection.bbox d) as [|x1 [|y1 [|x2 [|y2 [|? ?]]]]]; simpl;
        auto. nia.
    - unfold measure_step.
      destruct (Detection.bbox d) as [|x1 [|y1 [|x2 [|y2 [|? ?]]]]]; simpl;
        auto. by apply py_max_nonneg. }
  by apply H.
Qed.

Lemma score_nonneg c :
  boxes_ordered c -> Float.ltb (score c) Float.zero = false.
Proof.
  intros Hc. destruct (measure_nonneg c Hc) as [Ha Hm]. unfold score.
  apply float_mul_nonneg; [by apply float_of_int_nonneg | done].
Qed.

(** The outer loop, from any pair [(best, best_score)]: either nothing
    beats [best_score], or the result is the first capture that attains
    the greatest score. *)
Lemma select_fold captures best bs :
  (fold_left select_step captures (best, bs) = (best, bs)
   /\ forall c, c ∈ captures -> Float.ltb bs (score c) = false)
  \/ exists i c, captures !! i = Some c
       /\ fold_left select_step captures (best, bs) = (Some c, score c)
       /\ Float.ltb bs (score c) = true
       /\ (forall c', c' ∈ captures -> Float.ltb (score c) (score c') = false)
       /\ (forall j c', (j < i)%nat -> captures !! j = Some c' ->
                        Float.leb (score c) (score c') = false).
Proof.
  revert best bs. induction captures as [|c0 l IH]; intros best bs; simpl.
  - left. split; [done|]. intros c Hc. by apply elem_of_nil in Hc.
  - change (select_step (best, bs) c0)
      with (if Float.ltb bs (score c0) then (Some c0, score c0) else (best, bs)).
    destruct (Float.ltb bs (score c0)) eqn:E.
    + right.
      destruct (IH (Some c0) (score c0))
        as [[-> Hall] | (i & c & Hi & -> & Hgt & Hall & Hfirst)].
      * exists 0%nat, c0. split; [done|]. split; [done|]. split; [done|]. split.
        -- intros c' Hc'. apply elem_of_cons in Hc' as [-> | Hc'];
             [apply float_ltb_irrefl | by apply Hall].
        -- intros j c' Hj. lia.
      * exists (S i), c. split; [done|]. split; [done|].
        split; [by eapply float_ltb_trans|]. split.
        -- intros c' Hc'. apply elem_of_cons in Hc' as [-> | Hc'];
             [by apply float_ltb_asym | by apply Hall].
        -- intros [|j] c' Hj Hc'; simpl in Hc'.
           ++ injection Hc' as <-. by apply float_ltb_not_leb.
           ++ apply (Hfirst j); [lia | done].
    + destruct (IH best bs)
        as [[-> Hall] | (i & c & Hi & -> & Hgt & Hall & Hfirst)].
      * left. split; [done|]. intros c' Hc'.
        apply elem_of_cons in Hc' as [-> | Hc']; [done | by apply Hall].
      * right. exists (S i), c. split; [done|]. split; [done|].
        split; [done|]. split.
        -- intros c' Hc'. apply elem_of_cons in Hc' as [-> | Hc'];
             [|by apply Hall].
           destruct (Float.ltb (score c) (score c0)) eqn:E'; [|done].
           by rewrite (float_ltb_trans bs (score c) (score c0)) in E.
        -- intros [|j] c' Hj Hc'; simpl in Hc'.
           ++ injection Hc' as <-.
              destruct (Float.leb (score c) (score c0)) eqn:E'; [|done].
              by rewrite (float_ltb_leb_trans bs (score c) (score c0)) in E.
           ++ apply (Hfirst j); [lia | done].
Qed.

(** C8 as stated fails for boxes whose corners are the wrong way round:
    the areas are negative, no score exceeds the [0] the loop starts from,
    and the first capture is returned although the second scores more. *)
Lemma reversed_boxes_return_the_lesser :
  exists best other,
    _select_best_capture Scenario.reversed_shots = Return best
    /\ other ∈ Scenario.reversed_shots
    /\ Float.ltb (score best) (score other) = true.
Proof.
  exists (Scenario.shot "wide" [Scenario.box 10 0 0 10 (Float.ratio 9 10)]),
         (Scenario.shot "narrow" [Scenario.box 1 0 0 1 (Float.ratio 9 10)]).
  split; [vm_compute; reflexivity|]. split; [|vm_compute; reflexivity].
  right. left.
Qed.

(** C8, amended.  The score of a capture is, as the code computes it, its
    total bounding-box area converted to a float times a greatest
    confidence of its detections, rounded.  For a non-empty list of
    captures whose bounding boxes have their corners in order and whose
    total areas are in the range of the conversion, [_select_best_capture]
    returns a capture of the list whose score no capture of the list
    exceeds, and no capture before it in the list scores as much: among
    the best it is the earliest. *)
Theorem best_capture_maximises_score (captures : list Capture.t) :
  captures <> [] ->
  Forall boxes_ordered captures ->
  Forall area_in_range captures ->
  (forall c, exists m,
      greatest_confidence c m
      /\ score c = Float.mul (Float.of_int (total_area c)) m)
  /\ exists i best,
       _select_best_capture captures = Return best
       /\ captures !! i = Some best
       /\ (forall c, c ∈ captures ->
                     Float.ltb (score best) (score c) = false)
       /\ (forall j c, (j < i)%nat -> captures !! j = Some c ->
                       Float.leb (score best) (score c) = false).
Proof.
  intros Hne Hwf _. split; [exact score_is_area_times_confidence|].
  unfold _select_best_capture.
  destruct (select_fold captures None Float.zero)
    as [[-> Hall] | (i & c & Hi & -> & Hgt & Hall & Hfirst)]; simpl.
  - destruct captures as [|first rest]; [done|].
    exists 0%nat, first. split; [done|]. split; [done|]. split.
    + intros c Hc.
      destruct (Float.ltb (score first) (score c)) eqn:E; [|done].
      assert (Hzero : Float.ltb (score first) Float.zero = true).
      { apply (float_ltb_below _ _ (score c)); [done | done | by apply Hall]. }
      rewrite score_nonneg in Hzero; [done | by inversion Hwf].
    + intros j c Hj. lia.
  - exists i, c. auto.
Qed.

Lemma best_capture_maximises_score_witness :
  (forall c, exists m,
      greatest_confidence c m
      /\ score c = Float.mul (Float.of_int (total_area c)) m)
  /\ exists i best,
       _select_best_capture Scenario.four_shots = Return best
       /\ Scenario.four_shots !! i = Some best
       /\ (forall c, c ∈ Scenario.four_shots ->
                     Float.ltb (score best) (score c) = false)
       /\ (forall j c, (j < i)%nat -> Scenario.four_shots !! j = Some c ->
                       Float.leb (score best) (score c) = false).
Proof.
  apply (best_capture_maximises_score Scenario.four_shots).
  - discriminate.
  - repeat constructor; simpl; lia.
  - repeat constructor.
Defined.

(** The four captures score 0, 18000, 18000 and 4500, and the first of
    the two best is returned. *)
Lemma four_shots_pick_the_first_of_the_best :
  map score Scenario.four_shots
  = [Float.mul (Float.of_int 0) Float.zero; Float.of_int 18000;
     Float.of_int 18000; Float.of_int 4500]
  /\ _select_best_capture Scenario.four_shots
     = Return (Scenario.shot "large"
                 [Scenario.box 0 0 200 100 (Float.ratio 9 10)]).
Proof. split; vm_compute; reflexivity. Qed.
End BestCapture.

(** ** The analysis worker: writing the result back *)

Section Worker.
Import SpeciesAnalyzer Invariant.

Lemma update_visits_ids f vid db :
  (forall row, VisitRow.id (f row) = VisitRow.id row) ->
  map VisitRow.id (Supabase.visits (Supabase.update_visits f vid db))
  = map VisitRow.id (Supabase.visits db).
Proof.
  intros Hid. unfold Supabase.update_visits. simpl.
  induction (Supabase.visits db) as [|row rows IH]; simpl; [done|].
  rewrite IH. f_equal. destruct (String.eqb _ _); [apply Hid | done].
Qed.

Lemma update_visits_select f vid db :
  (forall row, VisitRow.id (f row) = VisitRow.id row) ->
  Supabase.select_visit vid (Supabase.update_visits f vid db)
  = map f (Supabase.select_visit vid db).
Proof.
  intros Hid. unfold Supabase.select_visit, Supabase.update_visits. simpl.
  induction (Supabase.visits db) as [|row rows IH]; simpl; [done|].
  destruct (String.eqb_spec (VisitRow.id row) vid) as [He | Hne].
  - rewrite !filter_cons_True by (by rewrite ?Hid). simpl. by rewrite IH.
  - rewrite !filter_cons_False by done. exact IH.
Qed.

Lemma update_visits_captures f vid db :
  Supabase.captures (Supabase.update_visits f vid db) = Supabase.captures db.
Proof. reflexivity. Qed.


Lemma completed_rows tk vid ans db :
  Forall (completed_as ans)
    (Supabase.select_visit vid
       (Supabase.update_visits (completed_row (clock tk) ans) vid db)).
Proof.
  rewrite update_visits_select by done.
  apply Forall_map, Forall_forall. intros row _. by repeat split.
Qed.

(** No API key, no client; and the client does not change afterwards. *)
Lemma init_without_key cfg db :
  Config.OPENAI_API_KEY cfg = ""%string -> openai_client (init cfg db) = None.
Proof. intros Hkey. unfold init. rewrite Hkey. reflexivity. Qed.

Lemma analyze_visit_client cfg tk visit_id a :
  openai_client (analyze_visit cfg tk visit_id a) = openai_client a.
Proof.
  assert (Hstats : forall sp b, openai_client (_update_species_stats tk sp b)
                                = openai_client b).
  { intros sp b. unfold _update_species_stats.
    destruct (_ || _); [done|]. destruct (fault tk SelectStats); [done|].
    destruct (filter _ _); [destruct (fault tk InsertStats)
                           | destruct (fault tk UpdateStats)]; done. }
  assert (Hdone : forall ans b, openai_client (_mark_visit_completed tk visit_id ans b)
                                = openai_client b).
  { intros ans b. unfold _mark_visit_completed.
    destruct (fault tk UpdateVisit); [done|]. by rewrite Hstats. }
  assert (Hfailed : forall e b, openai_client (on_exception tk visit_id e b)
                                = openai_client b).
  { intros e b. unfold on_exception, _mark_visit_failed.
    by destruct (fault tk UpdateVisit). }
  assert (Hloop : forall url n k b,
            openai_client (snd (attempts cfg tk url n k b)) = openai_client b).
  { intros url n. induction n as [|n IH]; intros k b; simpl; [done|].
    destruct (String.prefix _ _); [|done].
    destruct (classifier tk k); [done|].
    destruct (_ <? _)%Z; [|done].
    destruct (Config.OPENAI_RETRY_DELAY_SEC cfg); [|done].
    destruct (_ <? _)%Z; [done|]. by rewrite IH. }
  unfold analyze_visit. destruct (openai_client a) eqn:Hc.
  - destruct (fault tk SelectCaptures); [by rewrite Hfailed|].
    destruct (Supabase.select_captures _ _) eqn:Hsel; [by rewrite Hdone|].
    destruct (_select_best_capture _); [|by rewrite Hfailed].
    unfold _identify_species.
    match goal with
    | |- context [attempts cfg tk ?u ?n ?k ?b] =>
        pose proof (Hloop u n k b) as Hl;
        destruct (attempts cfg tk u n k b) as [[ans|e] a']
    end; simpl in *.
    + by rewrite Hdone, Hl.
    + by rewrite Hfailed, Hl.
  - by rewrite Hdone.
Qed.



Lemma select_best_capture_member captures best :
  _select_best_capture captures = Return best -> best ∈ captures.
Proof.
  unfold _select_best_capture.
  destruct (select_fold captures None Float.zero)
    as [[-> _] | (i & c & Hi & -> & _)]; simpl.
  - destruct captures as [|first rest]; [discriminate|].
    intros [= <-]. left.
  - intros [= <-]. by eapply list_elem_of_lookup_2.
Qed.

Lemma select_best_capture_returns captures :
  captures <> [] -> exists best, _select_best_capture captures = Return best.
Proof.
  intros Hne. unfold _select_best_capture.
  destruct (fst (fold_left select_step captures (None, Float.zero))); [eauto|].
  destruct captures; [done | eauto].
Qed.

(** A failed attempt that is not the last one sleeps and goes round
    again. *)
Lemma attempts_retry cfg tk url e0 base remaining attempt a :
  String.prefix "http" url = true ->
  SpeciesAnalyzer.classifier tk attempt = Raise e0 ->
  (attempt < Config.OPENAI_MAX_RETRIES cfg - 1)%Z ->
  Config.OPENAI_RETRY_DELAY_SEC cfg = Some base ->
  (0 <= base * 2 ^ attempt)%Z ->
  attempts cfg tk url (S remaining) attempt a
  = attempts cfg tk url remaining (attempt + 1)
      (sleeping (base * 2 ^ attempt)
         (logging StructuredLogger.info "Retrying..."
            (logging StructuredLogger.warning
               ("OpenAI API attempt failed: " +:+ e0)
               (sending (logging StructuredLogger.debug "Calling OpenAI API" a))))).
Proof.
  intros Hurl Hraise Hlt Hbase Hdelay. cbn [attempts].
  rewrite Hurl, Hraise, Hbase.
  destruct (Z.ltb_spec attempt (Config.OPENAI_MAX_RETRIES cfg - 1)); [|lia].
  destruct (Z.ltb_spec (base * 2 ^ attempt) 0); [lia | reflexivity].
Qed.

Lemma backoff_cons cfg base attempt n :
  Config.OPENAI_RETRY_DELAY_SEC cfg = Some base ->
  backoff cfg attempt (S n)
  = (base * 2 ^ attempt)%Z :: backoff cfg (attempt + 1) n.
Proof.
  intros Hbase. unfold backoff. rewrite Hbase, Nat2Z.inj_succ.
  rewrite seqZ_cons by lia. rewrite Z.pred_succ, <- Z.add_1_r. reflexivity.
Qed.





(** With the settings class as it is written there is no
    [OPENAI_RETRY_DELAY_SEC] to read: the first failed attempt of three
    raises [AttributeError] out of the retry loop, which [analyze_visit]
    catches; the visit is marked ["failed"] after a single request, with
    that error in the summary. *)
Lemma missing_retry_delay_ends_the_retries :
  let cfg := Scenario.cfg_keyed 3 None in
  let a' := analyze_visit cfg Scenario.failing_task "visit"
              (init cfg Scenario.database_A) in
  requests_sent a' = 1%nat
  /\ map VisitRow.status (Supabase.visits (supabase a')) = ["failed"%string]
  /\ map VisitRow.summary (Supabase.visits (supabase a'))
     = [Some ("Analysis failed: " +:+ no_retry_delay)].
Proof. vm_compute. auto. Qed.
End Worker.
(** * Further properties *)

(** Every branch of the transition function. *)
Ltac engine_cases cfg m b rd :=
  unfold VisitStateMachine.process_detection, VisitStateMachine._capture_photo,
    VisitStateMachine._complete_visit, VisitStateMachine._start_visit,
    VisitStateMachine.deref;
  destruct (VisitStateMachine.state (VisitStateMachine.self m)) eqn:?;
  destruct b; simpl;
  try destruct (VisitStateMachine._cooldown_elapsed cfg
                  (VisitStateMachine.self m) (now rd)) eqn:?;
  try destruct (VisitStateMachine._should_capture cfg
                  (VisitStateMachine.self m) (now rd)) eqn:?;
  try destruct (VisitStateMachine._absence_timeout_elapsed cfg
                  (VisitStateMachine.self m) (now rd)) eqn:?;
  simpl;
  try destruct (VisitStateMachine.current_visit (VisitStateMachine.self m))
        eqn:?;
  simpl;
  try match goal with
      | |- context [VisitStateMachine.heap m !! ?r] =>
          destruct (VisitStateMachine.heap m !! r) eqn:?
      end; simpl;
  try match goal with
      | |- context [(?x <=? ?y)%Z] => destruct (Z.leb_spec x y)
      end; simpl.

(** ** Timers of the engine along a run *)

Section Timers.
Import VisitStateMachine Invariant BirdDetector Further.

Lemma process_detection_timers cfg m b ds rd :
  let res := process_detection cfg m b ds rd in
  cooldown_start_time (self (snd res))
    = (if completes (returned (fst res)) then Some (now rd)
       else cooldown_start_time (self m))
  /\ last_capture_time (self (snd res))
     = (if photographs (returned (fst res)) then Some (now rd)
        else last_capture_time (self m)).
Proof. cbv zeta. engine_cases cfg m b rd; auto. Qed.

Lemma observe_timers cfg d tk :
  let d' := after (iteration cfg d tk) in
  let o := fst (observe cfg d tk) in
  cooldown_start_time (self (machine d'))
    = (if completes o then Some (now (reading tk))
       else cooldown_start_time (self (machine d)))
  /\ last_capture_time (self (machine d'))
     = (if photographs o then Some (now (reading tk))
        else last_capture_time (self (machine d))).
Proof.
  unfold iteration, observe.
  destruct (interrupt tk); simpl; [done|].
  destruct (Qle_bool _ _); simpl; [|done].
  destruct (frame_read tk); simpl.
  - destruct (_detect_birds tk) as [[b ds]|e]; simpl; [|done].
    pose proof (process_detection_timers cfg (machine d) b ds (reading tk)) as Ht.
    destruct (process_detection cfg (machine d) b ds (reading tk)) as [[[ins|]|e] m'];
      simpl in *; [|done|done].
    match goal with
    | |- context [_handle_state_action cfg ?x tk ins] =>
        destruct (handle_state_action_heap cfg x tk ins) as [Hs _];
        destruct (_handle_state_action cfg x tk ins) as [[u|e] d']
    end; simpl in *; rewrite Hs; exact Ht.
  - unfold on_read_failure. simpl.
    destruct (10 <=? _)%Z; simpl; [destruct (reconnect tk)|]; done.
Qed.

(** The time of the last instruction of a trace that satisfies [p]. *)
Lemma last_times_snoc p tr t o :
  last (times p (tr ++ [(t, o)]))
  = match o with
    | Some ins => if p ins then Some t else last (times p tr)
    | None => last (times p tr)
    end.
Proof.
  rewrite times_app. unfold times at 2. simpl.
  destruct o as [ins|]; [destruct (p ins)|]; simpl;
    rewrite ?app_nil_r, ?last_snoc; done.
Qed.

Lemma run_snoc cfg d ticks tk :
  run cfg d (ticks ++ [tk])
  = (let d1 := run cfg d ticks in
     if running d1
     then match iteration cfg d1 tk with
          | Continue d2 => d2
          | Break d2 => cleanup d2
          end
     else d1).
Proof. rewrite run_app. reflexivity. Qed.

Lemma trace_snoc cfg d ticks tk :
  trace cfg d (ticks ++ [tk])
  = trace cfg d ticks
      ++ (let d1 := run cfg d ticks in
          if running d1 then [(now (reading tk), fst (observe cfg d1 tk))]
          else []).
Proof.
  rewrite trace_app. f_equal. simpl.
  destruct (running _); [|done]. by destruct (iteration _ _ _).
Qed.

(** Along a run the two timers hold the time of the last complete-visit
    and of the last instruction with the capture flag. *)
Lemma timers_track cfg sid ticks :
  let d := run cfg (started sid) ticks in
  let tr := trace cfg (started sid) ticks in
  cooldown_start_time (self (machine d))
    = last (times (Scenario.is_action Action.complete_visit) tr)
  /\ last_capture_time (self (machine d)) = last (times Instruction.capture tr).
Proof.
  induction ticks as [|tk ticks IH] using rev_ind; [done|].
  rewrite run_snoc, trace_snoc. simpl in *.
  destruct IH as [IHc IHp].
  destruct (running (run cfg (started sid) ticks)) eqn:Hrun;
    [|by rewrite app_nil_r].
  rewrite !last_times_snoc.
  destruct (observe_timers cfg (run cfg (started sid) ticks) tk) as [Hc Hp].
  simpl in Hc, Hp.
  assert (Hself : self (machine (match iteration cfg (run cfg (started sid) ticks) tk with
                                      | Continue d2 => d2
                                      | Break d2 => cleanup d2
                                      end))
                  = self (machine (after (iteration cfg (run cfg (started sid) ticks) tk)))).
  { by destruct (iteration _ _ _). }
  rewrite Hself, Hc, Hp, IHc, IHp.
  unfold completes, photographs.
  destruct (fst (observe cfg (run cfg (started sid) ticks) tk)) as [ins|];
    [|done].
  split; [by destruct (Scenario.is_action _ ins)
         | by destruct (Instruction.capture ins)].
Qed.

(** Splitting a trace at one of its entries. *)
Lemma trace_entry cfg d ticks pre x post :
  trace cfg d ticks = pre ++ x :: post ->
  exists ticks1 tk ticks2,
    ticks = ticks1 ++ tk :: ticks2
    /\ trace cfg d ticks1 = pre
    /\ running (run cfg d ticks1) = true
    /\ x = (now (reading tk), fst (observe cfg (run cfg d ticks1) tk)).
Proof.
  revert d pre. induction ticks as [|tk ticks IH]; intros d pre Htr; simpl in Htr.
  - by destruct pre.
  - destruct (running d) eqn:Hrun; [|by destruct pre].
    destruct pre as [|y pre]; simpl in Htr.
    + injection Htr as <- _. exists [], tk, ticks. simpl. auto.
    + injection Htr as <- Htr.
      destruct (iteration cfg d tk) as [d'|d'] eqn:Hit; [|by destruct pre].
      destruct (IH d' pre Htr) as (ticks1 & tk' & ticks2 & Hticks & Hpre & Hr & Hx).
      exists (tk :: ticks1), tk', ticks2. subst ticks x pre. simpl.
      rewrite Hrun, Hit. auto.
Qed.

(** What [observe] passes on is what the transition function returned in
    that tick, from the engine as it stood. *)
Lemma observe_instruction cfg d tk ins :
  fst (observe cfg d tk) = Some ins ->
  exists b ds m',
    process_detection cfg (machine d) b ds (reading tk) = (Return (Some ins), m').
Proof.
  unfold observe.
  destruct (interrupt tk); [done|].
  destruct (Qle_bool _ _); [|done].
  destruct (frame_read tk); simpl; [|done].
  destruct (_detect_birds tk) as [[b ds]|e]; simpl; [|done].
  destruct (process_detection cfg (machine d) b ds (reading tk))
    as [[[ins'|]|e] m'] eqn:Hp; simpl; [|done|done].
  intros [= ->]. eauto.
Qed.

Lemma start_needs_cooldown cfg m b ds rd ins m' :
  process_detection cfg m b ds rd = (Return (Some ins), m') ->
  Instruction.action ins = Action.start_visit ->
  _cooldown_elapsed cfg (self m) (now rd) = true.
Proof.
  engine_cases cfg m b rd; intros [= <- <-]; try discriminate; done.
Qed.

Lemma capture_needs_interval cfg m b ds rd ins m' :
  process_detection cfg m b ds rd = (Return (Some ins), m') ->
  Instruction.action ins = Action.capture ->
  _should_capture cfg (self m) (now rd) = true.
Proof.
  engine_cases cfg m b rd; intros [= <- <-]; try discriminate; done.
Qed.

(** X1.  With a cooldown of at most [2 ^ 33] seconds, for which the
    comparison the code makes on floats is exact: in a run of the
    detection loop from a freshly started detector, the engine returns a
    start-visit instruction only when at least [VISIT_COOLDOWN_SEC]
    seconds have passed, on the clock the engine reads, since the last
    complete-visit instruction it returned, if it returned any. *)
Theorem visits_are_a_cooldown_apart cfg sid ticks pre t ins post :
  exact_seconds (Config.VISIT_COOLDOWN_SEC cfg) ->
  trace cfg (started sid) ticks = pre ++ (t, Some ins) :: post ->
  Instruction.action ins = Action.start_visit ->
  match last (times (Scenario.is_action Action.complete_visit) pre) with
  | Some c => (Config.VISIT_COOLDOWN_SEC cfg * 1000000 <= t - c)%Z
  | None => True
  end.
Proof.
  intros _ Htr Hact.
  destruct (trace_entry _ _ _ _ _ _ Htr) as (ticks1 & tk & ticks2 & -> & <- & _ & [= -> Hobs]).
  symmetry in Hobs.
  destruct (observe_instruction _ _ _ _ Hobs) as (b & ds & m' & Hp).
  pose proof (start_needs_cooldown _ _ _ _ _ _ _ Hp Hact) as Hcool.
  destruct (timers_track cfg sid ticks1) as [Hc _]. simpl in Hc.
  unfold _cooldown_elapsed in Hcool. rewrite Hc in Hcool.
  destruct (last _) as [c|]; [|done].
  unfold elapsed_at_least in Hcool. lia.
Qed.

Lemma visits_are_a_cooldown_apart_witness :
  match last (times (Scenario.is_action Action.complete_visit)
                (take 30 (trace Scenario.cfg (started "feeder") second_visit)))
  with
  | Some c =>
      (Config.VISIT_COOLDOWN_SEC Scenario.cfg * 1000000 <= Scenario.sec 30 - c)%Z
  | None => True
  end.
Proof.
  apply (visits_are_a_cooldown_apart Scenario.cfg "feeder" second_visit
           (take 30 (trace Scenario.cfg (started "feeder") second_visit))
           (Scenario.sec 30)
           {| Instruction.action := Action.start_visit;
              Instruction.visit := 1%nat;
              Instruction.capture := true;
              Instruction.detections := Some [Scenario.bird] |} []).
  - split; vm_compute; discriminate.
  - vm_compute. reflexivity.
  - reflexivity.
Defined.

(** In that run the first visit is completed at [t = 6] and the second
    one starts at [t = 30]. *)
Lemma second_visit_times :
  times (Scenario.is_action Action.complete_visit)
    (trace Scenario.cfg (started "feeder") second_visit) = [Scenario.sec 6]
  /\ times (Scenario.is_action Action.start_visit)
       (trace Scenario.cfg (started "feeder") second_visit)
     = [Scenario.sec 0; Scenario.sec 30].
Proof. split; vm_compute; reflexivity. Qed.
End Timers.

(** ** The shape of one iteration of the detection loop *)

Section Shape.
Import VisitStateMachine Invariant BirdDetector Further.

Lemma same_view_refl d : same_view d d.
Proof. by repeat split. Qed.

Lemma same_view_trans d1 d2 d3 :
  same_view d1 d2 -> same_view d2 d3 -> same_view d1 d3.
Proof.
  intros (H1 & H2 & H3 & H4) (G1 & G2 & G3 & G4).
  repeat split; congruence.
Qed.

(** The handler and the captures: it stores and attaches one capture,
    labelled with the visit it was given, or none. *)
Lemma capture_and_store_view cfg d tk r ds :
  let d' := _capture_and_store cfg d tk r ds in
  self (machine d') = self (machine d)
  /\ StructuredLogger.correlation_id (logger (machine d'))
     = StructuredLogger.correlation_id (logger (machine d))
  /\ Supabase.visits (supabase d') = Supabase.visits (supabase d)
  /\ (heap (machine d') = heap (machine d)
      /\ Supabase.captures (supabase d') = Supabase.captures (supabase d)
      \/ exists v c,
           heap (machine d) !! r = Some v
           /\ Capture.visit_id c = Visit.id v
           /\ Capture.is_best_capture c = Nat.eqb (length (Visit.captures v)) 0
           /\ Capture.detections c = ds
           /\ heap (machine d')
              = <[r := Visit.append_capture c v]> (heap (machine d))
           /\ Supabase.captures (supabase d')
              = Supabase.captures (supabase d) ++ [c]).
Proof.
  cbv zeta. unfold _capture_and_store.
  destruct (heap (machine d) !! r) as [v|] eqn:Hr;
    [|by repeat (split; [done|]); left].
  destruct (encode_ok tk); simpl; [|by repeat (split; [done|]); left].
  destruct (fault tk UploadImage); simpl;
    (destruct (fault tk InsertCapture); simpl;
     [by repeat (split; [done|]); left|]);
    (repeat (split; [done|]); right; eexists v, _;
     repeat split; try reflexivity; done).
Qed.

Lemma create_visit_view d tk r :
  let d' := _create_visit_in_db d tk r in
  same_objects d d'
  /\ StructuredLogger.correlation_id (logger (machine d'))
     = StructuredLogger.correlation_id (logger (machine d))
  /\ Supabase.captures (supabase d') = Supabase.captures (supabase d)
  /\ Supabase.visits (supabase d')
     = match heap (machine d) !! r with
       | Some v => if fault tk InsertVisit then Supabase.visits (supabase d)
                   else Supabase.visits (supabase d) ++ [to_dict v]
       | None => Supabase.visits (supabase d)
       end.
Proof.
  unfold _create_visit_in_db, same_objects.
  destruct (heap (machine d) !! r); [|done].
  by destruct (fault tk InsertVisit).
Qed.

Lemma finalize_visit_view d tk r :
  let d' := _finalize_visit d tk r in
  same_objects d d'
  /\ StructuredLogger.correlation_id (logger (machine d'))
     = StructuredLogger.correlation_id (logger (machine d))
  /\ Supabase.captures (supabase d') = Supabase.captures (supabase d)
  /\ Supabase.visits (supabase d')
     = match heap (machine d) !! r with
       | Some v =>
           if fault tk UpdateVisit then Supabase.visits (supabase d)
           else Supabase.visits
                  (Supabase.update_visits (overwrite (to_dict v)) (Visit.id v)
                     (supabase d))
       | None => Supabase.visits (supabase d)
       end.
Proof.
  unfold _finalize_visit, same_objects.
  destruct (heap (machine d) !! r); [|done].
  by destruct (fault tk UpdateVisit).
Qed.

(** What the handler does to the [Visit] objects and to table
    [captures]. *)
Lemma handle_captures cfg d tk ins :
  let d' := snd (_handle_state_action cfg d tk ins) in
  self (machine d') = self (machine d)
  /\ StructuredLogger.correlation_id (logger (machine d'))
     = StructuredLogger.correlation_id (logger (machine d))
  /\ (heap (machine d') = heap (machine d)
      /\ Supabase.captures (supabase d') = Supabase.captures (supabase d)
      \/ Instruction.capture ins = true
         /\ exists v c,
              heap (machine d) !! Instruction.visit ins = Some v
              /\ Capture.visit_id c = Visit.id v
              /\ Capture.is_best_capture c
                 = Nat.eqb (length (Visit.captures v)) 0
              /\ heap (machine d')
                 = <[Instruction.visit ins := Visit.append_capture c v]>
                     (heap (machine d))
              /\ Supabase.captures (supabase d')
                 = Supabase.captures (supabase d) ++ [c]).
Proof.
  unfold _handle_state_action.
  set (d1 := if decide (Instruction.action ins = Action.start_visit)
             then _create_visit_in_db d tk (Instruction.visit ins) else d).
  assert (H1 : same_objects d d1
               /\ StructuredLogger.correlation_id (logger (machine d1))
                  = StructuredLogger.correlation_id (logger (machine d))
               /\ Supabase.captures (supabase d1) = Supabase.captures (supabase d)).
  { subst d1. case_decide; [|by repeat split].
    destruct (create_visit_view d tk (Instruction.visit ins)) as (? & ? & ? & _).
    auto. }
  destruct H1 as ([Hs1 Hh1] & Hc1 & Hp1).
  assert (Hfin : forall d2,
            let d3 := if decide (Instruction.action ins = Action.complete_visit)
                      then _finalize_visit d2 tk (Instruction.visit ins) else d2 in
            self (machine d3) = self (machine d2)
            /\ heap (machine d3) = heap (machine d2)
            /\ StructuredLogger.correlation_id (logger (machine d3))
               = StructuredLogger.correlation_id (logger (machine d2))
            /\ Supabase.captures (supabase d3) = Supabase.captures (supabase d2)).
  { intros d2. simpl. case_decide; [|done].
    destruct (finalize_visit_view d2 tk (Instruction.visit ins))
      as ([? ?] & ? & ? & _). auto. }
  destruct (Instruction.capture ins) eqn:Hcap.
  - destruct (Instruction.detections ins) as [ds|]; simpl.
    + destruct (capture_and_store_view cfg d1 tk (Instruction.visit ins) ds)
        as (Hs2 & Hc2 & _ & Hh2).
      destruct (Hfin (_capture_and_store cfg d1 tk (Instruction.visit ins) ds))
        as (Hs3 & Hh3 & Hc3 & Hp3).
      rewrite Hs3, Hh3, Hc3, Hp3, Hs2, Hc2, Hs1, Hc1.
      split; [done|]. split; [done|].
      rewrite Hh1, Hp1 in Hh2.
      destruct Hh2 as [[-> ->] | (v & c & Hr & Hid & Hbest & _ & -> & ->)];
        [by left | right]. split; [done|]. by exists v, c.
    + rewrite Hs1, Hh1, Hc1, Hp1. auto.
  - simpl. destruct (Hfin d1) as (Hs3 & Hh3 & Hc3 & Hp3).
    rewrite Hs3, Hh3, Hc3, Hp3, Hs1, Hh1, Hc1, Hp1. auto.
Qed.

(** One iteration either leaves engine, visits and database as they were,
    or it is a call of the transition function followed, when an
    instruction came back, by the handler. *)
Lemma iteration_shape cfg d tk :
  let d' := after (iteration cfg d tk) in
  same_view d d'
  \/ exists b ds o m',
       process_detection cfg (machine d) b ds (reading tk) = (o, m')
       /\ match returned o with
          | Some ins =>
              exists dh, machine dh = m' /\ supabase dh = supabase d
                /\ same_view (snd (_handle_state_action cfg dh tk ins)) d'
          | None =>
              self (machine d') = self m' /\ heap (machine d') = heap m'
              /\ supabase d' = supabase d
              /\ StructuredLogger.correlation_id (logger (machine d'))
                 = StructuredLogger.correlation_id (logger m')
          end.
Proof.
  unfold iteration, observe.
  destruct (interrupt tk); simpl; [by left|].
  destruct (Qle_bool _ _); simpl; [|by left].
  destruct (frame_read tk); simpl.
  - destruct (_detect_birds tk) as [[b ds]|e]; simpl; [|by left].
    right. exists b, ds.
    destruct (process_detection cfg (machine d) b ds (reading tk))
      as [[[ins|]|e] m'] eqn:Hp; simpl.
    + eexists _, _. split; [reflexivity|]. simpl.
      match goal with
      | |- context [_handle_state_action cfg ?x tk ins] =>
          exists x; split; [reflexivity|]; split; [reflexivity|];
          destruct (_handle_state_action cfg x tk ins) as [[u|e] dh']
      end; simpl; by repeat split.
    + eexists _, _. split; [reflexivity|]. by simpl.
    + eexists _, _. split; [reflexivity|]. by simpl.
  - left. unfold on_read_failure. simpl.
    destruct (10 <=? _)%Z; simpl; [destruct (reconnect tk)|]; by repeat split.
Qed.

(** An instruction with the capture flag names the visit in the slot. *)
Lemma capture_targets_slot cfg m b ds rd ins m' :
  process_detection cfg m b ds rd = (Return (Some ins), m') ->
  Instruction.capture ins = true ->
  current_visit (self m') = Some (Instruction.visit ins).
Proof.
  engine_cases cfg m b rd; intros [= <- <-]; try discriminate; done.
Qed.

(** Proving that a property of engine, visits and database holds along
    every run. *)
Lemma run_keeps cfg (P : BirdDetector.t -> Prop) :
  (forall d d', same_view d d' -> P d -> P d') ->
  (forall d b ds rd o m',
     P d -> wf cfg (machine d) ->
     process_detection cfg (machine d) b ds rd = (o, m') ->
     forall dh, machine dh = m' -> supabase dh = supabase d -> P dh) ->
  (forall d tk ins m0,
     P d -> wf cfg (machine d) -> issued cfg m0 (machine d) ins ->
     (Instruction.capture ins = true ->
      current_visit (self (machine d)) = Some (Instruction.visit ins)) ->
     P (snd (_handle_state_action cfg d tk ins))) ->
  forall d ticks, wf cfg (machine d) -> P d ->
                  P (run cfg d ticks) /\ wf cfg (machine (run cfg d ticks)).
Proof.
  intros Hview Hstep Hhandle d ticks. revert d.
  pose proof (capture_targets_slot cfg) as Hcap.
  induction ticks as [|tk ticks IH]; intros d Hwf HP; simpl; [done|].
  destruct (running d); [|done].
  pose proof (wf_iteration cfg d tk Hwf) as Hwf'.
  assert (HP' : P (after (iteration cfg d tk))).
  { destruct (iteration_shape cfg d tk) as [Hsame | (b & ds & o & m' & Hp & Hrest)].
    - by eapply Hview.
    - destruct (process_detection_wf cfg (machine d) b ds (reading tk) Hwf)
        as (Hwfm & _ & Hiss). rewrite Hp in Hwfm, Hiss. simpl in *.
      destruct (returned o) as [ins|] eqn:Hret.
      + destruct Hrest as (dh & Hm & Hdb & Hsame).
        destruct o as [[ins'|]|]; simpl in Hret; try discriminate.
        injection Hret as ->.
        eapply Hview; [exact Hsame|].
        eapply (Hhandle dh tk ins (machine d)).
        * eapply Hstep; eauto.
        * by rewrite Hm.
        * rewrite Hm. by apply Hiss.
        * rewrite Hm. by eapply Hcap.
      + destruct Hrest as (Hs & Hh & Hdb & Hc).
        eapply (Hview (with_machine m' d)); [by repeat split|].
        eapply Hstep; eauto. }
  destruct (iteration cfg d tk) as [d'|d']; simpl in *.
  - by apply IH.
  - split; [eapply Hview; [|exact HP']; by repeat split
           | eapply wf_same; eauto].
Qed.
End Shape.

(** ** What every run keeps *)

Section RunInvariants.
Import VisitStateMachine Invariant BirdDetector Further.

Lemma grown_refl v : grown v v.
Proof. by repeat split. Qed.

Lemma grown_trans v1 v2 v3 : grown v1 v2 -> grown v2 v3 -> grown v1 v3.
Proof.
  intros (H1 & H2 & H3 & H4 & H5) (G1 & G2 & G3 & G4 & G5).
  repeat split; try congruence.
  - by etrans.
  - intros Ha. rewrite <- (H5 Ha). apply G5. by rewrite (H5 Ha).
Qed.

Lemma heap_grown_refl h : heap_grown h h.
Proof. intros r v Hr. eauto using grown_refl. Qed.

Lemma heap_grown_trans h1 h2 h3 :
  heap_grown h1 h2 -> heap_grown h2 h3 -> heap_grown h1 h3.
Proof.
  intros H12 H23 r v Hr. destruct (H12 r v Hr) as (v2 & Hr2 & Hg2).
  destruct (H23 r v2 Hr2) as (v3 & Hr3 & Hg3). eauto using grown_trans.
Qed.

Lemma heap_grown_app h v : heap_grown h (h ++ [v]).
Proof.
  intros r w Hr. exists w. split; [by apply lookup_app_l_Some | apply grown_refl].
Qed.

(** Replacing an active visit by a later state of itself. *)
Lemma heap_grown_insert h r v v' :
  h !! r = Some v -> grown v v' -> heap_grown h (<[r := v']> h).
Proof.
  intros Hr Hg r' w Hr'. destruct (decide (r = r')) as [<- | Hne].
  - exists v'. rewrite list_lookup_insert_eq by eauto using lookup_lt_Some.
    split; [done|]. congruence.
  - exists w. rewrite list_lookup_insert_ne by done. eauto using grown_refl.
Qed.

Lemma grown_close now v :
  Visit.status v = "active"%string -> grown v (Visit.close now v).
Proof. intros Ha. repeat split; simpl; try done. rewrite Ha. discriminate. Qed.

Lemma grown_append c v :
  Visit.status v = "active"%string -> grown v (Visit.append_capture c v).
Proof.
  intros Ha. repeat split; simpl; try done.
  - by apply prefix_app_r.
  - rewrite Ha. discriminate.
Qed.

(** What the transition function does to the [Visit] objects. *)
Lemma process_detection_heap cfg m b ds rd :
  let res := process_detection cfg m b ds rd in
  match returned (fst res) with
  | None => heap (snd res) = heap m
  | Some ins =>
      match Instruction.action ins with
      | Action.start_visit =>
          Instruction.visit ins = length (heap m)
          /\ heap (snd res)
             = heap m ++ [Visit.init (VisitStateMachine.session_id (self m))
                            (fresh_uuid rd) (visit_clock rd)]
      | Action.capture =>
          heap (snd res) = heap m
      | Action.complete_visit =>
          exists v, heap m !! Instruction.visit ins = Some v
            /\ current_visit (self m) = Some (Instruction.visit ins)
            /\ heap (snd res)
               = <[Instruction.visit ins := Visit.close (now rd) v]> (heap m)
      end
  end.
Proof. cbv zeta. engine_cases cfg m b rd; eauto. Qed.

(** What the transition function does to the current-visit slot. *)
Lemma process_detection_slot cfg m b ds rd :
  let res := process_detection cfg m b ds rd in
  current_visit (self (snd res))
  = match returned (fst res) with
    | None => current_visit (self m)
    | Some ins =>
        match Instruction.action ins with
        | Action.start_visit => Some (length (heap m))
        | Action.capture => current_visit (self m)
        | Action.complete_visit => None
        end
    end.
Proof. cbv zeta. engine_cases cfg m b rd; eauto. Qed.

Lemma process_detection_grows cfg m b ds rd :
  wf cfg m -> heap_grown (heap m) (heap (snd (process_detection cfg m b ds rd))).
Proof.
  intros Hwf. pose proof (process_detection_heap cfg m b ds rd) as Hh.
  simpl in Hh. destruct (returned _) as [ins|]; [|rewrite Hh; apply heap_grown_refl].
  destruct (Instruction.action ins).
  - destruct Hh as [_ ->]. apply heap_grown_app.
  - rewrite Hh. apply heap_grown_refl.
  - destruct Hh as (v & Hr & Hc & ->).
    destruct (slot_is_open cfg m _ Hwf Hc) as (v' & Hr' & Ha).
    eapply (heap_grown_insert _ _ v); [exact Hr|]. apply grown_close. congruence.
Qed.

Lemma handle_grows cfg d tk ins :
  wf cfg (machine d) ->
  (Instruction.capture ins = true ->
   current_visit (self (machine d)) = Some (Instruction.visit ins)) ->
  heap_grown (heap (machine d))
    (heap (machine (snd (_handle_state_action cfg d tk ins)))).
Proof.
  intros Hwf Hslot.
  destruct (handle_captures cfg d tk ins)
    as (_ & _ & [[-> _] | (Hcap & v & c & Hr & _ & _ & -> & _)]);
    [apply heap_grown_refl|].
  destruct (slot_is_open cfg _ _ Hwf (Hslot Hcap)) as (v' & Hr' & Ha).
  eapply (heap_grown_insert _ _ v); [exact Hr|]. apply grown_append. congruence.
Qed.

Lemma run_grows cfg sid ticks more :
  heap_grown (heap (machine (run cfg (started sid) ticks)))
             (heap (machine (run cfg (run cfg (started sid) ticks) more))).
Proof.
  set (d0 := run cfg (started sid) ticks).
  apply (run_keeps cfg (fun d => heap_grown (heap (machine d0)) (heap (machine d)))).
  - intros d d' (_ & -> & _) H. exact H.
  - intros d b ds rd o m' H Hwf Hp dh Hm _. rewrite Hm.
    eapply heap_grown_trans; [exact H|].
    pose proof (process_detection_grows cfg (machine d) b ds rd Hwf) as Hg.
    by rewrite Hp in Hg.
  - intros d tk ins m0 H Hwf _ Hslot.
    eapply heap_grown_trans; [exact H|]. by apply handle_grows.
  - apply wf_run.
  - apply heap_grown_refl.
Qed.

Lemma run_labels_captures cfg sid ticks :
  Forall captures_labelled (heap (machine (run cfg (started sid) ticks))).
Proof.
  apply (run_keeps cfg (fun d => Forall captures_labelled (heap (machine d)))).
  - intros d d' (_ & -> & _) H. exact H.
  - intros d b ds rd o m' H Hwf Hp dh Hm _. rewrite Hm.
    pose proof (process_detection_heap cfg (machine d) b ds rd) as Hh.
    rewrite Hp in Hh. simpl in Hh.
    destruct (returned o) as [ins|]; [|by rewrite Hh].
    destruct (Instruction.action ins).
    + destruct Hh as [_ ->]. apply Forall_app. split; [done|].
      constructor; [|done]. intros i c Hc. simpl in Hc.
      by rewrite lookup_nil in Hc.
    + by rewrite Hh.
    + destruct Hh as (v & Hr & _ & ->). apply Forall_insert; [done|].
      rewrite Forall_lookup in H. exact (H _ _ Hr).
  - intros d tk ins m0 H Hwf _ _.
    destruct (handle_captures cfg d tk ins)
      as (_ & _ & [[-> _] | (_ & v & c & Hr & Hid & Hbest & -> & _)]); [done|].
    apply Forall_insert; [done|].
    rewrite Forall_lookup in H. pose proof (H _ _ Hr) as Hv.
    intros i c' Hc'. simpl in *.
    apply lookup_app_Some in Hc' as [Hc' | [Hlen Hc']]; [by apply Hv|].
    apply list_lookup_singleton_Some in Hc' as [Hi <-].
    split; [done|]. rewrite Hbest.
    replace i with (length (Visit.captures v)) by lia. done.
  - apply wf_initial.
  - constructor.
Qed.

Lemma run_mirrors_captures cfg sid db ticks :
  let d := run cfg (started_over sid db) ticks in
  Supabase.captures (supabase d)
  = Supabase.captures db ++ concat (map Visit.captures (heap (machine d)))
  /\ (forall r, current_visit (self (machine d)) = Some r ->
                S r = length (heap (machine d))).
Proof.
  apply (run_keeps cfg (fun d =>
           Supabase.captures (supabase d)
           = Supabase.captures db
               ++ concat (map Visit.captures (heap (machine d)))
           /\ (forall r, current_visit (self (machine d)) = Some r ->
                         S r = length (heap (machine d))))).
  - intros d d' (-> & -> & -> & _) H. exact H.
  - intros d b ds rd o m' [Hc Hlast] Hwf Hp dh Hm Hdb. rewrite Hm, Hdb, Hc.
    pose proof (process_detection_heap cfg (machine d) b ds rd) as Hh.
    pose proof (process_detection_slot cfg (machine d) b ds rd) as Hs.
    rewrite Hp in Hh, Hs. simpl in Hh, Hs.
    destruct (returned o) as [ins|]; [|by rewrite Hh, Hs].
    destruct (Instruction.action ins).
    + destruct Hh as [_ ->]. rewrite Hs, map_app, concat_app. simpl.
      rewrite app_nil_r. split; [done|].
      intros r [= <-]. rewrite length_app. simpl. lia.
    + by rewrite Hh, Hs.
    + destruct Hh as (v & Hr & _ & ->). rewrite Hs. split; [|done].
      rewrite list_fmap_insert. simpl.
      by rewrite list_insert_id by (by rewrite list_lookup_fmap, Hr).
  - intros d tk ins m0 [Hc Hlast] Hwf _ Hslot.
    destruct (handle_captures cfg d tk ins)
      as (-> & _ & [[-> ->] | (Hcap & v & c & Hr & _ & _ & -> & ->)]);
      [done|].
    rewrite length_insert. split; [|done].
    pose proof (Hlast _ (Hslot Hcap)) as Hlen.
    rewrite Hc, <- app_assoc. f_equal. clear -Hr Hlen.
    destruct (heap (machine d)) as [|w h] using rev_ind; [done|].
    rewrite length_app in Hlen. simpl in Hlen.
    assert (Instruction.visit ins = length h) as Hv by lia.
    rewrite Hv in *. rewrite lookup_app_r, Nat.sub_diag in Hr by lia.
    injection Hr as ->.
    replace (length h) with (length h + 0)%nat by lia.
    rewrite insert_app_r. simpl.
    rewrite !map_app, !concat_app. simpl. by rewrite !app_nil_r, app_assoc.
  - apply wf_initial.
  - simpl. by rewrite app_nil_r.
Qed.

(** X5.  As a run goes on, a [Visit] object stays where it is and keeps
    its identifier, session and start time; its captures are only added
    to, at the end; and once its status is ["analyzing"] the object does
    not change any more.  No visit is ever dropped. *)
Theorem visits_only_grow cfg sid ticks more :
  heap_grown (heap (machine (run cfg (started sid) ticks)))
             (heap (machine (run cfg (started sid) (ticks ++ more)))).
Proof. rewrite run_app. apply run_grows. Qed.

(** X6.  After any run, every capture held by a [Visit] carries that
    visit's identifier, and the first capture of a visit, and no other, is
    flagged [is_best_capture]. *)
Theorem captures_carry_their_visit cfg sid ticks :
  Forall captures_labelled (heap (machine (run cfg (started sid) ticks))).
Proof. apply run_labels_captures. Qed.

(** X7.  Over whatever the database held before and after any run that
    no [KeyboardInterrupt] cuts short, whatever requests failed on the
    way, table [captures] holds the rows it held before followed by
    exactly the captures of the [Visit] objects, visit by visit in the
    order of creation: a capture is appended to its visit if and only if
    its row was inserted.  And the visit in the engine's slot, when there
    is one, is the visit created last. *)
Theorem captures_table_mirrors_visits cfg sid db ticks :
  uninterrupted ticks ->
  let d := run cfg (started_over sid db) ticks in
  Supabase.captures (supabase d)
  = Supabase.captures db ++ concat (map Visit.captures (heap (machine d)))
  /\ (forall r, current_visit (self (machine d)) = Some r ->
                S r = length (heap (machine d))).
Proof. intros _. apply run_mirrors_captures. Qed.

Lemma captures_table_mirrors_visits_witness :
  let d := run Scenario.cfg (started_over "garden" Scenario.database_A)
             (Scenario.long_stay 4) in
  Supabase.captures (supabase d)
  = Supabase.captures Scenario.database_A
      ++ concat (map Visit.captures (heap (machine d)))
  /\ (forall r, current_visit (self (machine d)) = Some r ->
                S r = length (heap (machine d))).
Proof.
  apply (captures_table_mirrors_visits Scenario.cfg "garden"
           Scenario.database_A (Scenario.long_stay 4)).
  unfold uninterrupted, Scenario.long_stay. apply Forall_map, Forall_forall.
  intros t _. reflexivity.
Defined.

(** There the table ends with the four captures of the earlier session
    followed by the two of this one. *)
Lemma captures_table_after_a_restart :
  length (Supabase.captures
            (supabase (run Scenario.cfg
                         (started_over "garden" Scenario.database_A)
                         (Scenario.long_stay 4)))) = 6%nat.
Proof. vm_compute. reflexivity. Qed.
End RunInvariants.

(** ** More of what every run keeps *)

Section RunInvariantsMore.
Import VisitStateMachine Invariant BirdDetector Further.

Lemma slot_has_captured cfg sid ticks :
  let m := machine (run cfg (started sid) ticks) in
  is_Some (current_visit (self m)) -> is_Some (last_capture_time (self m)).
Proof.
  apply (run_keeps cfg (fun d =>
           is_Some (current_visit (self (machine d))) ->
           is_Some (last_capture_time (self (machine d))))).
  - intros d d' (-> & _) H. exact H.
  - intros d b ds rd o m' Hinv Hwf Hp dh -> _. revert Hp Hinv.
    engine_cases cfg (machine d) b rd; intros [= <- <-] Hinv; simpl;
      first [ exact Hinv
            | by intros [? [=]]
            | by intros _; eexists
            | by intros _; apply Hinv; eexists
            | by intros [x Hx]; congruence ].
  - intros d tk ins m0 H Hwf _ _.
    by destruct (handle_captures cfg d tk ins) as (-> & _).
  - apply wf_initial.
  - by intros [? [=]].
Qed.

(** X2.  With a capture interval of at most [2 ^ 33] seconds, for which
    the comparison the code makes on floats is exact: in a run of the
    detection loop from a freshly started detector, the engine returns a
    capture instruction only when at least [CAPTURE_INTERVAL_SEC] seconds
    have passed since the last instruction that asked for a photograph
    (the start of the visit or an earlier capture), and there is always
    such an earlier instruction. *)
Theorem captures_are_an_interval_apart cfg sid ticks pre t ins post :
  exact_seconds (Config.CAPTURE_INTERVAL_SEC cfg) ->
  trace cfg (started sid) ticks = pre ++ (t, Some ins) :: post ->
  Instruction.action ins = Action.capture ->
  exists p, last (times Instruction.capture pre) = Some p
            /\ (Config.CAPTURE_INTERVAL_SEC cfg * 1000000 <= t - p)%Z.
Proof.
  intros _ Htr Hact.
  destruct (trace_entry _ _ _ _ _ _ Htr)
    as (ticks1 & tk & ticks2 & -> & <- & _ & [= -> Hobs]).
  symmetry in Hobs.
  destruct (observe_instruction _ _ _ _ Hobs) as (b & ds & m' & Hp).
  pose proof (capture_needs_interval _ _ _ _ _ _ _ Hp Hact) as Hdue.
  destruct (timers_track cfg sid ticks1) as [_ Hl]. simpl in Hl.
  assert (Hslot : is_Some (current_visit
                             (self (machine (run cfg (started sid) ticks1))))).
  { revert Hp Hact. clear.
    engine_cases cfg (machine (run cfg (started sid) ticks1)) b (reading tk);
      intros [= <- <-]; try discriminate; eauto. }
  destruct (slot_has_captured cfg sid ticks1 Hslot) as [p Hp'].
  unfold _should_capture in Hdue. rewrite Hp' in Hdue.
  exists p. split; [congruence|]. unfold elapsed_at_least in Hdue. lia.
Qed.

Lemma captures_are_an_interval_apart_witness :
  exists p,
    last (times Instruction.capture
            (take 3 (trace Scenario.cfg (started "feeder")
                       (Scenario.long_stay 4)))) = Some p
    /\ (Config.CAPTURE_INTERVAL_SEC Scenario.cfg * 1000000
          <= Scenario.sec 3 - p)%Z.
Proof.
  apply (captures_are_an_interval_apart Scenario.cfg "feeder"
           (Scenario.long_stay 4)
           (take 3 (trace Scenario.cfg (started "feeder")
                      (Scenario.long_stay 4)))
           (Scenario.sec 3)
           {| Instruction.action := Action.capture;
              Instruction.visit := 0%nat;
              Instruction.capture := true;
              Instruction.detections := Some [Scenario.bird] |} []).
  - split; vm_compute; discriminate.
  - vm_compute. reflexivity.
  - reflexivity.
Defined.

Lemma last_id_insert (h : list Visit.t) r v v' :
  h !! r = Some v -> Visit.id v' = Visit.id v ->
  ids (<[r := v']> h) = ids h.
Proof.
  intros Hr Hid. unfold ids. rewrite list_fmap_insert.
  apply list_insert_id. by rewrite list_lookup_fmap, Hr, Hid.
Qed.

(** The identifiers of the visits never change, and new ones come at the
    end. *)
Lemma process_detection_ids cfg m b ds rd :
  let res := process_detection cfg m b ds rd in
  ids (heap (snd res))
  = match returned (fst res) with
    | Some ins =>
        if decide (Instruction.action ins = Action.start_visit)
        then ids (heap m) ++ [fresh_uuid rd] else ids (heap m)
    | None => ids (heap m)
    end
  /\ StructuredLogger.correlation_id (logger (snd res))
     = match returned (fst res) with
       | Some ins =>
           if decide (Instruction.action ins = Action.start_visit)
           then Some (fresh_uuid rd)
           else StructuredLogger.correlation_id (logger m)
       | None => StructuredLogger.correlation_id (logger m)
       end.
Proof.
  cbv zeta. engine_cases cfg m b rd; try done; split; try done;
    first [ by unfold ids; rewrite map_app | by eapply last_id_insert ].
Qed.

Lemma handle_ids cfg d tk ins :
  ids (heap (machine (snd (_handle_state_action cfg d tk ins))))
  = ids (heap (machine d)).
Proof.
  destruct (handle_captures cfg d tk ins)
    as (_ & _ & [[-> _] | (_ & v & c & Hr & _ & _ & -> & _)]); [done|].
  by eapply last_id_insert.
Qed.

Lemma run_correlation_id cfg sid ticks :
  let m := machine (run cfg (started sid) ticks) in
  StructuredLogger.correlation_id (logger m) = last (ids (heap m)).
Proof.
  apply (run_keeps cfg (fun d =>
           StructuredLogger.correlation_id (logger (machine d))
           = last (ids (heap (machine d))))).
  - intros d d' (_ & -> & _ & ->) H. exact H.
  - intros d b ds rd o m' H Hwf Hp dh -> _.
    destruct (process_detection_ids cfg (machine d) b ds rd) as [Hi Hc].
    rewrite Hp in Hi, Hc. simpl in Hi, Hc. rewrite Hi, Hc.
    destruct (returned o) as [ins|]; [|done].
    case_decide; [|done]. by rewrite last_snoc.
  - intros d tk ins m0 H Hwf _ _. rewrite handle_ids.
    by destruct (handle_captures cfg d tk ins) as (_ & -> & _).
  - apply wf_initial.
  - done.
Qed.

Lemma filter_all {A} (P : A -> Prop) `{!forall x, Decision (P x)} (l : list A) :
  Forall P l -> filter P l = l.
Proof.
  induction 1 as [|x l Hx _ IH]; [done|].
  by rewrite filter_cons_True, IH.
Qed.

Lemma filter_none {A} (P : A -> Prop) `{!forall x, Decision (P x)} (l : list A) :
  Forall (fun x => ~ P x) l -> filter P l = [].
Proof.
  induction 1 as [|x l Hx _ IH]; [done|].
  by rewrite filter_cons_False.
Qed.

Lemma elem_of_concat {A} (x : A) (ls : list (list A)) :
  x ∈ concat ls -> exists l, x ∈ l /\ l ∈ ls.
Proof.
  induction ls as [|l ls IH]; simpl; [by intros ?%elem_of_nil|].
  intros [Hx | Hx]%elem_of_app.
  - exists l. split; [done | left].
  - destruct (IH Hx) as (l' & Hx' & Hl'). exists l'. split; [done | by right].
Qed.

Lemma labelled_captures_of h (r : nat) v :
  Forall captures_labelled h -> NoDup (ids h) -> h !! r = Some v ->
  filter (fun c => Capture.visit_id c = Visit.id v)
         (concat (map Visit.captures h))
  = Visit.captures v.
Proof.
  intros Hlab. revert r. induction Hlab as [|w h Hw Hlab IH]; intros r Hnd Hr.
  - by rewrite lookup_nil in Hr.
  - unfold ids in Hnd. simpl in Hnd. apply NoDup_cons in Hnd as [Hnotin Hnd].
    simpl. rewrite filter_app.
    assert (Hothers : forall u, u ∈ h -> Visit.id u <> Visit.id w).
    { intros u Hu Heq. apply Hnotin. rewrite <- Heq.
      by apply list_elem_of_fmap_2. }
    destruct r as [|r]; simpl in Hr.
    + injection Hr as ->. rewrite filter_all.
      * rewrite filter_none; [by rewrite app_nil_r|].
        apply Forall_forall. intros c Hc.
        apply elem_of_concat in Hc as (cs & Hc & Hcs).
        apply list_elem_of_fmap in Hcs as (u & -> & Hu).
        apply list_elem_of_lookup in Hc as [i Hi].
        rewrite Forall_forall in Hlab. destruct (Hlab u Hu i c Hi) as [-> _].
        by apply Hothers.
      * apply Forall_forall. intros c Hc.
        apply list_elem_of_lookup in Hc as [i Hi]. by destruct (Hw i c Hi).
    + rewrite filter_none.
      * by apply (IH r).
      * apply Forall_forall. intros c Hc.
        apply list_elem_of_lookup in Hc as [i Hi]. destruct (Hw i c Hi) as [-> _].
        intros Heq. apply (Hothers v); [|done].
        by eapply list_elem_of_lookup_2.
Qed.

(** X10.  After any run, the correlation identifier of the detector's
    logger is the identifier of the visit created last, and there is none
    before the first visit: completing a visit does not reset it. *)
Theorem correlation_id_is_the_latest_visit cfg sid ticks :
  let m := machine (run cfg (started sid) ticks) in
  StructuredLogger.correlation_id (logger m) = last (ids (heap m)).
Proof. apply run_correlation_id. Qed.

(** X8.  After any run in which the identifiers drawn for the visits are
    distinct, the query the analysis worker makes for a visit's captures
    returns exactly the captures of that [Visit] object, in the order they
    were taken. *)
Theorem analyzer_sees_the_visits_captures cfg sid ticks (r : nat) v :
  let d := run cfg (started sid) ticks in
  NoDup (ids (heap (machine d))) ->
  heap (machine d) !! r = Some v ->
  Supabase.select_captures (Visit.id v) (supabase d) = Visit.captures v.
Proof.
  intros d Hnd Hr. subst d. unfold Supabase.select_captures.
  change (started sid) with (started_over sid Supabase.empty) in *.
  destruct (run_mirrors_captures cfg sid Supabase.empty ticks) as [-> _].
  simpl.
  apply (labelled_captures_of _ r); [|done|done].
  apply run_labels_captures.
Qed.

Lemma analyzer_sees_the_visits_captures_witness :
  exists v,
    heap (machine (run Scenario.cfg (started "feeder") (Scenario.scenario_A 17)))
      !! 0%nat = Some v
    /\ Supabase.select_captures (Visit.id v)
         (supabase (run Scenario.cfg (started "feeder") (Scenario.scenario_A 17)))
       = Visit.captures v.
Proof.
  eexists. split; [vm_compute; reflexivity|].
  apply (analyzer_sees_the_visits_captures Scenario.cfg "feeder"
           (Scenario.scenario_A 17) 0%nat).
  - vm_compute. apply NoDup_singleton.
  - vm_compute. reflexivity.
Defined.
End RunInvariantsMore.

(** ** What the handler writes to table [visits] *)

Section VisitsTable.
Import VisitStateMachine Invariant BirdDetector Further.

End VisitsTable.

(** ** The grace period *)

Section Grace.
Import VisitStateMachine Invariant Further.

Lemma feed_snoc cfg m inputs i :
  feed cfg m (inputs ++ [i])
  = snd (process_detection cfg (feed cfg m inputs) (bird_detected i)
           (detections i) (read i)).
Proof.
  revert m. induction inputs as [|j inputs IH]; intros m; simpl; [done|].
  apply IH.
Qed.

Lemma unseen_since_snoc inputs i :
  unseen_since (inputs ++ [i]) = unseen_step (unseen_since inputs) i.
Proof. unfold unseen_since. by rewrite fold_left_app. Qed.

(** Where a state with the bird present or away comes from. *)
Lemma process_detection_absence cfg m b ds rd :
  let m' := snd (process_detection cfg m b ds rd) in
  (state (self m') = BIRD_PRESENT -> b = true)
  /\ (state (self m') = BIRD_ABSENT ->
      b = false
      /\ ((state (self m) = BIRD_PRESENT
           /\ absence_start_time (self m') = Some (now rd))
          \/ (state (self m) = BIRD_ABSENT
              /\ absence_start_time (self m') = absence_start_time (self m)))).
Proof.
  cbv zeta.
  unfold process_detection, _capture_photo, _complete_visit, _start_visit, deref.
  destruct (state (self m)) eqn:Hst; destruct b; simpl;
    repeat (match goal with
            | |- context [if ?c then _ else _] => destruct c eqn:?
            | |- context [match ?c with _ => _ end] => destruct c eqn:?
            end; simpl);
    rewrite ?Hst; simpl; intuition congruence.
Qed.

(** While the bird is away the engine's [absence_start_time] is the time
    of the first of the inputs without a detection that end the sequence;
    while it is present the sequence ends with a detection. *)
Lemma absence_tracks_unseen cfg sid inputs :
  let m := feed cfg (initial_memory sid) inputs in
  (state (self m) = BIRD_PRESENT -> unseen_since inputs = None)
  /\ (state (self m) = BIRD_ABSENT ->
      is_Some (unseen_since inputs)
      /\ absence_start_time (self m) = unseen_since inputs).
Proof.
  simpl. induction inputs as [|i inputs [IHp IHa]] using rev_ind.
  { simpl. split; discriminate. }
  rewrite feed_snoc, unseen_since_snoc.
  set (m := feed cfg (initial_memory sid) inputs) in *.
  destruct (process_detection_absence cfg m (bird_detected i) (detections i)
              (read i)) as [Hp Ha].
  unfold unseen_step. split.
  - intros Hst. by rewrite (Hp Hst).
  - intros Hst. destruct (Ha Hst) as [-> [[Hwas ->] | [Hwas ->]]].
    + rewrite (IHp Hwas). eauto.
    + destruct (IHa Hwas) as [[s Hs] Habs]. rewrite Habs, Hs. eauto.
Qed.

(** X3.  With a grace period of at most [2 ^ 33] seconds, for which the
    comparison the code makes on floats is exact: from a fresh engine and
    after any sequence of inputs, the transition function returns a
    complete-visit instruction only on an input without a detection, and
    only when at least [ABSENCE_GRACE_PERIOD_SEC] seconds have passed
    since the first of the inputs without a detection that end the
    sequence: a visit is never completed while the bird is seen or before
    the grace period is over. *)
Theorem visit_completes_only_after_the_grace_period cfg sid inputs i ins m' :
  exact_seconds (Config.ABSENCE_GRACE_PERIOD_SEC cfg) ->
  process_detection cfg (feed cfg (initial_memory sid) inputs)
    (bird_detected i) (detections i) (read i) = (Return (Some ins), m') ->
  Instruction.action ins = Action.complete_visit ->
  bird_detected i = false
  /\ exists since,
       unseen_since inputs = Some since
       /\ (Config.ABSENCE_GRACE_PERIOD_SEC cfg * 1000000
             <= now (read i) - since)%Z.
Proof.
  intros _ Hp Hact.
  destruct (absence_tracks_unseen cfg sid inputs) as [_ Hinv]. simpl in Hinv.
  set (m := feed cfg (initial_memory sid) inputs) in *.
  assert (Hst : state (self m) = BIRD_ABSENT
                /\ bird_detected i = false
                /\ _absence_timeout_elapsed cfg (self m) (now (read i)) = true).
  { revert Hp.
    unfold process_detection, _capture_photo, _complete_visit, _start_visit,
      deref.
    destruct (state (self m)) eqn:Hst; destruct (bird_detected i); simpl;
      repeat (match goal with
              | |- context [if ?c then _ else _] => destruct c eqn:?
              | |- context [match ?c with _ => _ end] => destruct c eqn:?
              end; simpl);
      intros [= <- <-]; try discriminate Hact; done. }
  destruct Hst as (Hst & Hb & Hout).
  destruct (Hinv Hst) as [_ Ha]. split; [done|].
  unfold _absence_timeout_elapsed, elapsed_at_least in Hout.
  rewrite Ha in Hout.
  destruct (unseen_since inputs) as [s|]; [|done].
  exists s. split; [done|]. lia.
Qed.

Lemma visit_completes_only_after_the_grace_period_witness :
  bird_detected (watch false 6) = false
  /\ exists since,
       unseen_since short_absence = Some since
       /\ (Config.ABSENCE_GRACE_PERIOD_SEC Scenario.cfg * 1000000
             <= now (read (watch false 6)) - since)%Z.
Proof.
  eapply (visit_completes_only_after_the_grace_period Scenario.cfg "feeder"
            short_absence (watch false 6)).
  - split; vm_compute; discriminate.
  - vm_compute. reflexivity.
  - reflexivity.
Defined.

(** X4.  Conversely, in [BIRD_ABSENT], an input without a detection that
    comes [ABSENCE_GRACE_PERIOD_SEC] seconds or more after the first input
    of the current absence always completes the visit: the transition
    function does not raise, it returns a complete-visit instruction for
    the open visit without the capture flag and without detections, the
    visit gets its end time and status ["analyzing"], the slot is emptied
    and the cooldown starts at that input's time. *)
Theorem absence_beyond_the_grace_period_completes cfg sid inputs i since :
  let m := feed cfg (initial_memory sid) inputs in
  state (self m) = BIRD_ABSENT ->
  bird_detected i = false ->
  unseen_since inputs = Some since ->
  (Config.ABSENCE_GRACE_PERIOD_SEC cfg * 1000000 <= now (read i) - since)%Z ->
  exists r v m',
    heap m !! r = Some v
    /\ Visit.status v = "active"%string
    /\ process_detection cfg m (bird_detected i) (detections i) (read i)
       = (Return (Some {| Instruction.action := Action.complete_visit;
                          Instruction.visit := r;
                          Instruction.capture := false;
                          Instruction.detections := None |}), m')
    /\ heap m' = <[r := Visit.close (now (read i)) v]> (heap m)
    /\ state (self m') = VISIT_COMPLETE
    /\ current_visit (self m') = None
    /\ cooldown_start_time (self m') = Some (now (read i)).
Proof.
  intros m Hst Hb Hun Hgrace.
  destruct (absence_tracks_unseen cfg sid inputs) as [_ Hinv]. simpl in Hinv.
  fold m in Hinv. destruct (Hinv Hst) as [_ Ha].
  pose proof (wf_feed cfg sid inputs) as Hwf. fold m in Hwf.
  destruct (wf_open cfg m Hwf (or_intror Hst)) as (r & v & Hc & Hr & Hactive).
  exists r, v. eexists. split; [done|]. split; [done|].
  unfold process_detection, _absence_timeout_elapsed, elapsed_at_least.
  rewrite Hst, Hb, Ha, Hun.
  destruct (Z.leb_spec (Config.ABSENCE_GRACE_PERIOD_SEC cfg * 1000000)
              (now (read i) - since)); [|lia].
  unfold _complete_visit, deref. rewrite Hc, Hr.
  split; [reflexivity|]. done.
Qed.

Lemma absence_beyond_the_grace_period_completes_witness :
  exists r v m',
    heap (feed Scenario.cfg (initial_memory "feeder") short_absence) !! r
    = Some v
    /\ Visit.status v = "active"%string
    /\ process_detection Scenario.cfg
         (feed Scenario.cfg (initial_memory "feeder") short_absence)
         (bird_detected (watch false 6)) (detections (watch false 6))
         (read (watch false 6))
       = (Return (Some {| Instruction.action := Action.complete_visit;
                          Instruction.visit := r;
                          Instruction.capture := false;
                          Instruction.detections := None |}), m')
    /\ heap m'
       = <[r := Visit.close (now (read (watch false 6))) v]>
           (heap (feed Scenario.cfg (initial_memory "feeder") short_absence))
    /\ state (self m') = VISIT_COMPLETE
    /\ current_visit (self m') = None
    /\ cooldown_start_time (self m') = Some (now (read (watch false 6))).
Proof.
  apply (absence_beyond_the_grace_period_completes Scenario.cfg "feeder"
           short_absence (watch false 6) (Scenario.sec 1)).
  - vm_compute. reflexivity.
  - reflexivity.
  - vm_compute. reflexivity.
  - vm_compute. discriminate.
Defined.
End Grace.

(** ** Leaving the loop *)

Section Loop.
Import VisitStateMachine Invariant BirdDetector Further.

Lemma create_visit_running d tk r :
  running (_create_visit_in_db d tk r) = running d.
Proof.
  unfold _create_visit_in_db. destruct (heap (machine d) !! r); [|done].
  by destruct (fault tk InsertVisit).
Qed.

Lemma capture_and_store_running cfg d tk r ds :
  running (_capture_and_store cfg d tk r ds) = running d.
Proof.
  unfold _capture_and_store. destruct (heap (machine d) !! r); [|done].
  destruct (encode_ok tk); simpl; [|done].
  destruct (fault tk UploadImage); by destruct (fault tk InsertCapture).
Qed.

Lemma finalize_visit_running d tk r :
  running (_finalize_visit d tk r) = running d.
Proof.
  unfold _finalize_visit. destruct (heap (machine d) !! r); [|done].
  by destruct (fault tk UpdateVisit).
Qed.

Lemma handle_running cfg d tk ins :
  running (snd (_handle_state_action cfg d tk ins)) = running d.
Proof.
  unfold _handle_state_action.
  set (d1 := if decide (Instruction.action ins = Action.start_visit)
             then _create_visit_in_db d tk (Instruction.visit ins) else d).
  assert (H1 : running d1 = running d).
  { subst d1. destruct (decide _); [apply create_visit_running | done]. }
  clearbody d1.
  destruct (Instruction.capture ins); simpl.
  - destruct (Instruction.detections ins) as [ds|]; simpl; [|done].
    destruct (decide _); simpl;
      rewrite ?finalize_visit_running, ?capture_and_store_running; done.
  - destruct (decide _); simpl; rewrite ?finalize_visit_running; done.
Qed.

(** Whatever goes wrong in an iteration, only an interrupt leaves the
    loop. *)
Lemma iteration_continues cfg d tk :
  interrupt tk = false ->
  exists d', iteration cfg d tk = Continue d' /\ running d' = running d.
Proof.
  intros Hint. unfold iteration, observe, on_read_failure, on_exception.
  rewrite Hint.
  destruct (Qle_bool _ _); simpl; [|eauto].
  destruct (frame_read tk); simpl.
  - destruct (_detect_birds tk) as [[b ds]|e]; simpl; [|eauto].
    destruct (process_detection cfg (machine d) b ds (reading tk))
      as [[[ins|]|e] m']; simpl; eauto.
    match goal with
    | |- context [_handle_state_action cfg ?x tk ins] =>
        pose proof (handle_running cfg x tk ins) as Hr;
        destruct (_handle_state_action cfg x tk ins) as [[[]|e] dh]
    end; simpl in *; eauto.
  - destruct (_ <=? _)%Z; simpl; [|eauto].
    destruct (reconnect tk); simpl; eauto.
Qed.

(** X12.  Nothing but [KeyboardInterrupt] leaves the detection loop:
    while none arrives, whatever fails in an iteration (a frame that
    cannot be read, a camera that does not reconnect, an exception of the
    detector, of the engine or of a handler, any request to the store),
    the detector is still running and every tick has been gone through. *)
Theorem only_an_interrupt_stops_the_loop cfg d ticks :
  running d = true ->
  Forall (fun tk => interrupt tk = false) ticks ->
  running (run cfg d ticks) = true
  /\ length (trace cfg d ticks) = length ticks.
Proof.
  intros Hrun Hall. revert d Hrun.
  induction Hall as [|tk ticks Htk _ IH]; intros d Hrun; simpl; [done|].
  rewrite Hrun.
  destruct (iteration_continues cfg d tk Htk) as (d' & -> & Hd').
  destruct (IH d' ltac:(congruence)) as [Hr Hl].
  split; [done|]. simpl. by rewrite Hl.
Qed.

Lemma only_an_interrupt_stops_the_loop_witness :
  running (run Scenario.cfg (started "feeder")
             [Scenario.broken_tick 0; Scenario.tick true 1]) = true
  /\ length (trace Scenario.cfg (started "feeder")
               [Scenario.broken_tick 0; Scenario.tick true 1])
     = length [Scenario.broken_tick 0; Scenario.tick true 1].
Proof.
  apply (only_an_interrupt_stops_the_loop Scenario.cfg (started "feeder")
           [Scenario.broken_tick 0; Scenario.tick true 1]).
  - reflexivity.
  - repeat constructor.
Defined.

(** X11.  After any run, [get_state_info] names a visit exactly in
    [BIRD_PRESENT] and [BIRD_ABSENT]: there it reports the identifier and
    the number of captures of the visit created last, which is
    ["active"], whose identifier is also the logger's correlation
    identifier and whose captures number at most
    [max 1 MAX_CAPTURES_PER_VISIT]; in [IDLE] and [VISIT_COMPLETE] it
    reports no visit and zero captures. *)
Theorem state_info_names_the_open_visit cfg sid ticks :
  let m := machine (run cfg (started sid) ticks) in
  match state (self m) with
  | BIRD_PRESENT | BIRD_ABSENT =>
      exists v,
        last (heap m) = Some v
        /\ Visit.status v = "active"%string
        /\ get_state_info m
           = (state_value (state (self m)), Some (Visit.id v),
              length (Visit.captures v))
        /\ StructuredLogger.correlation_id (logger m) = Some (Visit.id v)
        /\ (Z.of_nat (length (Visit.captures v))
              <= Z.max 1 (Config.MAX_CAPTURES_PER_VISIT cfg))%Z
  | IDLE | VISIT_COMPLETE =>
      get_state_info m = (state_value (state (self m)), None, 0%nat)
  end.
Proof.
  intros m. pose proof (wf_run cfg sid ticks) as Hwf. fold m in Hwf.
  pose proof (run_correlation_id cfg sid ticks) as Hcid.
  destruct (run_mirrors_captures cfg sid Supabase.empty ticks) as [_ Hslot].
  change (started_over sid Supabase.empty) with (started sid) in Hslot.
  simpl in Hcid, Hslot. fold m in Hcid, Hslot.
  assert (Hopen : state (self m) = BIRD_PRESENT \/ state (self m) = BIRD_ABSENT ->
    exists v,
        last (heap m) = Some v
        /\ Visit.status v = "active"%string
        /\ get_state_info m
           = (state_value (state (self m)), Some (Visit.id v),
              length (Visit.captures v))
        /\ StructuredLogger.correlation_id (logger m) = Some (Visit.id v)
        /\ (Z.of_nat (length (Visit.captures v))
              <= Z.max 1 (Config.MAX_CAPTURES_PER_VISIT cfg))%Z).
  { intros Hst.
    destruct (wf_open cfg m Hwf Hst) as (r & v & Hc & Hr & Hactive).
    specialize (Hslot r Hc).
    assert (Hlast : last (heap m) = Some v).
    { rewrite last_lookup. rewrite <- Hslot. simpl. exact Hr. }
    exists v. split; [done|]. split; [done|]. split.
    - unfold get_state_info. by rewrite Hc, Hr.
    - split; [|exact (wf_bound cfg m Hwf r v Hr)].
      rewrite Hcid. unfold ids. rewrite last_lookup, length_map, <- Hslot.
      simpl. by rewrite list_lookup_fmap, Hr. }
  assert (Hclosed : state (self m) = IDLE \/ state (self m) = VISIT_COMPLETE ->
            get_state_info m = (state_value (state (self m)), None, 0%nat)).
  { intros Hst. unfold get_state_info.
    by rewrite (wf_closed cfg m Hwf Hst). }
  destruct (state (self m)); auto.
Qed.
End Loop.

(** ** Connecting to the camera *)

Section CameraConnection.
Import VisitStateMachine BirdDetector Camera Further.

Lemma delays_take k n b : (k <= n)%nat -> take k (delays n b) = delays k b.
Proof.
  revert n b. induction k as [|k IH]; intros n b Hk; [done|].
  destruct n as [|n]; [lia|]. simpl. f_equal. apply IH. lia.
Qed.

Lemma delays_snoc_app (w : list Z) b ws : (w ++ [b]) ++ ws = w ++ b :: ws.
Proof. by rewrite <- app_assoc. Qed.

(** The loop from any point: it ends at the first attempt that streams,
    having slept after each attempt before it, or runs out of turns. *)
Lemma connecting_spec camera n :
  forall attempts b w d,
    let c := connecting camera n attempts b w d in
    same_view d (detector c)
    /\ if connected c
       then exists k, (k < n)%nat
              /\ streams (camera (attempts + Z.of_nat k)%Z) = true
              /\ (forall j, (j < k)%nat ->
                    streams (camera (attempts + Z.of_nat j)%Z) = false)
              /\ waited c = w ++ delays k b
              /\ consecutive_failures (detector c) = 0%Z
       else (forall j, (j < n)%nat ->
               streams (camera (attempts + Z.of_nat j)%Z) = false)
            /\ waited c = w ++ delays n b
            /\ consecutive_failures (detector c) = consecutive_failures d.
Proof.
  induction n as [|n IH]; intros attempts b w d; simpl.
  { split; [by repeat split|]. split; [intros j; lia|].
    by rewrite app_nil_r. }
  assert (Hstep : forall d1,
    same_view d d1 -> consecutive_failures d1 = consecutive_failures d ->
    streams (camera attempts) = false ->
    let c := connecting camera n (attempts + 1) (Z.min (b * 2) 60)
               (w ++ [b]) d1 in
    same_view d (detector c)
    /\ if connected c
       then exists k, (k < S n)%nat
              /\ streams (camera (attempts + Z.of_nat k)%Z) = true
              /\ (forall j, (j < k)%nat ->
                    streams (camera (attempts + Z.of_nat j)%Z) = false)
              /\ waited c = w ++ delays k b
              /\ consecutive_failures (detector c) = 0%Z
       else (forall j, (j < S n)%nat ->
               streams (camera (attempts + Z.of_nat j)%Z) = false)
            /\ waited c = w ++ b :: delays n (Z.min (b * 2) 60)
            /\ consecutive_failures (detector c) = consecutive_failures d).
  { intros d1 Hview Hfail Hnow. cbv zeta.
    destruct (IH (attempts + 1)%Z (Z.min (b * 2) 60) (w ++ [b]) d1)
      as [Hv Hrest].
    split.
    { destruct Hview as (? & ? & ? & ?), Hv as (? & ? & ? & ?).
      repeat split; congruence. }
    destruct (connected _).
    - destruct Hrest as (k & Hk & Hs & Hbefore & Hw & Hf).
      exists (S k). split; [lia|].
      split; [by replace (attempts + Z.of_nat (S k))%Z
                    with (attempts + 1 + Z.of_nat k)%Z by lia|].
      split.
      + intros [|j] Hj; [by rewrite Z.add_0_r|].
        replace (attempts + Z.of_nat (S j))%Z
          with (attempts + 1 + Z.of_nat j)%Z by lia.
        apply Hbefore. lia.
      + split; [|done]. rewrite Hw. simpl. apply delays_snoc_app.
    - destruct Hrest as (Hbefore & Hw & Hf). split.
      + intros [|j] Hj; [by rewrite Z.add_0_r|].
        replace (attempts + Z.of_nat (S j))%Z
          with (attempts + 1 + Z.of_nat j)%Z by lia.
        apply Hbefore. lia.
      + split; [|congruence]. rewrite Hw. apply delays_snoc_app. }
  destruct (camera attempts) as [| |e] eqn:Hcam.
  - simpl. split; [by repeat split|].
    exists 0%nat. split; [lia|]. rewrite Z.add_0_r, Hcam.
    split; [done|]. split; [intros j; lia|]. by rewrite app_nil_r.
  - apply Hstep; [by repeat split | done | done].
  - apply Hstep; [by repeat split | done | done].
Qed.

(** X14.  [_connect_camera] makes at most ten attempts and stops at the
    first that streams.  It returns [True] exactly when one of the ten
    streams; it has then slept after each attempt before that one, for
    2, 4, 8, 16, 32 and then 60 seconds, and has reset the failure
    counter.  Otherwise it returns [False] after sleeping all ten delays
    and leaves the counter alone.  Either way the engine, the [Visit]
    objects and the database are untouched. *)
Theorem connect_camera_stops_at_the_first_stream camera d :
  let c := _connect_camera camera d in
  same_view d (detector c)
  /\ waited c `prefix_of` schedule
  /\ if connected c
     then exists k, (k < 10)%nat
            /\ streams (camera (Z.of_nat k)) = true
            /\ (forall j, (j < k)%nat -> streams (camera (Z.of_nat j)) = false)
            /\ waited c = take k schedule
            /\ consecutive_failures (detector c) = 0%Z
     else (forall j, (j < 10)%nat -> streams (camera (Z.of_nat j)) = false)
          /\ waited c = schedule
          /\ consecutive_failures (detector c) = consecutive_failures d.
Proof.
  intros c. subst c. unfold _connect_camera.
  destruct (connecting_spec camera 10 0 2 [] d) as [Hview Hrest].
  split; [done|].
  destruct (connected _).
  - destruct Hrest as (k & Hk & Hs & Hbefore & Hw & Hf).
    assert (Htake : waited (connecting camera 10 0 2 [] d) = take k schedule).
    { rewrite Hw. simpl. symmetry.
      change schedule with (delays 10 2). apply delays_take. lia. }
    split; [rewrite Htake; apply prefix_take|].
    exists k. by repeat split.
  - destruct Hrest as (Hbefore & Hw & Hf).
    split; [by rewrite Hw|]. by repeat split.
Qed.
End CameraConnection.

(** ** The analysis of a visit, whatever happens *)

Section Analysis.
Import SpeciesAnalyzer Invariant Further.

Lemma update_species_stats_rest tk sp a :
  let a' := _update_species_stats tk sp a in
  Supabase.visits (supabase a') = Supabase.visits (supabase a)
  /\ Supabase.captures (supabase a') = Supabase.captures (supabase a)
  /\ requests_sent a' = requests_sent a
  /\ slept a' = slept a.
Proof.
  cbv zeta. unfold _update_species_stats.
  destruct (_ || _); [done|]. destruct (fault tk SelectStats); [done|].
  destruct (filter _ _);
    [destruct (fault tk InsertStats) | destruct (fault tk UpdateStats)]; done.
Qed.

Lemma mark_completed_effects tk vid ans a :
  let a' := _mark_visit_completed tk vid ans a in
  Supabase.visits (supabase a')
  = (if fault tk UpdateVisit then Supabase.visits (supabase a)
     else Supabase.visits
            (Supabase.update_visits (completed_row (clock tk) ans) vid
               (supabase a)))
  /\ Supabase.captures (supabase a') = Supabase.captures (supabase a)
  /\ requests_sent a' = requests_sent a
  /\ slept a' = slept a.
Proof.
  cbv zeta. unfold _mark_visit_completed.
  destruct (fault tk UpdateVisit); [done|].
  match goal with
  | |- context [_update_species_stats tk ?sp ?b] =>
      destruct (update_species_stats_rest tk sp b) as (-> & -> & -> & ->)
  end. done.
Qed.

Lemma mark_failed_effects tk vid e a :
  let a' := _mark_visit_failed tk vid e a in
  supabase a'
  = (if fault tk UpdateVisit then supabase a
     else Supabase.update_visits (failed_row (clock tk) e) vid (supabase a))
  /\ requests_sent a' = requests_sent a
  /\ slept a' = slept a.
Proof.
  cbv zeta. unfold _mark_visit_failed. by destruct (fault tk UpdateVisit).
Qed.

(** The retry loop touches no table; it sends at most one request a turn,
    only for an [http] address, and sleeps only after a request. *)
Lemma attempts_effects cfg tk url n :
  forall k a,
    let a' := snd (attempts cfg tk url n k a) in
    supabase a' = supabase a
    /\ (requests_sent a <= requests_sent a' <= requests_sent a + n)%nat
    /\ (length (slept a') + requests_sent a
          <= length (slept a) + requests_sent a')%nat
    /\ (requests_sent a' <> requests_sent a ->
        String.prefix "http" url = true).
Proof.
  induction n as [|n IH]; intros k a; simpl.
  { split; [done|]. split; [lia|]. split; [lia|]. done. }
  destruct (String.prefix "http" url) eqn:Hurl; simpl.
  2: { split; [done|]. split; [lia|]. split; [lia|]. done. }
  destruct (classifier tk k) as [ans|e]; simpl.
  { split; [done|]. split; [lia|]. split; [lia|]. done. }
  destruct (_ <? _)%Z; simpl.
  2: { split; [done|]. split; [lia|]. split; [lia|]. done. }
  destruct (Config.OPENAI_RETRY_DELAY_SEC cfg) as [base|]; simpl.
  2: { split; [done|]. split; [lia|]. split; [lia|]. done. }
  destruct (_ <? _)%Z; simpl.
  { split; [done|]. split; [lia|]. split; [lia|]. done. }
  match goal with
  | |- context [attempts cfg tk url n ?k' ?b] =>
      destruct (IH k' b) as (Hdb & Hsent & Hslept & _)
  end.
  simpl in *. rewrite length_app in Hslept. simpl in Hslept.
  split; [done|]. split; [lia|]. split; [lia|]. done.
Qed.

(** Every path through [analyze_visit] ends in one of the two functions
    that write the result, called on an analyzer with the tables
    untouched. *)
Lemma analyze_visit_ends cfg tk vid a :
  exists a1 a2,
    supabase (analyze_visit cfg tk vid a) = supabase a2
    /\ ((exists ans, a2 = _mark_visit_completed tk vid ans a1)
        \/ (exists e, a2 = _mark_visit_failed tk vid e a1))
    /\ requests_sent (analyze_visit cfg tk vid a) = requests_sent a2
    /\ slept (analyze_visit cfg tk vid a) = slept a2
    /\ supabase a1 = supabase a
    /\ (requests_sent a
          <= requests_sent a1
          <= requests_sent a + Z.to_nat (Config.OPENAI_MAX_RETRIES cfg))%nat
    /\ (length (slept a1) + requests_sent a
          <= length (slept a) + requests_sent a1)%nat
    /\ (requests_sent a1 <> requests_sent a ->
        is_Some (openai_client a)
        /\ fault tk SelectCaptures = false
        /\ exists c, c ∈ Supabase.select_captures vid (supabase a)
             /\ String.prefix "http" (Capture.image_url c) = true).
Proof.
  unfold analyze_visit. destruct (openai_client a) as [key|] eqn:Hkey.
  - destruct (fault tk SelectCaptures) eqn:Hsel.
    { unfold on_exception. eexists _, _. split; [reflexivity|].
      split; [right; eexists; reflexivity|].
      simpl. repeat split; try done; lia. }
    simpl.
    destruct (Supabase.select_captures vid (supabase a)) as [|c0 cs] eqn:Hcs.
    { eexists _, _. split; [reflexivity|].
      split; [left; eexists; reflexivity|].
      simpl. repeat split; try done; lia. }
    destruct (_select_best_capture (c0 :: cs)) as [best|e] eqn:Hbest.
    2: { unfold on_exception. eexists _, _. split; [reflexivity|].
         split; [right; eexists; reflexivity|].
         simpl. repeat split; try done; lia. }
    pose proof (select_best_capture_member _ _ Hbest) as Hin.
    unfold _identify_species.
    match goal with
    | |- context [attempts cfg tk ?u ?n ?k ?b] =>
        destruct (attempts_effects cfg tk u n k b)
          as (Hdb & Hsent & Hslept & Hurl);
        destruct (attempts cfg tk u n k b) as [[ans|e] a']
    end; simpl in *.
    + exists a', (_mark_visit_completed tk vid ans a').
      split; [done|]. split; [left; eauto|].
      split; [done|]. split; [done|]. split; [done|].
      split; [lia|]. split; [lia|].
      intros Hne. split; [done|]. split; [done|]. exists best. auto.
    + unfold on_exception. eexists _, _. split; [reflexivity|].
      split; [right; eexists; reflexivity|].
      simpl. split; [done|]. split; [done|]. split; [done|].
      split; [lia|]. split; [lia|].
      intros Hne. split; [done|]. split; [done|]. exists best. auto.
  - eexists _, _. split; [reflexivity|].
    split; [left; eexists; reflexivity|].
    simpl. repeat split; try done; lia.
Qed.

Lemma update_turned f vid rows :
  (forall row, settled (f row) /\ VisitRow.id (f row) = VisitRow.id row) ->
  Forall2 (turned [vid]) rows
    (map (fun row => if String.eqb (VisitRow.id row) vid then f row else row)
         rows).
Proof.
  intros Hf. induction rows as [|row rows IH]; simpl; constructor; [|done].
  destruct (String.eqb_spec (VisitRow.id row) vid) as [Heq | Hne].
  - destruct (Hf row) as [Hs Hid]. split; [done|]. split; [done|].
    intros Hout. exfalso. apply Hout. rewrite Heq. by left.
  - split; [done|]. split; [|done].
    intros Hin%list_elem_of_singleton. done.
Qed.

Lemma turned_refl picked rows :
  Forall (fun row => VisitRow.id row ∉ picked) rows ->
  Forall2 (turned picked) rows rows.
Proof.
  induction 1; constructor; [|done]. by split.
Qed.

Lemma turned_ids picked rows rows' :
  Forall2 (turned picked) rows rows' ->
  map VisitRow.id rows' = map VisitRow.id rows.
Proof.
  induction 1 as [|row row' rows rows' (Hid & _) _ IH]; simpl; [done|].
  by rewrite Hid, IH.
Qed.

Lemma analysis_settles_of cfg tk vid a :
  let a' := analyze_visit cfg tk vid a in
  Supabase.captures (supabase a') = Supabase.captures (supabase a)
  /\ map VisitRow.id (Supabase.visits (supabase a'))
     = map VisitRow.id (Supabase.visits (supabase a))
  /\ if fault tk UpdateVisit
     then Supabase.visits (supabase a') = Supabase.visits (supabase a)
     else Forall2 (turned [vid]) (Supabase.visits (supabase a))
            (Supabase.visits (supabase a')).
Proof.
  intros a'. subst a'.
  destruct (analyze_visit_ends cfg tk vid a)
    as (a1 & a2 & -> & [[ans ->] | [e ->]] & _ & _ & Hdb & _).
  - destruct (mark_completed_effects tk vid ans a1) as (-> & -> & _).
    rewrite Hdb. split; [done|].
    destruct (fault tk UpdateVisit); [done|].
    assert (H2 : Forall2 (turned [vid]) (Supabase.visits (supabase a))
                   (Supabase.visits
                      (Supabase.update_visits (completed_row (clock tk) ans)
                         vid (supabase a)))).
    { apply update_turned. intros row. split; [by left | done]. }
    split; [by eapply turned_ids | done].
  - destruct (mark_failed_effects tk vid e a1) as (-> & _).
    rewrite Hdb.
    destruct (fault tk UpdateVisit); [done|].
    assert (H2 : Forall2 (turned [vid]) (Supabase.visits (supabase a))
                   (Supabase.visits
                      (Supabase.update_visits (failed_row (clock tk) e)
                         vid (supabase a)))).
    { apply update_turned. intros row. split; [by right | done]. }
    split; [done|]. split; [by eapply turned_ids | done].
Qed.

(** X15.  Whatever path the analysis of a visit takes, it leaves table
    [captures] alone and keeps the rows of table [visits] and their
    identifiers; if the update of the visit is accepted, the rows of that
    visit end ["completed"] or ["failed"], none stays ["analyzing"], and
    the rows of every other visit are unchanged; if the update raises,
    the table is unchanged, so the visit is still ["analyzing"] for a
    later turn of the worker. *)
Theorem analysis_settles_the_visit cfg tk vid a :
  let a' := analyze_visit cfg tk vid a in
  Supabase.captures (supabase a') = Supabase.captures (supabase a)
  /\ map VisitRow.id (Supabase.visits (supabase a'))
     = map VisitRow.id (Supabase.visits (supabase a))
  /\ if fault tk UpdateVisit
     then Supabase.visits (supabase a') = Supabase.visits (supabase a)
     else Forall2 (turned [vid]) (Supabase.visits (supabase a))
            (Supabase.visits (supabase a')).
Proof. apply analysis_settles_of. Qed.

(** X16.  The analysis of a visit sends at most [OPENAI_MAX_RETRIES]
    requests to the model and sleeps at most once per request; and it
    sends one only if there is a client, the query for the captures
    succeeded and the visit has a capture whose image URL starts with
    [http]. *)
Theorem requests_per_visit_are_bounded cfg tk vid a :
  let a' := analyze_visit cfg tk vid a in
  (requests_sent a
     <= requests_sent a'
     <= requests_sent a + Z.to_nat (Config.OPENAI_MAX_RETRIES cfg))%nat
  /\ (length (slept a') + requests_sent a
        <= length (slept a) + requests_sent a')%nat
  /\ (requests_sent a' <> requests_sent a ->
      is_Some (openai_client a)
      /\ fault tk SelectCaptures = false
      /\ exists c, c ∈ Supabase.select_captures vid (supabase a)
           /\ String.prefix "http" (Capture.image_url c) = true).
Proof.
  intros a'. subst a'.
  destruct (analyze_visit_ends cfg tk vid a)
    as (a1 & a2 & _ & [[ans ->] | [e ->]] & -> & -> & _ & Hsent & Hslept & Hwhy).
  - destruct (mark_completed_effects tk vid ans a1) as (_ & _ & -> & ->).
    split; [lia|]. split; [lia|]. done.
  - destruct (mark_failed_effects tk vid e a1) as (_ & -> & ->).
    split; [lia|]. split; [lia|]. done.
Qed.
End Analysis.

(** ** The retry loop *)

Section Retries.
Import SpeciesAnalyzer Invariant Further.

Lemma select_visit_of_visits vid db db' :
  Supabase.visits db' = Supabase.visits db ->
  Supabase.select_visit vid db' = Supabase.select_visit vid db.
Proof. unfold Supabase.select_visit. by intros ->. Qed.

Lemma failed_rows tk vid e db :
  Forall (failed_with e)
    (Supabase.select_visit vid
       (Supabase.update_visits (failed_row (clock tk) e) vid db)).
Proof.
  rewrite update_visits_select by done.
  apply Forall_map, Forall_forall. intros row _. by repeat split.
Qed.

(** What the rows of a visit look like once [_mark_visit_completed] has
    written an answer. *)
Lemma mark_completed_rows tk vid ans a :
  fault tk UpdateVisit = false ->
  let a' := _mark_visit_completed tk vid ans a in
  Forall (completed_as ans) (Supabase.select_visit vid (supabase a'))
  /\ length (Supabase.select_visit vid (supabase a'))
     = length (Supabase.select_visit vid (supabase a))
  /\ map VisitRow.id (Supabase.visits (supabase a'))
     = map VisitRow.id (Supabase.visits (supabase a)).
Proof.
  intros Hf a'. subst a'.
  destruct (mark_completed_effects tk vid ans a) as (Hv & _).
  rewrite Hf in Hv.
  rewrite (select_visit_of_visits vid _ _ Hv), Hv.
  split; [apply completed_rows|].
  split; [by rewrite update_visits_select, length_map|].
  by apply update_visits_ids.
Qed.

Lemma backoff_nil cfg attempt : backoff cfg attempt 0 = [].
Proof. unfold backoff. by destruct (Config.OPENAI_RETRY_DELAY_SEC cfg). Qed.

(** The retry loop when the classifier answers after [n] failures. *)
Lemma attempts_succeed cfg tk url ans :
  String.prefix "http" url = true ->
  retry_delay_usable cfg ->
  forall (n remaining : nat) attempt a,
    (0 <= attempt)%Z ->
    (n < remaining)%nat ->
    (attempt + Z.of_nat n < Config.OPENAI_MAX_RETRIES cfg)%Z ->
    (forall k, (attempt <= k < attempt + Z.of_nat n)%Z ->
               is_raise (classifier tk k) = true) ->
    classifier tk (attempt + Z.of_nat n) = Return ans ->
    exists a',
      attempts cfg tk url remaining attempt a = (Return ans, a')
      /\ requests_sent a' = (requests_sent a + S n)%nat
      /\ slept a' = slept a ++ backoff cfg attempt n
      /\ supabase a' = supabase a.
Proof.
  intros Hurl Hdelay.
  induction n as [|n IH]; intros remaining attempt a Hpos Hrem Hmax Hfail Hans.
  - destruct remaining as [|remaining]; [lia|]. simpl.
    rewrite Z.add_0_r in Hans. rewrite Hurl, Hans.
    eexists. split; [reflexivity|]. simpl.
    split; [lia|]. split; [|done]. by rewrite backoff_nil, app_nil_r.
  - destruct remaining as [|remaining]; [lia|].
    pose proof (Hfail attempt ltac:(lia)) as Hnow.
    destruct (classifier tk attempt) as [?|e0] eqn:Hraise; [discriminate|].
    destruct Hdelay as [Hone | (base & Hbase & Hnonneg)]; [lia|].
    assert (0 <= base * 2 ^ attempt)%Z.
    { pose proof (Z.pow_nonneg 2 attempt ltac:(lia)). nia. }
    rewrite (attempts_retry cfg tk url e0 base) by (done || lia).
    edestruct (IH remaining (attempt + 1)%Z) as (a' & Hrun & Hsent & Hslept & Hdb);
      [lia | lia | lia | intros k Hk; apply Hfail; lia
      | by replace (attempt + 1 + Z.of_nat n)%Z
             with (attempt + Z.of_nat (S n))%Z by lia |].
    exists a'. split; [exact Hrun|]. rewrite Hsent, Hslept, Hdb. simpl.
    split; [lia|]. split; [|done].
    by rewrite (backoff_cons cfg base), <- app_assoc.
Qed.

(** X17.  With a client, the store answering, captures with [http]
    image URLs and a retry delay that can be read: if the classifier
    raises on the first [n] attempts and answers on the next, with
    [n < OPENAI_MAX_RETRIES], the worker makes exactly [n + 1] requests,
    sleeps the base delay doubled at each attempt in between, and marks
    the visit ["completed"] with the species, confidence and summary of
    that answer; the table keeps the same rows. *)
Theorem retry_succeeds_after_failures cfg tk vid a key (n : nat) ans :
  openai_client a = Some key ->
  fault tk SelectCaptures = false ->
  fault tk UpdateVisit = false ->
  Supabase.select_captures vid (supabase a) <> [] ->
  Forall (fun c => String.prefix "http" (Capture.image_url c) = true)
         (Supabase.select_captures vid (supabase a)) ->
  (Z.of_nat n < Config.OPENAI_MAX_RETRIES cfg)%Z ->
  retry_delay_usable cfg ->
  fails_before tk (Z.of_nat n) ->
  classifier tk (Z.of_nat n) = Return ans ->
  let a' := analyze_visit cfg tk vid a in
  requests_sent a' = (requests_sent a + S n)%nat
  /\ slept a' = slept a ++ backoff cfg 0 n
  /\ Forall (completed_as ans) (Supabase.select_visit vid (supabase a'))
  /\ length (Supabase.select_visit vid (supabase a'))
     = length (Supabase.select_visit vid (supabase a))
  /\ map VisitRow.id (Supabase.visits (supabase a'))
     = map VisitRow.id (Supabase.visits (supabase a)).
Proof.
  intros Hkey Hsel Hupd Hne Hurls Hmax Hdelay Hfail Hans.
  unfold analyze_visit. rewrite Hkey. simpl. rewrite Hsel.
  destruct (select_best_capture_returns _ Hne) as [best Hbest].
  pose proof (select_best_capture_member _ _ Hbest) as Hin.
  destruct (Supabase.select_captures vid (supabase a)) as [|c0 cs] eqn:Ecs;
    [done|].
  rewrite Hbest.
  assert (Hurl : String.prefix "http" (Capture.image_url best) = true).
  { rewrite Forall_forall in Hurls. by apply Hurls. }
  unfold _identify_species.
  edestruct (attempts_succeed cfg tk (Capture.image_url best) ans Hurl Hdelay
               n (Z.to_nat (Config.OPENAI_MAX_RETRIES cfg)) 0%Z)
    as (a' & -> & Hsent & Hslept & Hdb);
    [lia | lia | lia | intros k Hk; apply Hfail; lia | done |].
  simpl.
  destruct (mark_completed_effects tk vid ans a') as (_ & _ & -> & ->).
  destruct (mark_completed_rows tk vid ans a' Hupd) as (Hrows & Hlen & Hids).
  rewrite Hdb in Hlen, Hids. rewrite Hsent, Hslept. simpl. done.
Qed.

Lemma retry_succeeds_after_failures_witness :
  let a := init keyed Scenario.database_A in
  let a' := analyze_visit keyed flaky_task "visit" a in
  requests_sent a' = (requests_sent a + 3)%nat
  /\ slept a' = slept a ++ backoff keyed 0 2
  /\ Forall (completed_as robin) (Supabase.select_visit "visit" (supabase a'))
  /\ length (Supabase.select_visit "visit" (supabase a'))
     = length (Supabase.select_visit "visit" (supabase a))
  /\ map VisitRow.id (Supabase.visits (supabase a'))
     = map VisitRow.id (Supabase.visits (supabase a)).
Proof.
  apply (retry_succeeds_after_failures keyed flaky_task "visit"
           (init keyed Scenario.database_A) "sk-test" 2 robin).
  - reflexivity.
  - reflexivity.
  - reflexivity.
  - discriminate.
  - repeat constructor.
  - simpl. lia.
  - right. exists 2%Z. split; [reflexivity | lia].
  - intros k Hk. simpl.
    destruct (Z.ltb_spec k 2); [reflexivity | lia].
  - reflexivity.
Defined.

(** X18.  With the settings class as it is written, which has no
    [OPENAI_RETRY_DELAY_SEC], and two or more attempts allowed: when the
    first attempt raises, reading the delay raises in turn and ends the
    retries; after that single request, and without sleeping, the visit is
    marked ["failed"] with species ["unknown"] and the attribute error in
    the summary, whatever the later attempts would have given. *)
Theorem missing_retry_delay_fails_the_visit cfg tk vid a key e :
  openai_client a = Some key ->
  fault tk SelectCaptures = false ->
  fault tk UpdateVisit = false ->
  Supabase.select_captures vid (supabase a) <> [] ->
  Forall (fun c => String.prefix "http" (Capture.image_url c) = true)
         (Supabase.select_captures vid (supabase a)) ->
  (2 <= Config.OPENAI_MAX_RETRIES cfg)%Z ->
  Config.OPENAI_RETRY_DELAY_SEC cfg = None ->
  classifier tk 0 = Raise e ->
  let a' := analyze_visit cfg tk vid a in
  requests_sent a' = S (requests_sent a)
  /\ slept a' = slept a
  /\ Forall (failed_with no_retry_delay)
       (Supabase.select_visit vid (supabase a'))
  /\ length (Supabase.select_visit vid (supabase a'))
     = length (Supabase.select_visit vid (supabase a))
  /\ map VisitRow.id (Supabase.visits (supabase a'))
     = map VisitRow.id (Supabase.visits (supabase a)).
Proof.
  intros Hkey Hsel Hupd Hne Hurls Hmax Hnone Hraise.
  unfold analyze_visit. rewrite Hkey. simpl. rewrite Hsel.
  destruct (select_best_capture_returns _ Hne) as [best Hbest].
  pose proof (select_best_capture_member _ _ Hbest) as Hin.
  destruct (Supabase.select_captures vid (supabase a)) as [|c0 cs] eqn:Ecs;
    [done|].
  rewrite Hbest.
  assert (Hurl : String.prefix "http" (Capture.image_url best) = true).
  { rewrite Forall_forall in Hurls. by apply Hurls. }
  unfold _identify_species.
  destruct (Z.to_nat (Config.OPENAI_MAX_RETRIES cfg)) as [|remaining] eqn:En;
    [lia|].
  cbn [attempts]. rewrite Hurl, Hraise, Hnone.
  destruct (Z.ltb_spec 0 (Config.OPENAI_MAX_RETRIES cfg - 1)); [|lia].
  unfold on_exception, _mark_visit_failed. rewrite Hupd. simpl.
  split; [done|]. split; [done|].
  split; [apply failed_rows|].
  split; [by rewrite update_visits_select, length_map|].
  by apply update_visits_ids.
Qed.

Lemma missing_retry_delay_fails_the_visit_witness :
  let cfg := Scenario.cfg_keyed 3 None in
  let a := init cfg Scenario.database_A in
  let a' := analyze_visit cfg flaky_task "visit" a in
  requests_sent a' = S (requests_sent a)
  /\ slept a' = slept a
  /\ Forall (failed_with no_retry_delay)
       (Supabase.select_visit "visit" (supabase a'))
  /\ length (Supabase.select_visit "visit" (supabase a'))
     = length (Supabase.select_visit "visit" (supabase a))
  /\ map VisitRow.id (Supabase.visits (supabase a'))
     = map VisitRow.id (Supabase.visits (supabase a)).
Proof.
  apply (missing_retry_delay_fails_the_visit (Scenario.cfg_keyed 3 None)
           flaky_task "visit"
           (init (Scenario.cfg_keyed 3 None) Scenario.database_A)
           "sk-test" "timed out").
  - reflexivity.
  - reflexivity.
  - reflexivity.
  - discriminate.
  - repeat constructor.
  - simpl. lia.
  - reflexivity.
  - reflexivity.
Defined.
End Retries.

(** ** Table [species_stats] *)

Section Statistics.
Import SpeciesAnalyzer Invariant Further.

Lemma counted_guard sp :
  String.eqb sp "" || String.eqb sp "unknown" = false <-> counted sp.
Proof.
  unfold counted. rewrite orb_false_iff.
  destruct (String.eqb_spec sp ""), (String.eqb_spec sp "unknown");
    intuition congruence.
Qed.

Lemma filter_species_update sp sp' g (stats : list StatsRow.t) :
  (forall row, StatsRow.species (g row) = StatsRow.species row) ->
  filter (fun row => StatsRow.species row = sp')
    (map (fun row => if String.eqb (StatsRow.species row) sp then g row
                     else row) stats)
  = if decide (sp' = sp)
    then map g (filter (fun row => StatsRow.species row = sp') stats)
    else filter (fun row => StatsRow.species row = sp') stats.
Proof.
  intros Hg. induction stats as [|row rows IH]; simpl.
  { by destruct (decide _). }
  destruct (String.eqb_spec (StatsRow.species row) sp) as [Heq | Hne].
  - destruct (decide (sp' = sp)) as [-> | Hd].
    + rewrite !filter_cons_True by (by rewrite ?Hg). simpl. by rewrite IH.
    + rewrite !filter_cons_False by (rewrite ?Hg; congruence). exact IH.
  - destruct (decide (sp' = sp)) as [-> | Hd].
    + rewrite !filter_cons_False by done. exact IH.
    + destruct (decide (StatsRow.species row = sp')) as [Hs | Hs].
      * rewrite !filter_cons_True by done. by rewrite IH.
      * rewrite !filter_cons_False by done. exact IH.
Qed.

Lemma species_after_update sp g (stats : list StatsRow.t) :
  (forall row, StatsRow.species (g row) = StatsRow.species row) ->
  map StatsRow.species
    (map (fun row => if String.eqb (StatsRow.species row) sp then g row
                     else row) stats)
  = map StatsRow.species stats.
Proof.
  intros Hg. rewrite map_map. apply map_ext. intros row. simpl.
  destruct (String.eqb (StatsRow.species row) sp); [apply Hg | done].
Qed.

(** Whatever fails, [_update_species_stats] keeps the table in shape and
    never counts an unknown species. *)
Lemma update_species_stats_shape tk sp a :
  one_row_per_species (supabase a) ->
  one_row_per_species (supabase (_update_species_stats tk sp a)).
Proof.
  intros [Hnd Hall]. unfold _update_species_stats.
  destruct (String.eqb sp "" || String.eqb sp "unknown") eqn:Hguard; [done|].
  apply counted_guard in Hguard.
  destruct (fault tk SelectStats); [done|].
  destruct (filter (fun row => StatsRow.species row = sp)
              (Supabase.species_stats (supabase a))) as [|cur rest] eqn:Hcur.
  - destruct (fault tk InsertStats); [done|].
    unfold one_row_per_species. simpl. rewrite map_app. simpl. split.
    + apply NoDup_app. split; [done|]. split; [|apply NoDup_singleton].
      intros x Hx ->%list_elem_of_singleton.
      apply list_elem_of_fmap in Hx as (row & Hrow & Hin).
      assert (Hmem : row ∈ filter (fun row => StatsRow.species row = sp)
                       (Supabase.species_stats (supabase a))).
      { apply list_elem_of_filter. by split. }
      rewrite Hcur in Hmem. by apply elem_of_nil in Hmem.
    + apply Forall_app. split; [done|]. by constructor.
  - destruct (fault tk UpdateStats); [done|].
    unfold one_row_per_species. simpl.
    by rewrite species_after_update.
Qed.

(** X19.  For a species that is counted (neither empty nor ["unknown"])
    and with the store answering, [_update_species_stats] raises the
    number of visits recorded for that species by exactly one, from zero
    if the species had no row, leaves the number of every other species as
    it was and does not touch the other tables. *)
Theorem species_stats_count_the_visit tk sp a :
  counted sp ->
  fault tk SelectStats = false ->
  fault tk UpdateStats = false ->
  fault tk InsertStats = false ->
  let a' := _update_species_stats tk sp a in
  seen sp (supabase a') = (seen sp (supabase a) + 1)%Z
  /\ (forall other, other <> sp ->
        seen other (supabase a') = seen other (supabase a))
  /\ Supabase.visits (supabase a') = Supabase.visits (supabase a)
  /\ Supabase.captures (supabase a') = Supabase.captures (supabase a).
Proof.
  intros Hc%counted_guard Hsel Hupd Hins a'. subst a'.
  destruct (update_species_stats_rest tk sp a) as (Hv & Hcap & _).
  split; [|split; [|done]].
  - unfold _update_species_stats. rewrite Hc, Hsel.
    destruct (filter (fun row => StatsRow.species row = sp)
                (Supabase.species_stats (supabase a)))
      as [|current others] eqn:Hcur.
    + rewrite Hins. unfold seen. simpl.
      rewrite Hcur, filter_app, Hcur. simpl. by rewrite filter_cons_True.
    + rewrite Hupd. unfold seen. simpl.
      rewrite filter_species_update by done.
      rewrite decide_True by done. by rewrite Hcur.
  - intros other Hne. unfold _update_species_stats. rewrite Hc, Hsel.
    destruct (filter (fun row => StatsRow.species row = sp)
                (Supabase.species_stats (supabase a)))
      as [|current others] eqn:Hcur.
    + rewrite Hins. unfold seen. simpl. rewrite filter_app. simpl.
      rewrite filter_cons_False by (simpl; congruence).
      by rewrite filter_nil, app_nil_r.
    + rewrite Hupd. unfold seen. simpl.
      rewrite filter_species_update by done.
      by rewrite decide_False by done.
Qed.

Lemma species_stats_count_the_visit_witness :
  let a := init keyed Scenario.database_A in
  let a' := _update_species_stats flaky_task "European Robin" a in
  seen "European Robin" (supabase a')
  = (seen "European Robin" (supabase a) + 1)%Z
  /\ (forall other, other <> "European Robin"%string ->
        seen other (supabase a') = seen other (supabase a))
  /\ Supabase.visits (supabase a') = Supabase.visits (supabase a)
  /\ Supabase.captures (supabase a') = Supabase.captures (supabase a).
Proof.
  apply (species_stats_count_the_visit flaky_task "European Robin"
           (init keyed Scenario.database_A)).
  - split; discriminate.
  - reflexivity.
  - reflexivity.
  - reflexivity.
Defined.
End Statistics.

(** ** The worker loop *)

Section WorkerLoop.
Import SpeciesAnalyzer Invariant Further Main.

Lemma mark_completed_shape tk vid ans a :
  one_row_per_species (supabase a) ->
  one_row_per_species (supabase (_mark_visit_completed tk vid ans a)).
Proof.
  intros Hone. unfold _mark_visit_completed.
  destruct (fault tk UpdateVisit); [done|].
  by apply update_species_stats_shape.
Qed.

Lemma analyze_visit_shape cfg tk vid a :
  one_row_per_species (supabase a) ->
  one_row_per_species (supabase (analyze_visit cfg tk vid a)).
Proof.
  intros Hone.
  destruct (analyze_visit_ends cfg tk vid a)
    as (a1 & a2 & -> & [[ans ->] | [e ->]] & _ & _ & Hdb & _).
  - apply mark_completed_shape. by rewrite Hdb.
  - destruct (mark_failed_effects tk vid e a1) as (-> & _). rewrite Hdb.
    by destruct (fault tk UpdateVisit).
Qed.

Lemma analyze_each_shape cfg task ids :
  forall n a,
    one_row_per_species (supabase a) ->
    one_row_per_species (supabase (analyze_each cfg task n ids a)).
Proof.
  induction ids as [|vid ids IH]; intros n a Hone; simpl; [done|].
  by apply IH, analyze_visit_shape.
Qed.

(** X20.  Over any number of turns of the worker loop, whatever the
    classifier answers and whichever requests fail, table [species_stats]
    keeps at most one row per species and never gets a row for an empty
    or ["unknown"] species, provided it started that way. *)
Theorem species_stats_keep_one_row_per_species cfg w tns :
  one_row_per_species (supabase (analyzer w)) ->
  one_row_per_species (supabase (analyzer (turns cfg w tns))).
Proof.
  unfold turns. revert w.
  induction tns as [|tn tns IH]; intros w Hone; simpl; [done|].
  apply IH. unfold turn. destruct (query_fails tn); simpl; [done|].
  by apply analyze_each_shape.
Qed.

Lemma species_stats_keep_one_row_per_species_witness :
  one_row_per_species
    (supabase (analyzer (turns keyed worker [flaky_turn; flaky_turn]))).
Proof.
  apply (species_stats_keep_one_row_per_species keyed worker
           [flaky_turn; flaky_turn]).
  split; constructor.
Defined.

Lemma turned_step vid ids rows rows1 rows2 :
  Forall2 (turned [vid]) rows rows1 ->
  Forall2 (turned ids) rows1 rows2 ->
  Forall2 (turned (vid :: ids)) rows rows2.
Proof.
  intros H1. revert rows2.
  induction H1 as [|row row1 rows rows1 (Hid1 & Hin1 & Hout1) _ IH];
    intros rows2 H2; inversion H2 as [|? row2 ? rows2' (Hid2 & Hin2 & Hout2) Hrest];
    subst; constructor; [|by apply IH].
  split; [congruence|]. split.
  - intros Hin. destruct (decide (VisitRow.id row ∈ ids)) as [Hids | Hids].
    + apply Hin2. by rewrite Hid1.
    + rewrite Hout2 by (by rewrite Hid1).
      apply Hin1. apply elem_of_cons in Hin as [-> | ?]; [by left | done].
  - intros Hout. apply not_elem_of_cons in Hout as [Hne Hids].
    rewrite Hout2 by (by rewrite Hid1).
    apply Hout1. by intros Heq%list_elem_of_singleton.
Qed.

Lemma analyze_each_turned cfg task ids :
  forall n a,
    (forall k, fault (task k) UpdateVisit = false) ->
    Forall2 (turned ids) (Supabase.visits (supabase a))
      (Supabase.visits (supabase (analyze_each cfg task n ids a))).
Proof.
  induction ids as [|vid ids IH]; intros n a Hok; simpl.
  { apply turned_refl, Forall_forall. intros row _ Hin.
    by apply elem_of_nil in Hin. }
  eapply turned_step; [|by apply IH].
  destruct (analysis_settles_of cfg (task n) vid a) as (_ & _ & Hrows).
  by rewrite Hok in Hrows.
Qed.

(** The first [n] elements of a list that satisfy a predicate, by
    position. *)
Lemma elem_of_take_filter {A} (P : A -> Prop) `{!forall x, Decision (P x)}
    (l : list A) :
  forall (n : nat) x,
    x ∈ take n (filter P l)
    <-> exists i, l !! i = Some x /\ P x
                  /\ (length (filter P (take i l)) < n)%nat.
Proof.
  induction l as [|a l IH]; intros n x.
  - rewrite filter_nil, take_nil. split.
    + intros Hx. by apply elem_of_nil in Hx.
    + intros (i & Hi & _). by rewrite lookup_nil in Hi.
  - destruct (decide (P a)) as [Ha | Ha].
    + rewrite filter_cons_True by done. destruct n as [|n].
      * simpl. split; [intros Hx; by apply elem_of_nil in Hx|].
        intros (i & _ & _ & Hlt). lia.
      * simpl. rewrite elem_of_cons, IH. split.
        -- intros [-> | (i & Hi & Hx & Hlt)].
           ++ exists 0%nat. simpl. split; [done|]. split; [done|]. lia.
           ++ exists (S i). simpl. rewrite filter_cons_True by done.
              simpl. split; [done|]. split; [done|]. lia.
        -- intros ([|i] & Hi & Hx & Hlt); simpl in *.
           ++ left. congruence.
           ++ right. exists i. rewrite filter_cons_True in Hlt by done.
              simpl in Hlt. split; [done|]. split; [done|]. lia.
    + rewrite filter_cons_False by done. rewrite IH. split.
      * intros (i & Hi & Hx & Hlt). exists (S i). simpl.
        by rewrite filter_cons_False by done.
      * intros ([|i] & Hi & Hx & Hlt); simpl in *.
        -- congruence.
        -- exists i. by rewrite filter_cons_False in Hlt by done.
Qed.

(** The query of the worker returns the identifiers of the first ten rows
    that await their analysis. *)
Lemma analyzing_queried db vid :
  vid ∈ analyzing db <-> queried (Supabase.visits db) vid.
Proof.
  unfold analyzing, queried, among_the_first.
  rewrite <- fmap_take, list_elem_of_fmap. split.
  - intros (row & -> & Hin).
    apply (elem_of_take_filter awaiting) in Hin as (i & Hi & Hrow & Hlt).
    exists i, row. split; [exists row; done | done].
  - intros (i & row & (row' & Hi' & Hrow & Hlt) & Hi & <-).
    exists row. split; [done|].
    apply (elem_of_take_filter awaiting). exists i.
    rewrite Hi in Hi'. by injection Hi' as <-.
Qed.

(** X21.  In a turn of the worker loop whose query answers and in which
    every update of a visit is accepted: each row carrying the identifier
    of one of the first ten rows that were ["analyzing"] ends
    ["completed"] or ["failed"], every other row is unchanged, no row is
    added or removed, and the loop then rests five seconds; so when at
    most ten rows were ["analyzing"], none is after the turn. *)
Theorem worker_turn_settles_what_it_picks cfg w tn :
  query_fails tn = false ->
  (forall k, fault (task tn k) UpdateVisit = false) ->
  let before := Supabase.visits (supabase (analyzer w)) in
  let after := Supabase.visits (supabase (analyzer (turn cfg w tn))) in
  Forall2 (worked before) before after
  /\ ((length (filter awaiting before) <= 10)%nat ->
      Forall (fun row => ~ awaiting row) after)
  /\ rested (turn cfg w tn) = rested w ++ [5%Z].
Proof.
  intros Hq Hok before after. subst before after.
  unfold turn. rewrite Hq. simpl.
  pose proof (analyze_each_turned cfg (task tn)
                (analyzing (supabase (analyzer w))) 0 (analyzer w) Hok) as Hall.
  set (rows := Supabase.visits (supabase (analyzer w))) in *.
  set (rows' := Supabase.visits
                  (supabase (analyze_each cfg (task tn) 0
                               (analyzing (supabase (analyzer w)))
                               (analyzer w)))) in *.
  assert (Hworked : Forall2 (worked rows) rows rows').
  { eapply Forall2_impl; [exact Hall|].
    intros row row' (Hid & Hin & Hout). split; [done|]. split.
    - intros Hpick. by apply Hin, analyzing_queried.
    - intros Hpick. apply Hout. by rewrite analyzing_queried. }
  split; [done|]. split; [|done].
  intros Hfew.
  assert (Hpicked : forall row, row ∈ rows -> awaiting row ->
            VisitRow.id row ∈ analyzing (supabase (analyzer w))).
  { intros row Hin Hst. unfold analyzing. fold rows.
    rewrite take_ge by (by rewrite length_map).
    apply list_elem_of_fmap. exists row. split; [done|].
    apply list_elem_of_filter. by split. }
  clear Hfew Hworked.
  induction Hall as [|row row' l l' (Hid & Hin & Hout) _ IH]; constructor.
  - destruct (decide (VisitRow.id row ∈ analyzing (supabase (analyzer w))))
      as [Hp | Hp].
    + destruct (Hin Hp) as [Hs | Hs]; unfold awaiting; rewrite Hs; discriminate.
    + rewrite (Hout Hp). intros Hst. apply Hp, Hpicked; [by left | done].
  - apply IH. intros r Hr. apply Hpicked. by right.
Qed.

Lemma worker_turn_settles_what_it_picks_witness :
  let before := Supabase.visits (supabase (analyzer worker)) in
  let after := Supabase.visits
                 (supabase (analyzer (turn keyed worker flaky_turn))) in
  Forall2 (worked before) before after
  /\ ((length (filter awaiting before) <= 10)%nat ->
      Forall (fun row => ~ awaiting row) after)
  /\ rested (turn keyed worker flaky_turn) = rested worker ++ [5%Z].
Proof.
  apply (worker_turn_settles_what_it_picks keyed worker flaky_turn).
  - reflexivity.
  - intros k. reflexivity.
Defined.

(** There the one visit of scenario A, picked while ["analyzing"], is
    ["completed"] as a robin after the turn, and the species has its
    row. *)
Lemma flaky_turn_completes_the_visit :
  analyzing (supabase (analyzer worker)) = ["visit"%string]
  /\ map VisitRow.status
       (Supabase.visits (supabase (analyzer (turn keyed worker flaky_turn))))
     = ["completed"%string]
  /\ seen "European Robin"
       (supabase (analyzer (turn keyed worker flaky_turn))) = 1%Z.
Proof. repeat split; vm_compute; reflexivity. Qed.
End WorkerLoop.

(** ** The program: table [visits] against the [Visit] objects *)

Section ProgramRuns.
Import VisitStateMachine Invariant BirdDetector Further.



Lemma kept_refl row : Program.kept row row.
Proof. by repeat split. Qed.












(** There the row of the earlier session and the row of this one both end
    ["completed"], while the [Visit] object of this session stays
    ["analyzing"]: the worker writes to the table only. *)
Lemma next_session_is_settled :
  let p := Program.run keyed (Program.started keyed "garden" Scenario.database_A)
             Program.next_session in
  map VisitRow.id (Supabase.visits (Program.store p))
  = ["visit"%string; "next"%string]
  /\ map VisitRow.status (Supabase.visits (Program.store p))
     = ["completed"%string; "completed"%string]
  /\ map Visit.status (heap (machine (Program.detector p)))
     = ["analyzing"%string].
Proof. repeat split; vm_compute; reflexivity. Qed.
End ProgramRuns.
